(** * WL-EMG monitor: frame decoding, frame synchronisation, ring buffer
      and signal-quality classification.

    A shallow embedding of the core of the [emg_monitor] package:
    - [data_parser.py]   : [_combine_signed], [parse_packet];
    - [serial_device.py] : the framing loop of [SerialDeviceManager._read_loop];
    - [buffers.py]       : [EmgRingBuffer];
    - [ui/main_window.py]: the calibration and quality-level logic of
      [MainWindow._handle_emg_sample] and [MainWindow._update_channel_indicator],
      and [PacketBridge.emit_packet];
    - [device_manager.py]: [DeviceManager._handle_notification];
    - [simulator.py], [sim_device.py]: the two generators and
      [SimulatedDeviceManager._run];
    - [motion_recorder.py]: [MotionRecorder.add_emg_sample].

    Conventions.  A Python [bytes] value is a [list byte]; a Python [int] is a
    [Z]; a Python exception is a constructor of [exception], and a function that
    may raise returns a [result].  Python floats are idealised as exact
    rationals in lowest terms ([Qc]): every decimal constant of the source is
    the same decimal here ([fl 0.1] is one tenth), and rounding is not
    modelled.  The conversion numpy applies to a value stored into the
    [float32] array of the ring buffer is a parameter of the buffer;
    [Numpy.float32_of_int] is that conversion on integer values. *)

From Stdlib Require Import ZArith QArith Qcanon Qcabs Lia Lqa Bool.
From Stdlib Require Import Init.Byte Strings.Byte.
From stdpp Require Import base list.

Close Scope Qc_scope.
Close Scope Q_scope.
Local Open Scope nat_scope.

(** ** Python values, exceptions and sequence primitives *)

Module Py.

(** Why [parse_packet] rejected a packet: one constructor per [raise] site. *)
Inductive packet_error : Type :=
| BadLength (got : nat)
| MissingHeader
| UnknownType (packet_type : Z).

Inductive exception : Type :=
| PacketError (why : packet_error)
| IndexError
| ValueError.

Inductive result (A : Type) : Type :=
| Ok (a : A)
| Raise (e : exception).

Arguments Ok {A} a.
Arguments Raise {A} e.

Definition bind {A B : Type} (r : result A) (k : A -> result B) : result B :=
  match r with
  | Ok a => k a
  | Raise e => Raise e
  end.

Notation "x <- r ;; k" := (bind r (fun x => k))
  (at level 100, r at next level, right associativity).

(** The integer value of a byte, as indexing or iterating a [bytes] gives it. *)
Definition byte_val (b : byte) : Z := Z.of_N (Byte.to_N b).

(** [raw[i]] on [bytes]: [IndexError] when [i] is out of range. *)
Definition index (raw : list byte) (i : nat) : result Z :=
  match raw !! i with
  | Some b => Ok (byte_val b)
  | None => Raise IndexError
  end.

(** [a << n] on Python integers: [ValueError] on a negative shift count. *)
Definition lshift (a n : Z) : result Z :=
  if (n <? 0)%Z then Raise ValueError else Ok (Z.shiftl a n).

(** [raw.startswith(prefix)]. *)
Fixpoint startswith (raw prefix : list byte) : bool :=
  match prefix, raw with
  | [], _ => true
  | _ :: _, [] => false
  | p :: prefix', r :: raw' => Byte.eqb r p && startswith raw' prefix'
  end.

(** [range(0, stop, step)] for a positive [step]. *)
Definition range0 (stop step : nat) : list nat :=
  map (fun k => k * step) (seq 0 ((stop + step - 1) / step)).

(** [seq[i:j]] for [0 <= i <= j]. *)
Definition slice {A : Type} (l : list A) (i j : nat) : list A :=
  take (j - i) (drop i l).

(** [seq[-n:]] for [n > 0]: the last [n] elements, or all of them. *)
Definition last_n {A : Type} (n : nat) (l : list A) : list A :=
  drop (length l - n) l.

(** Floats, the float written as the decimal [q], and [float(z)]. *)
Definition float : Type := Qc.
Definition fl (q : Q) : float := Q2Qc q.
Definition float_of_int (z : Z) : float := Q2Qc (inject_Z z).

(** [a < b] and [a >= b] on floats. *)
Definition flt (a b : float) : bool := negb (Qle_bool b a).
Definition fge (a b : float) : bool := Qle_bool b a.

(** [max(a, b)]: the first of the two unless the second is greater. *)
Definition max (a b : float) : float := if flt a b then b else a.

End Py.

Import Py.

(** ** data_parser.py *)

Module DataParser.

Definition HEADER : list byte := [xd2; xd2; xd2].
Definition PAYLOAD_LENGTH : nat := 29.

Record EmgSample : Type := mkEmgSample {
  emg_sequence : Z;
  channels_uv : list float
}.

Record ImuSample : Type := mkImuSample {
  imu_sequence : Z;
  gyro_rads : list float;
  accel_mss : list float;
  remainder : list Z
}.

(** [Union[EmgSample, ImuSample]]. *)
Inductive sample : Type :=
| Emg (s : EmgSample)
| Imu (s : ImuSample).

Definition sequence (s : sample) : Z :=
  match s with
  | Emg e => emg_sequence e
  | Imu i => imu_sequence i
  end.

(** The accumulation loop of [_combine_signed]:
    [value = (value << 8) | byte] for each byte, from [value = 0]. *)
Definition combine_unsigned (bytes_seq : list byte) : Z :=
  fold_left (fun value b => Z.lor (Z.shiftl value 8) (byte_val b)) bytes_seq 0%Z.

Definition _combine_signed (bytes_seq : list byte) (bits : Z) : result Z :=
  let value := combine_unsigned bytes_seq in
  sign_bit <- lshift 1 (bits - 1) ;;
  if negb (Z.land value sign_bit =? 0)%Z
  then (top <- lshift 1 bits ;; Ok (value - top)%Z)
  else Ok value.

(** The [0xAA] loop: one 24-bit group per offset, stopping at a short chunk. *)
Fixpoint emg_loop (payload : list byte) (offsets : list nat) (channels : list float)
  : result (list float) :=
  match offsets with
  | [] => Ok channels
  | offset :: offsets' =>
      let chunk := slice payload offset (offset + 3) in
      if length chunk <? 3 then Ok channels
      else
        value <- _combine_signed chunk 24 ;;
        emg_loop payload offsets' (channels ++ [float_of_int value])
  end.

(** The [0xBB] loop: one 16-bit group per offset, stopping at a short chunk. *)
Fixpoint imu_loop (payload : list byte) (offsets : list nat) (decoded : list Z)
  : result (list Z) :=
  match offsets with
  | [] => Ok decoded
  | offset :: offsets' =>
      let chunk := slice payload offset (offset + 2) in
      if length chunk <? 2 then Ok decoded
      else
        value <- _combine_signed chunk 16 ;;
        imu_loop payload offsets' (decoded ++ [value])
  end.

Definition parse_packet (raw : list byte) : result sample :=
  if negb (length raw =? PAYLOAD_LENGTH)
  then Raise (PacketError (BadLength (length raw)))
  else if negb (startswith raw HEADER)
  then Raise (PacketError MissingHeader)
  else
    packet_type <- index raw 3 ;;
    sequence <- index raw 4 ;;
    let payload := drop 5 raw in
    if (packet_type =? 0xAA)%Z then
      channels <- emg_loop payload (range0 (length payload) 3) [] ;;
      Ok (Emg (mkEmgSample sequence channels))
    else if (packet_type =? 0xBB)%Z then
      decoded <- imu_loop payload (range0 (length payload) 2) [] ;;
      let gyro_rads := map (fun val => (float_of_int val * fl 0.0012)%Qc) (take 3 decoded) in
      let accel_mss := map (fun val => (float_of_int val * fl 0.0005978)%Qc) (slice decoded 3 6) in
      let remainder := drop 6 decoded in
      Ok (Imu (mkImuSample sequence gyro_rads accel_mss remainder))
    else Raise (PacketError (UnknownType packet_type)).

End DataParser.

(** ** buffers.py *)

Module Buffers.

Section RingBuffer.

(** The element type of the array, its zero, and the conversion numpy applies
    when a value is stored into an array of [dtype=np.float32]. *)
Context {V : Type}.
Variable zero : V.
Variable float32 : V -> V.

(** The array [_data] of shape [(channels, capacity)] is kept as the list of
    its [capacity] columns: [_data[:, i]] is the [i]-th element of the list and
    [_data[:, a:b]] a slice of it.  A snapshot of shape [(channels, k)] is the
    list of its [k] columns, each one stored sample. *)
Record EmgRingBuffer : Type := mkEmgRingBuffer {
  channels : nat;
  capacity : nat;
  _data : list (list V);
  _index : nat;
  _filled : bool
}.

Definition init (channels capacity : nat) : EmgRingBuffer :=
  mkEmgRingBuffer channels capacity
    (replicate capacity (replicate channels zero)) 0 false.

(** [append] returns the buffer after the call together with the outcome.
    The column store [_data[:, _index] = values] is numpy's: it raises
    [IndexError] when [_index] is not a column of the array. *)
Definition append (self : EmgRingBuffer) (values : list V)
  : EmgRingBuffer * result unit :=
  if negb (length values =? channels self)
  then (self, Raise ValueError)
  else if capacity self <=? _index self
  then (self, Raise IndexError)
  else
    let data := <[ _index self := map float32 values ]> (_data self) in
    let index := (_index self + 1) mod capacity self in
    let filled := if index =? 0 then true else _filled self in
    (mkEmgRingBuffer (channels self) (capacity self) data index filled, Ok tt).

Definition snapshot (self : EmgRingBuffer) : list (list V) :=
  if negb (_filled self)
  then take (_index self) (_data self)
  else
    let idx := _index self in
    drop idx (_data self) ++ take idx (_data self).

Definition clear (self : EmgRingBuffer) : EmgRingBuffer :=
  mkEmgRingBuffer (channels self) (capacity self)
    (map (map (fun _ => zero)) (_data self)) 0 false.

(** A run of [append] calls, stopping at the first one that raises. *)
Fixpoint append_all (self : EmgRingBuffer) (rows : list (list V))
  : EmgRingBuffer * result unit :=
  match rows with
  | [] => (self, Ok tt)
  | values :: rows' =>
      match append self values with
      | (self', Ok _) => append_all self' rows'
      | (self', Raise e) => (self', Raise e)
      end
  end.

(** Any sequence of [append] calls, the ones that raise included: the buffer
    each call leaves is the buffer of the next. *)
Definition appends (self : EmgRingBuffer) (calls : list (list V)) : EmgRingBuffer :=
  fold_left (fun self values => fst (append self values)) calls self.

(** [holds m c hist self]: [self] is the buffer of [m] channels and capacity
    [c] after the rows [hist] were appended, in that order. *)
Definition holds (m c : nat) (hist : list (list V)) (self : EmgRingBuffer) : Prop :=
  channels self = m /\ capacity self = c /\ length (_data self) = c /\
  _index self = length hist mod c /\
  _filled self = (c <=? length hist) /\
  snapshot self = map (map float32) (last_n c hist).

End RingBuffer.

Arguments EmgRingBuffer V : clear implicits.

End Buffers.

(** ** serial_device.py: the framing loop of [_read_loop] *)

Module SerialDevice.

Definition PACKET_LENGTH : nat := 29.
Definition EXPECTED_HEADER : list byte := [xd2; xd2; xd2].

(** [buffer.find(sub)]: the lowest index at which [sub] occurs; [None] stands
    for Python's [-1]. *)
Fixpoint find (buffer sub : list byte) : option nat :=
  if startswith buffer sub then Some 0
  else
    match buffer with
    | [] => None
    | _ :: buffer' => option_map S (find buffer' sub)
    end.

(** The inner [while len(buffer) >= PACKET_LENGTH] loop.  It returns the
    packets cut out of the buffer ([packet_data], in order) and the buffer left
    for the next read.  Every iteration that does not leave the loop removes
    [PACKET_LENGTH] bytes; [fuel] bounds the number of iterations and [None]
    means that the bound was too small. *)
Fixpoint scan (fuel : nat) (buffer : list byte)
  : option (list (list byte) * list byte) :=
  if length buffer <? PACKET_LENGTH then Some ([], buffer)
  else
    match fuel with
    | O => None
    | S fuel' =>
        match find buffer EXPECTED_HEADER with
        | None =>
            let buffer :=
              if PACKET_LENGTH <? length buffer
              then last_n (PACKET_LENGTH - 1) buffer
              else buffer in
            Some ([], buffer)
        | Some header_pos =>
            let buffer :=
              if 0 <? header_pos then drop header_pos buffer else buffer in
            if length buffer <? PACKET_LENGTH then Some ([], buffer)
            else
              let packet_data := take PACKET_LENGTH buffer in
              let buffer := drop PACKET_LENGTH buffer in
              match scan fuel' buffer with
              | Some (packets, buffer') => Some (packet_data :: packets, buffer')
              | None => None
              end
        end
    end.

(** One pass of the outer loop when bytes are waiting, with [data] read from
    the port: [buffer.extend(data)], then the inner loop. *)
Definition read_pass (buffer data : list byte)
  : option (list (list byte) * list byte) :=
  let buffer := buffer ++ data in
  scan (length buffer) buffer.

(** The passes for a sequence of reads, from accumulator [buffer]. *)
Fixpoint read_all (buffer : list byte) (reads : list (list byte))
  : option (list (list byte) * list byte) :=
  match reads with
  | [] => Some ([], buffer)
  | data :: reads' =>
      match read_pass buffer data with
      | None => None
      | Some (packets, buffer') =>
          match read_all buffer' reads' with
          | None => None
          | Some (packets', buffer'') => Some (packets ++ packets', buffer'')
          end
      end
  end.

(** The samples handed to [on_packet] for the packets cut out by a pass: a
    packet that [parse_packet] rejects with [PacketError] is logged and
    dropped. *)
Definition on_packet_calls (packets : list (list byte)) : list DataParser.sample :=
  omap (fun packet_data =>
          match DataParser.parse_packet packet_data with
          | Ok packet => Some packet
          | Raise _ => None
          end) packets.

End SerialDevice.

(** ** config.py *)

Module Config.

Definition EMG_CHANNELS : nat := 8.
Definition BUFFER_SECONDS : nat := 1.
Definition SAMPLE_RATE_HZ : nat := 200.

End Config.

(** ** ui/main_window.py: calibration and signal-quality levels *)

Module MainWindow.

Import DataParser.

(** The fields of [MainWindow] that [_handle_emg_sample] and
    [_update_channel_indicator] read or write for the signal-quality logic.
    Widgets are left out; [_channel_indicators] is kept as the number of
    indicator widgets, the only thing the logic asks of it.  The history
    buffer stores the floats as they are. *)
Record MainWindow : Type := mkMainWindow {
  _buffer : Buffers.EmgRingBuffer float;
  _packet_count : Z;
  _signal_strength : float;
  _channel_baseline : list float;
  _channel_last_values : list float;
  _channel_current_state : list Z;
  _channel_noise_level : list float;
  _baseline_initialized : bool;
  _initialization_samples : Z;
  _last_baseline_reset : Z;
  _channel_indicators : nat
}.

Definition init : MainWindow := {|
  _buffer := Buffers.init (fl 0) Config.EMG_CHANNELS
               (Config.SAMPLE_RATE_HZ * Config.BUFFER_SECONDS);
  _packet_count := 0;
  _signal_strength := fl 0;
  _channel_baseline := replicate Config.EMG_CHANNELS (fl 0);
  _channel_last_values := replicate Config.EMG_CHANNELS (fl 0);
  _channel_current_state := replicate Config.EMG_CHANNELS 0%Z;
  _channel_noise_level := replicate Config.EMG_CHANNELS (fl 0);
  _baseline_initialized := false;
  _initialization_samples := 500;
  _last_baseline_reset := 0;
  _channel_indicators := Config.EMG_CHANNELS
|}.

Definition set_buffer (self : MainWindow) (b : Buffers.EmgRingBuffer float) : MainWindow :=
  mkMainWindow b (_packet_count self) (_signal_strength self)
    (_channel_baseline self) (_channel_last_values self)
    (_channel_current_state self) (_channel_noise_level self)
    (_baseline_initialized self) (_initialization_samples self)
    (_last_baseline_reset self) (_channel_indicators self).

Definition set_packet_count (self : MainWindow) (n : Z) : MainWindow :=
  mkMainWindow (_buffer self) n (_signal_strength self)
    (_channel_baseline self) (_channel_last_values self)
    (_channel_current_state self) (_channel_noise_level self)
    (_baseline_initialized self) (_initialization_samples self)
    (_last_baseline_reset self) (_channel_indicators self).

Definition set_signal_strength (self : MainWindow) (x : float) : MainWindow :=
  mkMainWindow (_buffer self) (_packet_count self) x
    (_channel_baseline self) (_channel_last_values self)
    (_channel_current_state self) (_channel_noise_level self)
    (_baseline_initialized self) (_initialization_samples self)
    (_last_baseline_reset self) (_channel_indicators self).

Definition set_channel_baseline (self : MainWindow) (l : list float) : MainWindow :=
  mkMainWindow (_buffer self) (_packet_count self) (_signal_strength self)
    l (_channel_last_values self)
    (_channel_current_state self) (_channel_noise_level self)
    (_baseline_initialized self) (_initialization_samples self)
    (_last_baseline_reset self) (_channel_indicators self).

Definition set_channel_last_values (self : MainWindow) (l : list float) : MainWindow :=
  mkMainWindow (_buffer self) (_packet_count self) (_signal_strength self)
    (_channel_baseline self) l
    (_channel_current_state self) (_channel_noise_level self)
    (_baseline_initialized self) (_initialization_samples self)
    (_last_baseline_reset self) (_channel_indicators self).

Definition set_channel_current_state (self : MainWindow) (l : list Z) : MainWindow :=
  mkMainWindow (_buffer self) (_packet_count self) (_signal_strength self)
    (_channel_baseline self) (_channel_last_values self)
    l (_channel_noise_level self)
    (_baseline_initialized self) (_initialization_samples self)
    (_last_baseline_reset self) (_channel_indicators self).

Definition set_channel_noise_level (self : MainWindow) (l : list float) : MainWindow :=
  mkMainWindow (_buffer self) (_packet_count self) (_signal_strength self)
    (_channel_baseline self) (_channel_last_values self)
    (_channel_current_state self) l
    (_baseline_initialized self) (_initialization_samples self)
    (_last_baseline_reset self) (_channel_indicators self).

Definition set_baseline_initialized (self : MainWindow) (b : bool) : MainWindow :=
  mkMainWindow (_buffer self) (_packet_count self) (_signal_strength self)
    (_channel_baseline self) (_channel_last_values self)
    (_channel_current_state self) (_channel_noise_level self)
    b (_initialization_samples self)
    (_last_baseline_reset self) (_channel_indicators self).

Definition set_last_baseline_reset (self : MainWindow) (n : Z) : MainWindow :=
  mkMainWindow (_buffer self) (_packet_count self) (_signal_strength self)
    (_channel_baseline self) (_channel_last_values self)
    (_channel_current_state self) (_channel_noise_level self)
    (_baseline_initialized self) (_initialization_samples self)
    n (_channel_indicators self).

(** [l[i]] on the per-channel lists.  They are created with [EMG_CHANNELS]
    entries and never resized, and every index used is below [EMG_CHANNELS]. *)
Definition getf (l : list float) (i : nat) : float := nth i l (fl 0).
Definition geti (l : list Z) (i : nat) : Z := nth i l 0%Z.

(** The [thresholds] dictionary of [_update_channel_indicator]:
    level -> (falling threshold, rising threshold).  The method reads the
    rising thresholds of levels 0 to 3 only. *)
Definition thresholds (noise_baseline : float) (level : nat) : float * float :=
  match level with
  | 0 => (fl 0, noise_baseline * fl 2.0)
  | 1 => (noise_baseline * fl 1.5, noise_baseline * fl 4.0)
  | 2 => (noise_baseline * fl 3.5, noise_baseline * fl 7.0)
  | 3 => (noise_baseline * fl 6.5, noise_baseline * fl 12.0)
  | _ => (noise_baseline * fl 11.0, fl 999999)
  end%Qc.

(** The level decision of [_update_channel_indicator]: [new_state] from
    [current_state], the channel's noise level and [strength]. *)
Definition new_state_of (noise_level strength : float) (current_state : Z) : Z :=
  let noise_baseline := max noise_level (fl 100) in
  let thresholds := thresholds noise_baseline in
  let new_state := current_state in
  let new_state :=
    if flt strength (snd (thresholds 0)) then 0%Z
    else if flt strength (snd (thresholds 1)) then
      (if (current_state >=? 2)%Z then 1%Z else new_state)
    else if flt strength (snd (thresholds 2)) then
      (if (current_state >=? 3)%Z then 2%Z else new_state)
    else if flt strength (snd (thresholds 3)) then
      (if (current_state >=? 4)%Z then 3%Z else new_state)
    else new_state in
  if (current_state =? 0)%Z && fge strength (snd (thresholds 0)) then 1%Z
  else if (current_state =? 1)%Z && fge strength (snd (thresholds 1)) then 2%Z
  else if (current_state =? 2)%Z && fge strength (snd (thresholds 2)) then 3%Z
  else if (current_state =? 3)%Z && fge strength (snd (thresholds 3)) then 4%Z
  else new_state.

Definition _update_channel_indicator (self : MainWindow) (channel_idx : nat)
  (strength : float) : MainWindow :=
  if _channel_indicators self <=? channel_idx then self
  else
    let current_state := geti (_channel_current_state self) channel_idx in
    let new_state :=
      new_state_of (getf (_channel_noise_level self) channel_idx) strength
        current_state in
    set_channel_current_state self
      (<[ channel_idx := new_state ]> (_channel_current_state self)).

(** The calibration loop [for i, ch_value in enumerate(sample.channels_uv)],
    entered at index [i] with the values still to visit. *)
Fixpoint calibration_loop (i : nat) (values : list float) (self : MainWindow)
  : MainWindow :=
  match values with
  | [] => self
  | ch_value :: values' =>
      let alpha := fl 0.1 in
      let baseline :=
        (alpha * ch_value + (1 - alpha) * getf (_channel_baseline self) i)%Qc in
      let self := set_channel_baseline self
                    (<[ i := baseline ]> (_channel_baseline self)) in
      let self :=
        if (_packet_count self >? 50)%Z then
          let deviation := Qcabs (ch_value - getf (_channel_baseline self) i) in
          let change_rate := Qcabs (ch_value - getf (_channel_last_values self) i) in
          let activity := (deviation * fl 0.7 + change_rate * fl 0.3)%Qc in
          set_channel_noise_level self
            (<[ i := (getf (_channel_noise_level self) i + activity)%Qc ]>
               (_channel_noise_level self))
        else self in
      let self := set_channel_last_values self
                    (<[ i := ch_value ]> (_channel_last_values self)) in
      calibration_loop (S i) values' self
  end.

(** The loop [for i in range(config.EMG_CHANNELS)] that ends a calibration:
    each accumulated noise level is divided by the number of samples. *)
Fixpoint finish_loop (indices : list nat) (self : MainWindow) : MainWindow :=
  match indices with
  | [] => self
  | i :: indices' =>
      let level :=
        (getf (_channel_noise_level self) i
         / float_of_int (_initialization_samples self - 50))%Qc in
      finish_loop indices'
        (set_channel_noise_level self
           (<[ i := level ]> (_channel_noise_level self)))
  end.

(** The steady-state loop over [enumerate(sample.channels_uv)]; it returns the
    window and [channel_activity]. *)
Fixpoint activity_loop (i : nat) (values : list float) (self : MainWindow)
  (channel_activity : list float) : MainWindow * list float :=
  match values with
  | [] => (self, channel_activity)
  | ch_value :: values' =>
      let deviation := Qcabs (ch_value - getf (_channel_baseline self) i) in
      let alpha :=
        if flt deviation (getf (_channel_noise_level self) i * fl 2)%Qc
        then fl 0.02
        else if flt deviation (getf (_channel_noise_level self) i * fl 5)%Qc
        then fl 0.002
        else fl 0.0001 in
      let baseline :=
        (alpha * ch_value + (1 - alpha) * getf (_channel_baseline self) i)%Qc in
      let self := set_channel_baseline self
                    (<[ i := baseline ]> (_channel_baseline self)) in
      let activity := deviation in
      let channel_activity := channel_activity ++ [activity] in
      let self := set_channel_last_values self
                    (<[ i := ch_value ]> (_channel_last_values self)) in
      activity_loop (S i) values' self channel_activity
  end.

(** The loop [for i, activity in enumerate(channel_activity)] that updates the
    indicators. *)
Fixpoint indicator_loop (i : nat) (channel_activity : list float)
  (self : MainWindow) : MainWindow :=
  match channel_activity with
  | [] => self
  | activity :: rest =>
      indicator_loop (S i) rest (_update_channel_indicator self i activity)
  end.

(** [np.mean(channel_activity)]. *)
Definition mean (l : list float) : float :=
  (fold_left Qcplus l (fl 0) / float_of_int (Z.of_nat (length l)))%Qc.

(** [_handle_emg_sample].  A [ValueError] of [self._buffer.append] is caught
    by the handler, which then only logs it; no other error arises from the
    window's buffer, whose capacity is 200.  The recorder, the labels and the
    console output are left out. *)
Definition _handle_emg_sample (self : MainWindow) (sample : EmgSample) : MainWindow :=
  match Buffers.append (fun v => v) (_buffer self) (channels_uv sample) with
  | (_, Raise _) => self
  | (buffer, Ok _) =>
      let self := set_buffer self buffer in
      let self := set_packet_count self (_packet_count self + 1) in
      if negb (_baseline_initialized self)
         && (_packet_count self <=? _initialization_samples self)%Z
      then calibration_loop 0 (channels_uv sample) self
      else
        let self :=
          if negb (_baseline_initialized self) then
            let self := set_baseline_initialized self true in
            let self := finish_loop (seq 0 Config.EMG_CHANNELS) self in
            set_last_baseline_reset self (_packet_count self)
          else self in
        if (_packet_count self - _last_baseline_reset self >? 6000)%Z
           && forallb (fun state => (state =? 0)%Z) (_channel_current_state self)
        then set_packet_count (set_baseline_initialized self false) 0
        else
          let '(self, channel_activity) :=
            activity_loop 0 (channels_uv sample) self [] in
          let self :=
            if (_packet_count self mod 5 =? 0)%Z
            then indicator_loop 0 channel_activity self
            else self in
          set_signal_strength self (mean channel_activity)
  end.

(** Quality updates of channel [channel_idx], one per strength, in order. *)
Definition updates (self : MainWindow) (channel_idx : nat) (strengths : list float)
  : MainWindow :=
  fold_left (fun self strength => _update_channel_indicator self channel_idx strength)
    strengths self.

(** The handler run over a stream of samples. *)
Definition handle_all (self : MainWindow) (samples : list EmgSample) : MainWindow :=
  fold_left _handle_emg_sample samples self.

End MainWindow.

(** ** Notions the statements use *)

Module Spec.

Import DataParser.

(** Bytes read most-significant-first as an unsigned integer. *)
Definition big_endian (bytes_seq : list byte) : Z :=
  fold_left (fun v b => (v * 256 + byte_val b)%Z) bytes_seq 0%Z.

(** The signed reading of the [w]-bit pattern [v]: [v - 2^w] when the top bit,
    bit [w - 1], is set, and [v] otherwise. *)
Definition twos_complement (w v : Z) : Z :=
  if Z.testbit v (w - 1) then (v - 2 ^ w)%Z else v.

(** The signed value of the [k]-th group of [width] bytes of the payload of
    the packet [raw]; the payload starts at byte 5. *)
Definition group_value (raw : list byte) (width k : nat) : Z :=
  twos_complement (8 * Z.of_nat width)
    (big_endian (slice raw (5 + k * width) (5 + k * width + width))).

(** [sub] occurs in [buffer] at index [p]. *)
Definition occurs_at (sub buffer : list byte) (p : nat) : Prop :=
  take (length sub) (drop p buffer) = sub.

(** [frame] is still to come: the accumulator [buffer] followed by the bytes
    not read yet, [rest], ends with [frame], and the header occurs nowhere
    before it. *)
Definition pending (frame buffer rest : list byte) : Prop :=
  exists X, buffer ++ rest = X ++ frame /\
            forall q, q < length X ->
                      ~ occurs_at SerialDevice.EXPECTED_HEADER (X ++ frame) q.

(** A muscle packet with sequence number 1 and an all-zero payload. *)
Definition frame0 : list byte := [xd2; xd2; xd2; xaa; x01] ++ replicate 24 x00.

(** Garbage that holds no header, and a split of it and of [frame0] into
    reads. *)
Definition garbage1 : list byte := [x01; xd2; xd2; x05].
Definition reads1 : list (list byte) :=
  [[x01; xd2]; []; [xd2; x05; xd2]; [xd2; xd2; xaa]; [x01] ++ replicate 20 x00;
   replicate 4 x00].

(** The sum of the activity values of one channel over a calibration phase:
    [values] are the channel's samples from packet number [count] on,
    [baseline] and [last] the channel's baseline and last value before them.
    A sample counts once the packet number is above 50; its activity is
    0.7 x |value - baseline| + 0.3 x |value - previous value|, with the
    baseline as updated by the sample. *)
Fixpoint activity_sum (count : Z) (baseline last : float) (values : list float)
  : float :=
  match values with
  | [] => fl 0
  | value :: values' =>
      let baseline := (fl 0.1 * value + (1 - fl 0.1) * baseline)%Qc in
      let activity :=
        if (count >? 50)%Z
        then (Qcabs (value - baseline) * fl 0.7 + Qcabs (value - last) * fl 0.3)%Qc
        else fl 0 in
      (activity + activity_sum (count + 1) baseline value values')%Qc
  end.

(** The noise floor of a phase of [N] samples: the activity sum divided by
    [N - 50]. *)
Definition phase_noise_floor (N : Z) (baseline last : float) (values : list float)
  : float :=
  (activity_sum 1 baseline last values / float_of_int (N - 50))%Qc.

(** The sample with the value [q] on every channel. *)
Definition constant_sample (q : Q) : EmgSample :=
  mkEmgSample 0 (replicate Config.EMG_CHANNELS (fl q)).

(** A stream that calibrates, idles until the periodic recalibration starts,
    and recalibrates: 499 samples at 0 and one at 1000; 6002 samples at 100
    (the first ends the calibration, the last starts the recalibration); the
    500 samples of the recalibration at 100. *)
Definition first_calibration : list EmgSample :=
  replicate 499 (constant_sample 0) ++ [constant_sample 1000].
Definition idle_run : list EmgSample := replicate 6002 (constant_sample 100).
Definition recalibration : list EmgSample := replicate 500 (constant_sample 100).

Definition after_first_calibration : MainWindow.MainWindow :=
  MainWindow.handle_all MainWindow.init (first_calibration ++ [constant_sample 100]).
Definition at_recalibration : MainWindow.MainWindow :=
  MainWindow.handle_all MainWindow.init (first_calibration ++ idle_run).
Definition after_recalibration : MainWindow.MainWindow :=
  MainWindow.handle_all MainWindow.init
    (first_calibration ++ idle_run ++ recalibration ++ [constant_sample 100]).

(** A window whose calibration has ended with a noise level of 310 on every
    channel: 499 samples at 0, one at 150000, and the sample, at the baseline
    15000, that ends the calibration. *)
Definition calibrated_310 : MainWindow.MainWindow :=
  MainWindow.handle_all MainWindow.init
    (replicate 499 (constant_sample 0)
     ++ [constant_sample 150000; constant_sample 15000]).

End Spec.

Import Spec.

(** ** Notions for the calibration phase *)

Module PhaseSpec.

Import DataParser MainWindow.

(** The effect of one calibration sample [value], at packet number [count],
    on a channel's baseline, last value and accumulated noise level. *)
Definition calibrated (count : Z) (value : float) (c : float * float * float)
  : float * float * float :=
  let '(baseline, last, noise) := c in
  let baseline := (fl 0.1 * value + (1 - fl 0.1) * baseline)%Qc in
  (baseline, value,
   if (count >? 50)%Z
   then (noise + (Qcabs (value - baseline) * fl 0.7 + Qcabs (value - last) * fl 0.3))%Qc
   else noise).

(** A channel's baseline, last value and noise level in a window. *)
Definition channel (self : MainWindow) (i : nat) : float * float * float :=
  (getf (_channel_baseline self) i, getf (_channel_last_values self) i,
   getf (_channel_noise_level self) i).

(** The fields that the per-channel loops leave alone. *)
Definition same_control (self self' : MainWindow) : Prop :=
  _buffer self' = _buffer self /\
  _packet_count self' = _packet_count self /\
  _channel_current_state self' = _channel_current_state self /\
  _baseline_initialized self' = _baseline_initialized self /\
  _initialization_samples self' = _initialization_samples self /\
  _last_baseline_reset self' = _last_baseline_reset self /\
  _channel_indicators self' = _channel_indicators self.

(** The per-channel lists have one entry per EMG channel. *)
Definition sized (self : MainWindow) : Prop :=
  length (_channel_baseline self) = Config.EMG_CHANNELS /\
  length (_channel_last_values self) = Config.EMG_CHANNELS /\
  length (_channel_noise_level self) = Config.EMG_CHANNELS.

(** One pass through the body of the calibration loop, for channel [i]. *)
Definition calibration_body (i : nat) (ch_value : float) (self : MainWindow)
  : MainWindow :=
  calibration_loop i [ch_value] self.

(** The history buffer takes rows of [EMG_CHANNELS] values. *)
Definition buffer_ready (self : MainWindow) : Prop :=
  Buffers.channels (_buffer self) = Config.EMG_CHANNELS /\
  Buffers._index (_buffer self) < Buffers.capacity (_buffer self).

(** A channel after the calibration samples [values], the first of them at
    packet number [count]. *)
Fixpoint calibrated_run (count : Z) (c : float * float * float)
  (values : list float) : float * float * float :=
  match values with
  | [] => c
  | value :: values' => calibrated_run (count + 1) (calibrated count value c) values'
  end.

(** The values of channel [i] in a stream of samples. *)
Definition column (i : nat) (samples : list EmgSample) : list float :=
  map (fun sample => getf (channels_uv sample) i) samples.

End PhaseSpec.

Import PhaseSpec.

(** ** device_manager.py: the notification callback *)

Module DeviceManager.

(** [DeviceManager._handle_notification]: the calls of [on_packet] it makes,
    in order.  A [PacketError] of [parse_packet] is logged and the
    notification dropped; any other exception would leave the callback. *)
Definition _handle_notification (data : list byte) : result (list DataParser.sample) :=
  match DataParser.parse_packet data with
  | Ok packet => Ok [packet]
  | Raise (PacketError _) => Ok []
  | Raise e => Raise e
  end.

End DeviceManager.

(** ** numpy: the store into an array of [dtype=np.float32] *)

Module Numpy.

(** The conversion [_data[:, i] = values] applies to a float whose value is
    the integer [z]: the nearest float with 24 significant bits, the even one
    of two that are equally near.  Magnitudes from [2^128] on, which numpy
    stores as infinities, are not modelled. *)
Definition float32_of_int (z : Z) : Z :=
  let a := Z.abs z in
  let e := (Z.log2 a - 23)%Z in
  if (e <=? 0)%Z then z
  else
    let q := Z.shiftr a e in
    let r := Z.land a (Z.ones e) in
    let half := Z.shiftl 1 (e - 1) in
    let q' :=
      if (r <? half)%Z then q
      else if (half <? r)%Z then (q + 1)%Z
      else if Z.even q then q else (q + 1)%Z in
    (Z.sgn z * Z.shiftl q' e)%Z.

End Numpy.

(** ** Notions for the ring buffer *)

Module BufferSpec.

(** The array keeps its shape: [capacity] columns of [channels] values. *)
Definition shaped {V : Type} (m c : nat) (self : Buffers.EmgRingBuffer V) : Prop :=
  Buffers.channels self = m /\ Buffers.capacity self = c /\
  length (Buffers._data self) = c /\
  Forall (fun col => length col = m) (Buffers._data self).

End BufferSpec.

(** ** Notions for streams of packets *)

Module StreamSpec.

(** A packet as the framing loop cuts it: 29 bytes that start with the
    header. *)
Definition framed (packet : list byte) : Prop :=
  length packet = SerialDevice.PACKET_LENGTH /\
  take 3 packet = SerialDevice.EXPECTED_HEADER.

(** The type byte of a packet is one [parse_packet] decodes. *)
Definition known_type (packet : list byte) : bool :=
  match packet !! 3 with
  | Some b => Byte.eqb b xaa || Byte.eqb b xbb
  | None => false
  end.

(** The sequence number a packet carries, when its type is known. *)
Definition sequence_byte (packet : list byte) : option Z :=
  if known_type packet then option_map byte_val (packet !! 4) else None.

End StreamSpec.

Import StreamSpec.

(** ** simulator.py and sim_device.py: the synthetic source *)

Module Simulator.

Import DataParser.

Section Generators.

(** What the generators take from their environment: [math.pi] and
    [math.sin]; the clock, [monotonic n] being the reading of the [n]-th call
    of [time.monotonic]; and the draws of the random generator, [random i]
    for the [i]-th call of [random.random] and [gauss k idx mu sigma],
    [uniform k idx a b] for the call made for position [idx] while the [k]-th
    sample is built. *)
Variable pi : float.
Variable sin : float -> float.
Variable monotonic : nat -> float.
Variable random : nat -> float.
Variable gauss : nat -> nat -> float -> float -> float.
Variable uniform : nat -> nat -> float -> float -> float.

(** [[random.random() * math.pi for _ in range(8)]]. *)
Definition phase_offsets : list float :=
  map (fun i => (random i * pi)%Qc) (seq 0 8).

(** The loop [for idx, phase in enumerate(phase_offsets)] that builds the
    channels of the [k]-th sample at time [t]. *)
Fixpoint channels_loop (frequency_hz noise_level t : float) (k idx : nat)
  (phases channels : list float) : list float :=
  match phases with
  | [] => channels
  | phase :: phases' =>
      let base := (sin (fl 2 * pi * frequency_hz * t + phase) * fl 150.0)%Qc in
      let noise := gauss k idx (fl 0) noise_level in
      channels_loop frequency_hz noise_level t k (S idx) phases'
        (channels ++ [(base + noise)%Qc])
  end.

(** A generator between two [next] calls: the sequence number of the sample
    it yields next, and the number of samples it has yielded. *)
Record generator : Type := mkGenerator {
  sequence : Z;
  yielded : nat
}.

Definition start : generator := mkGenerator 0 0.

(** [next(emg_gen)] for [emg_waveform_generator(frequency_hz, noise_level)]:
    the sample yielded and the generator after it. *)
Definition emg_next (frequency_hz noise_level : float) (gen : generator)
  : EmgSample * generator :=
  let start := monotonic 0 in
  let t := (monotonic (S (yielded gen)) - start)%Qc in
  let channels :=
    channels_loop frequency_hz noise_level t (yielded gen) 0 phase_offsets [] in
  (mkEmgSample (sequence gen) channels,
   mkGenerator ((sequence gen + 1) mod 256) (S (yielded gen))).

(** [next(imu_gen)] for [imu_waveform_generator()]. *)
Definition imu_next (gen : generator) : ImuSample * generator :=
  let gyro := map (fun i => uniform (yielded gen) i (fl (-1.5)) (fl 1.5)) (seq 0 3) in
  let accel := map (fun i => uniform (yielded gen) (3 + i) (fl (-0.5)) (fl 0.5)) (seq 0 3) in
  let remainder := replicate 6 0%Z in
  (mkImuSample (sequence gen) gyro accel remainder,
   mkGenerator ((sequence gen + 1) mod 256) (S (yielded gen))).

(** [SimulatedDeviceManager._run]: the calls of [on_packet] made by [passes]
    passes of the loop [while self._running], from the generators [emg_gen]
    and [imu_gen] and the counter [imu_counter].  The generators are created
    with their default arguments. *)
Fixpoint run_loop (passes : nat) (emg_gen imu_gen : generator) (imu_counter : Z)
  : list sample :=
  match passes with
  | O => []
  | S passes' =>
      let '(sample, emg_gen) := emg_next (fl 10.0) (fl 25.0) emg_gen in
      let imu_counter := ((imu_counter + 1) mod 20)%Z in
      if (imu_counter =? 0)%Z then
        let '(imu_sample, imu_gen) := imu_next imu_gen in
        Emg sample :: Imu imu_sample :: run_loop passes' emg_gen imu_gen imu_counter
      else
        Emg sample :: run_loop passes' emg_gen imu_gen imu_counter
  end.

Definition _run (passes : nat) : list sample := run_loop passes start start 0.

End Generators.

End Simulator.

(** ** motion_recorder.py: the frames of a recording *)

Module MotionRecorder.

Section Recorder.

(** Camera images and landmark arrays are kept abstract; [float32] is the
    conversion of [np.array(emg_channels, dtype=np.float32)]. *)
Context {Image Landmarks : Type}.
Variable float32 : float -> float.

Record MotionFrame : Type := mkMotionFrame {
  timestamp : float;
  emg_data : list float;
  hand_landmarks : option Landmarks;
  frame_image : option Image
}.

(** [RecordingSession]; the metadata and the gesture label, which
    [add_emg_sample] does not touch, are left out. *)
Record RecordingSession : Type := mkRecordingSession {
  frames : list MotionFrame;
  start_time : float
}.

(** The fields of [MotionRecorder] that [add_emg_sample] reads or writes. *)
Record MotionRecorder : Type := mkMotionRecorder {
  enable_camera : bool;
  recording : bool;
  session : option RecordingSession;
  _cached_frame : option Image;
  _cached_landmarks : option Landmarks
}.

Definition MAX_FULL_IMAGE_FRAMES : nat := 100.

(** [add_emg_sample] at clock reading [now] ([time.time()]): the recorder
    after the call and the value returned.  The frame at index
    [len(frames) - MAX_FULL_IMAGE_FRAMES - 1] is an object of the list, so
    clearing its image updates the list in place. *)
Definition add_emg_sample (self : MotionRecorder) (now : float)
  (emg_channels : list float) : MotionRecorder * bool :=
  match recording self, session self with
  | true, Some sess =>
      let new_timestamp := (now - start_time sess)%Qc in
      let new_image := if enable_camera self then _cached_frame self else None in
      let new_landmarks := if enable_camera self then _cached_landmarks self else None in
      let motion_frame :=
        mkMotionFrame new_timestamp (map float32 emg_channels) new_landmarks new_image in
      let all := frames sess ++ [motion_frame] in
      let all :=
        if MAX_FULL_IMAGE_FRAMES <? length all then
          let k := length all - MAX_FULL_IMAGE_FRAMES - 1 in
          match all !! k with
          | Some old_frame =>
              match frame_image old_frame with
              | Some _ =>
                  <[ k := mkMotionFrame (timestamp old_frame) (emg_data old_frame)
                            (hand_landmarks old_frame) None ]> all
              | None => all
              end
          | None => all
          end
        else all in
      (mkMotionRecorder (enable_camera self) (recording self)
         (Some (mkRecordingSession all (start_time sess)))
         (_cached_frame self) (_cached_landmarks self),
       true)
  | _, _ => (self, false)
  end.

(** What the camera thread leaves in the cache. *)
Definition with_cache (self : MotionRecorder) (frame : option Image)
  (landmarks : option Landmarks) : MotionRecorder :=
  mkMotionRecorder (enable_camera self) (recording self) (session self) frame landmarks.

(** One EMG sample reaching the recorder: the cache as the camera thread
    left it, the clock reading and the channels. *)
Record arrival : Type := mkArrival {
  cached_frame : option Image;
  cached_landmarks : option Landmarks;
  clock : float;
  channels : list float
}.

(** The [add_emg_sample] calls for a run of arrivals. *)
Definition add_all (self : MotionRecorder) (arrivals : list arrival) : MotionRecorder :=
  fold_left
    (fun self a =>
       fst (add_emg_sample (with_cache self (cached_frame a) (cached_landmarks a))
              (clock a) (channels a)))
    arrivals self.

(** The frames of the recorder's session; none without a session. *)
Definition recorded (self : MotionRecorder) : list MotionFrame :=
  match session self with
  | Some sess => frames sess
  | None => []
  end.

(** Only the latest [MAX_FULL_IMAGE_FRAMES] frames may hold an image. *)
Definition trimmed (frames : list MotionFrame) : Prop :=
  forall i frame,
    frames !! i = Some frame -> i + MAX_FULL_IMAGE_FRAMES < length frames ->
    frame_image frame = None.

End Recorder.

Arguments MotionFrame Image Landmarks : clear implicits.
Arguments RecordingSession Image Landmarks : clear implicits.
Arguments MotionRecorder Image Landmarks : clear implicits.
Arguments arrival Image Landmarks : clear implicits.

End MotionRecorder.

(** ** ui/main_window.py: the packet bridge *)

Module Bridge.

Import DataParser MainWindow.

(** [PacketBridge.emit_packet] with the slots that [MainWindow.__init__]
    connects to its two signals: an [EmgSample] goes to [_handle_emg_sample],
    an [ImuSample] to [_handle_imu_sample], which writes the status label and
    no field of the window kept here. *)
Definition emit_packet (self : MainWindow) (packet : sample) : MainWindow :=
  match packet with
  | Emg s => _handle_emg_sample self s
  | Imu _ => self
  end.

(** The packets of a source, delivered in order. *)
Definition deliver (self : MainWindow) (packets : list sample) : MainWindow :=
  fold_left emit_packet packets self.

End Bridge.

(** ** Notions for the synthetic source *)

Module SimSpec.

Import DataParser Simulator.

Section Generators.

Variable pi : float.
Variable sin : float -> float.
Variable monotonic : nat -> float.
Variable random : nat -> float.
Variable gauss : nat -> nat -> float -> float -> float.
Variable uniform : nat -> nat -> float -> float -> float.

(** The [k]-th sample of the EMG generator and the [i]-th sample of the IMU
    generator, counted from 0: their sequence numbers count modulo 256. *)
Definition emg_sample_at (k : nat) : EmgSample :=
  fst (emg_next pi sin monotonic random gauss (fl 10.0) (fl 25.0)
         (mkGenerator (Z.of_nat k mod 256) k)).

Definition imu_sample_at (i : nat) : ImuSample :=
  fst (imu_next uniform (mkGenerator (Z.of_nat i mod 256) i)).

(** What pass [k] of the loop hands to [on_packet]: the [k]-th EMG sample,
    and after every twentieth of them an IMU sample. *)
Definition packets_at (k : nat) : list sample :=
  Emg (emg_sample_at k)
  :: (if S k mod 20 =? 0 then [Imu (imu_sample_at (S k / 20 - 1))] else []).

End Generators.

(** The EMG samples among the packets of a source. *)
Definition emg_samples (packets : list sample) : list EmgSample :=
  omap (fun packet => match packet with Emg s => Some s | Imu _ => None end) packets.

End SimSpec.

(** ** Notions for the sample handler *)

Module HandlerSpec.

Import DataParser MainWindow.

(** A window as [MainWindow.__init__] builds it and the handler keeps it:
    eight entries in every per-channel list, eight indicators, levels between
    0 and 4, a history buffer of eight channels whose write index is a column,
    and a packet count that is not negative. *)
Definition well_formed (self : MainWindow) : Prop :=
  sized self /\
  length (_channel_current_state self) = Config.EMG_CHANNELS /\
  Forall (fun state => (0 <= state <= 4)%Z) (_channel_current_state self) /\
  _channel_indicators self = Config.EMG_CHANNELS /\
  buffer_ready self /\
  (0 <= _packet_count self)%Z.

(** The fields that the steady-state loop leaves alone: all but the
    baselines and the last values. *)
Definition same_but_baselines (self self' : MainWindow) : Prop :=
  same_control self self' /\
  _signal_strength self' = _signal_strength self /\
  _channel_noise_level self' = _channel_noise_level self.

(** The fields that the indicator updates leave alone: all but the levels. *)
Definition same_but_levels (self self' : MainWindow) : Prop :=
  _buffer self' = _buffer self /\
  _packet_count self' = _packet_count self /\
  _signal_strength self' = _signal_strength self /\
  _channel_baseline self' = _channel_baseline self /\
  _channel_last_values self' = _channel_last_values self /\
  _channel_noise_level self' = _channel_noise_level self /\
  _baseline_initialized self' = _baseline_initialized self /\
  _initialization_samples self' = _initialization_samples self /\
  _last_baseline_reset self' = _last_baseline_reset self /\
  _channel_indicators self' = _channel_indicators self.

(** One pass through the body of the steady-state loop, for channel [i]. *)
Definition activity_body (i : nat) (ch_value : float) (self : MainWindow)
  : MainWindow :=
  fst (activity_loop i [ch_value] self []).

(** The baseline of a channel after a steady-state sample [value]: it moves
    towards the value at a rate chosen by the deviation. *)
Definition adapted (noise value baseline : float) : float :=
  let deviation := Qcabs (value - baseline) in
  let alpha :=
    if flt deviation (noise * fl 2)%Qc then fl 0.02
    else if flt deviation (noise * fl 5)%Qc then fl 0.002
    else fl 0.0001 in
  (alpha * value + (1 - alpha) * baseline)%Qc.

(** The deviations of a sample from the baselines of a window. *)
Definition deviations (self : MainWindow) (sample : EmgSample) : list float :=
  map (fun j => Qcabs (getf (channels_uv sample) j - getf (_channel_baseline self) j))
    (seq 0 (length (channels_uv sample))).

(** The periodic recalibration is due at the next packet. *)
Definition recalibration_due (self : MainWindow) : bool :=
  (_packet_count self + 1 - _last_baseline_reset self >? 6000)%Z
  && forallb (fun state => (state =? 0)%Z) (_channel_current_state self).

(** The level whose band holds [strength], by the table of
    [_update_channel_indicator]: below 2 floors level 0, from 2 floors level 1,
    from 4 level 2, from 7 level 3, from 12 level 4. *)
Definition band (noise_baseline strength : float) : Z :=
  if flt strength (noise_baseline * fl 2.0)%Qc then 0%Z
  else if flt strength (noise_baseline * fl 4.0)%Qc then 1%Z
  else if flt strength (noise_baseline * fl 7.0)%Qc then 2%Z
  else if flt strength (noise_baseline * fl 12.0)%Qc then 3%Z
  else 4%Z.

End HandlerSpec.

Import HandlerSpec.

(** ** Concrete inputs *)

Module Inputs.

(** A motion packet with sequence number 2; its twelve groups are 1, -1,
    -32768, 32767, 0, 256 and the six values 0 to 5. *)
Definition imu_frame0 : list byte :=
  [xd2; xd2; xd2; xbb; x02;
   x00; x01; xff; xff; x80; x00; x7f; xff; x00; x00; x01; x00;
   x00; x00; x00; x01; x00; x02; x00; x03; x00; x04; x00; x05].

(** [frame0] and [imu_frame0] back to back, read in four pieces. *)
Definition reads2 : list (list byte) :=
  [take 10 frame0; drop 10 frame0 ++ take 3 imu_frame0; [];
   drop 3 imu_frame0].

(** A sample that carries three values instead of eight. *)
Definition short_sample : DataParser.EmgSample :=
  DataParser.mkEmgSample 7 [fl 1; fl 2; fl 3].

End Inputs.

Import Inputs.

(** * Proofs *)

(** ** Python primitives *)

Module PyFacts.

Lemma startswith_take raw prefix :
  startswith raw prefix = true <-> take (length prefix) raw = prefix.
Proof.
  revert raw. induction prefix as [|p prefix IH]; intros raw; simpl.
  - destruct raw; simpl; split; reflexivity.
  - destruct raw as [|r raw]; simpl; [split; discriminate|].
    rewrite andb_true_iff, IH. split.
    + intros [He Ht]. apply byte_dec_bl in He. congruence.
    + intros H. injection H as -> Ht. split; [apply byte_dec_lb; reflexivity|assumption].
Qed.

End PyFacts.

Import PyFacts.

(** ** data_parser.py *)

Module ParserFacts.

Import DataParser.

Lemma byte_val_bounds b : (0 <= byte_val b < 256)%Z.
Proof. unfold byte_val. pose proof (Byte.to_N_bounded b). lia. Qed.

Lemma byte_val_inj b b' : byte_val b = byte_val b' -> b = b'.
Proof.
  unfold byte_val. intros H. apply N2Z.inj in H.
  pose proof (Byte.of_to_N b) as H1. pose proof (Byte.of_to_N b') as H2.
  rewrite H in H1. congruence.
Qed.

Lemma lor_shiftl_byte v x :
  (0 <= x < 256)%Z -> Z.lor (Z.shiftl v 8) x = (v * 256 + x)%Z.
Proof.
  intros Hx. rewrite Z.shiftl_mul_pow2 by lia. change (2 ^ 8)%Z with 256%Z.
  assert (Hland : Z.land (v * 256) x = 0%Z).
  { apply Z.bits_inj'. intros n Hn. rewrite Z.land_spec, Z.bits_0.
    destruct (Z.ltb_spec n 8).
    - change 256%Z with (2 ^ 8)%Z. rewrite Z.mul_pow2_bits_low by lia. reflexivity.
    - destruct (Z.eq_dec x 0%Z) as [->|Hx0]; [rewrite Z.bits_0; apply andb_false_r|].
      rewrite (Z.bits_above_log2 x n); [apply andb_false_r|lia|].
      apply Z.log2_lt_pow2; [lia|]. 
      apply Z.lt_le_trans with (2 ^ 8)%Z; [simpl; lia|]. apply Z.pow_le_mono_r; lia. }
  rewrite <- Z.lxor_lor, <- Z.add_nocarry_lxor by assumption. reflexivity.
Qed.

Lemma combine_unsigned_big_endian bs : combine_unsigned bs = big_endian bs.
Proof.
  unfold combine_unsigned, big_endian. generalize 0%Z.
  induction bs as [|b bs IH]; intros acc; simpl; [reflexivity|].
  rewrite lor_shiftl_byte by apply byte_val_bounds. apply IH.
Qed.

Lemma land_pow2_testbit v n :
  (0 <= n)%Z -> (Z.land v (2 ^ n) =? 0)%Z = negb (Z.testbit v n).
Proof.
  intros Hn. destruct (Z.testbit v n) eqn:Hb; simpl.
  - apply Z.eqb_neq. intros H0.
    assert (Z.testbit (Z.land v (2 ^ n)) n = true) as Ht.
    { rewrite Z.land_spec, Hb, Z.pow2_bits_true by lia. reflexivity. }
    rewrite H0, Z.bits_0 in Ht. discriminate.
  - apply Z.eqb_eq. apply Z.bits_inj'. intros m Hm.
    rewrite Z.land_spec, Z.bits_0.
    destruct (Z.eq_dec n m) as [<-|Hne]; [rewrite Hb; reflexivity|].
    rewrite Z.pow2_bits_false by lia. apply andb_false_r.
Qed.

Lemma combine_signed_eq bs bits :
  (1 <= bits)%Z ->
  _combine_signed bs bits = Ok (twos_complement bits (big_endian bs)).
Proof.
  intros Hb. unfold _combine_signed, lshift, twos_complement. simpl.
  destruct (Z.ltb_spec (bits - 1) 0); [lia|].
  simpl. rewrite Z.shiftl_1_l, land_pow2_testbit by lia.
  rewrite negb_involutive, combine_unsigned_big_endian.
  destruct (Z.testbit (big_endian bs) (bits - 1)); [|reflexivity].
  destruct (Z.ltb_spec bits 0); [lia|]. simpl. rewrite Z.shiftl_1_l. reflexivity.
Qed.

Lemma big_endian_app bs b :
  big_endian (bs ++ [b]) = (big_endian bs * 256 + byte_val b)%Z.
Proof. unfold big_endian. rewrite fold_left_app. reflexivity. Qed.

Lemma big_endian_bounds bs :
  (0 <= big_endian bs < 2 ^ (8 * Z.of_nat (length bs)))%Z.
Proof.
  induction bs as [|b bs IH] using rev_ind; [cbv; split; congruence|].
  rewrite big_endian_app, length_app. simpl length.
  replace (8 * Z.of_nat (length bs + 1))%Z with (8 * Z.of_nat (length bs) + 8)%Z by lia.
  rewrite Z.pow_add_r by lia. change (2 ^ 8)%Z with 256%Z.
  pose proof (byte_val_bounds b).
  remember (2 ^ (8 * Z.of_nat (length bs)))%Z as P. lia.
Qed.

Lemma testbit_top v w :
  (1 <= w)%Z -> (0 <= v < 2 ^ w)%Z ->
  Z.testbit v (w - 1) = (2 ^ (w - 1) <=? v)%Z.
Proof.
  intros Hw Hv.
  assert (Hp : (2 ^ w = 2 * 2 ^ (w - 1))%Z).
  { replace w with (1 + (w - 1))%Z at 1 by lia. rewrite Z.pow_add_r by lia. reflexivity. }
  assert (Hpos : (0 < 2 ^ (w - 1))%Z) by (apply Z.pow_pos_nonneg; lia).
  destruct (Z.leb_spec (2 ^ (w - 1)) v) as [Hge|Hlt].
  - apply Z.testbit_true; [lia|].
    replace (v / 2 ^ (w - 1))%Z with 1%Z; [reflexivity|].
    apply Z.div_unique with (v - 2 ^ (w - 1))%Z; lia.
  - apply Z.testbit_false; [lia|].
    rewrite Z.div_small by lia. reflexivity.
Qed.

Lemma twos_complement_range w v :
  (1 <= w)%Z -> (0 <= v < 2 ^ w)%Z ->
  (- 2 ^ (w - 1) <= twos_complement w v < 2 ^ (w - 1))%Z /\
  (twos_complement w v mod 2 ^ w = v)%Z.
Proof.
  intros Hw Hv. unfold twos_complement. rewrite testbit_top by assumption.
  assert (Hp : (2 ^ w = 2 * 2 ^ (w - 1))%Z).
  { replace w with (1 + (w - 1))%Z at 1 by lia. rewrite Z.pow_add_r by lia. reflexivity. }
  destruct (Z.leb_spec (2 ^ (w - 1)) v).
  - split; [lia|]. symmetry. apply Z.mod_unique with (-1)%Z; lia.
  - split; [lia|]. apply Z.mod_small; lia.
Qed.

Lemma index_Some raw i b : raw !! i = Some b -> index raw i = Ok (byte_val b).
Proof. unfold index. intros ->. reflexivity. Qed.

Lemma length_slice {A} (l : list A) i j :
  j <= length l -> length (slice l i j) = j - i.
Proof. intros H. unfold slice. rewrite length_take, length_drop. lia. Qed.

Lemma slice_drop {A} (l : list A) n i j :
  slice (drop n l) i j = slice l (n + i) (n + j).
Proof. unfold slice. rewrite drop_drop. f_equal. lia. Qed.

Lemma emg_loop_total payload offsets channels :
  exists channels', emg_loop payload offsets channels = Ok channels'.
Proof.
  revert channels. induction offsets as [|offset offsets IH]; intros channels; simpl.
  - eauto.
  - destruct (length (slice payload offset (offset + 3)) <? 3); [eauto|].
    rewrite combine_signed_eq by lia. simpl. apply IH.
Qed.

Lemma imu_loop_total payload offsets decoded :
  exists decoded', imu_loop payload offsets decoded = Ok decoded'.
Proof.
  revert decoded. induction offsets as [|offset offsets IH]; intros decoded; simpl.
  - eauto.
  - destruct (length (slice payload offset (offset + 2)) <? 2); [eauto|].
    rewrite combine_signed_eq by lia. simpl. apply IH.
Qed.

Lemma emg_loop_groups raw n a channels :
  (a + n) * 3 <= length (drop 5 raw) ->
  emg_loop (drop 5 raw) (map (fun k => k * 3) (seq a n)) channels =
  Ok (channels ++ map (fun k => float_of_int (group_value raw 3 k)) (seq a n)).
Proof.
  revert a channels. induction n as [|n IH]; intros a channels Hlen; simpl.
  - rewrite app_nil_r. reflexivity.
  - rewrite length_slice by lia.
    replace (a * 3 + 3 - a * 3) with 3 by lia. simpl.
    rewrite combine_signed_eq by lia. simpl.
    rewrite IH by lia. rewrite <- app_assoc. simpl.
    unfold group_value. rewrite slice_drop. reflexivity.
Qed.

Lemma imu_loop_groups raw n a decoded :
  (a + n) * 2 <= length (drop 5 raw) ->
  imu_loop (drop 5 raw) (map (fun k => k * 2) (seq a n)) decoded =
  Ok (decoded ++ map (fun k => group_value raw 2 k) (seq a n)).
Proof.
  revert a decoded. induction n as [|n IH]; intros a decoded Hlen; simpl.
  - rewrite app_nil_r. reflexivity.
  - rewrite length_slice by lia.
    replace (a * 2 + 2 - a * 2) with 2 by lia. simpl.
    rewrite combine_signed_eq by lia. simpl.
    rewrite IH by lia. rewrite <- app_assoc. simpl.
    unfold group_value. rewrite slice_drop. reflexivity.
Qed.

(** What [parse_packet] returns for a packet of the right length and header
    whose type byte is [0xAA]. *)
Lemma parse_packet_emg raw sq :
  length raw = 29 -> take 3 raw = HEADER ->
  raw !! 3 = Some xaa -> raw !! 4 = Some sq ->
  parse_packet raw =
  Ok (Emg (mkEmgSample (byte_val sq)
             (map (fun k => float_of_int (group_value raw 3 k)) (seq 0 8)))).
Proof.
  intros Hlen Hhd H3 H4. unfold parse_packet.
  rewrite Hlen. simpl negb.
  assert (startswith raw HEADER = true) as -> by (apply startswith_take; exact Hhd).
  simpl negb. cbv iota.
  rewrite (index_Some _ _ _ H3), (index_Some _ _ _ H4). simpl bind.
  change (byte_val xaa =? 170)%Z with true. cbv iota.
  rewrite length_drop, Hlen.
  change (range0 (29 - 5) 3) with (map (fun k => k * 3) (seq 0 8)).
  rewrite emg_loop_groups by (rewrite length_drop; lia). reflexivity.
Qed.

Lemma parse_packet_imu raw sq :
  length raw = 29 -> take 3 raw = HEADER ->
  raw !! 3 = Some xbb -> raw !! 4 = Some sq ->
  parse_packet raw =
  Ok (Imu (mkImuSample (byte_val sq)
             (map (fun k => (float_of_int (group_value raw 2 k) * fl 0.0012)%Qc) (seq 0 3))
             (map (fun k => (float_of_int (group_value raw 2 k) * fl 0.0005978)%Qc) (seq 3 3))
             (map (group_value raw 2) (seq 6 6)))).
Proof.
  intros Hlen Hhd H3 H4. unfold parse_packet.
  rewrite Hlen. simpl negb.
  assert (startswith raw HEADER = true) as -> by (apply startswith_take; exact Hhd).
  simpl negb. cbv iota.
  rewrite (index_Some _ _ _ H3), (index_Some _ _ _ H4). simpl bind.
  change (byte_val xbb =? 170)%Z with false.
  change (byte_val xbb =? 187)%Z with true. cbv iota.
  rewrite length_drop, Hlen.
  change (range0 (29 - 5) 2) with (map (fun k => k * 2) (seq 0 12)).
  rewrite imu_loop_groups by (rewrite length_drop; lia). reflexivity.
Qed.

(** Every call of [parse_packet] falls in one of five cases. *)
Lemma parse_packet_cases raw :
  (length raw <> 29 /\
   parse_packet raw = Raise (PacketError (BadLength (length raw)))) \/
  (length raw = 29 /\ take 3 raw <> HEADER /\
   parse_packet raw = Raise (PacketError MissingHeader)) \/
  (length raw = 29 /\ take 3 raw = HEADER /\
   exists b3 sq, raw !! 3 = Some b3 /\ raw !! 4 = Some sq /\
     ((b3 = xaa /\ exists s, parse_packet raw = Ok (Emg s) /\
          emg_sequence s = byte_val sq /\
          channels_uv s =
            map (fun k => float_of_int (group_value raw 3 k)) (seq 0 8)) \/
      (b3 = xbb /\ exists s, parse_packet raw = Ok (Imu s) /\
          imu_sequence s = byte_val sq) \/
      (b3 <> xaa /\ b3 <> xbb /\
       parse_packet raw = Raise (PacketError (UnknownType (byte_val b3)))))).
Proof.
  destruct (Nat.eq_dec (length raw) 29) as [Hlen|Hlen].
  2:{ left. split; [assumption|]. unfold parse_packet.
      apply Nat.eqb_neq in Hlen. unfold PAYLOAD_LENGTH. rewrite Hlen. reflexivity. }
  right. destruct (startswith raw HEADER) eqn:Hhd.
  2:{ left. split; [assumption|]. split.
      - intros H. apply (startswith_take raw HEADER) in H. congruence.
      - unfold parse_packet. rewrite Hlen, Hhd. reflexivity. }
  right. apply startswith_take in Hhd. simpl length in Hhd.
  split; [assumption|]. split; [assumption|].
  destruct (lookup_lt_is_Some_2 raw 3) as [b3 H3]; [lia|].
  destruct (lookup_lt_is_Some_2 raw 4) as [sq H4]; [lia|].
  exists b3, sq. split; [assumption|]. split; [assumption|].
  destruct (byte_eq_dec b3 xaa) as [->|Haa].
  { left. split; [reflexivity|]. eexists. split.
    - apply parse_packet_emg; eassumption.
    - split; reflexivity. }
  destruct (byte_eq_dec b3 xbb) as [->|Hbb].
  { right. left. split; [reflexivity|]. eexists. split.
    - apply parse_packet_imu; eassumption.
    - reflexivity. }
  right. right. split; [assumption|]. split; [assumption|].
  unfold parse_packet. rewrite Hlen. simpl negb.
  assert (startswith raw HEADER = true) as -> by (apply startswith_take; exact Hhd).
  simpl negb. cbv iota.
  rewrite (index_Some _ _ _ H3), (index_Some _ _ _ H4). simpl bind.
  assert ((byte_val b3 =? 170)%Z = false) as ->.
  { apply Z.eqb_neq. intros H. apply Haa. apply byte_val_inj. exact H. }
  assert ((byte_val b3 =? 187)%Z = false) as ->.
  { apply Z.eqb_neq. intros H. apply Hbb. apply byte_val_inj. exact H. }
  reflexivity.
Qed.

(** C3.  [parse_packet raw] raises [PacketError] exactly when [raw] has not 29
    bytes, or does not start with the header [D2 D2 D2], or has a type byte
    [raw[3]] that is neither [0xAA] nor [0xBB].  On every other input it
    returns an [EmgSample] when [raw[3]] is [0xAA] and an [ImuSample] when it
    is [0xBB], and the sample's [sequence] is [raw[4]]. *)
Theorem parse_packet_raises_iff (raw : list byte) :
  ((exists why, parse_packet raw = Raise (PacketError why)) <->
   (length raw <> 29 \/ take 3 raw <> HEADER \/
    (raw !! 3 <> Some xaa /\ raw !! 3 <> Some xbb))) /\
  (forall sq, length raw = 29 -> take 3 raw = HEADER -> raw !! 4 = Some sq ->
     (raw !! 3 = Some xaa ->
      exists s, parse_packet raw = Ok (Emg s) /\ sequence (Emg s) = byte_val sq) /\
     (raw !! 3 = Some xbb ->
      exists s, parse_packet raw = Ok (Imu s) /\ sequence (Imu s) = byte_val sq)).
Proof.
  destruct (parse_packet_cases raw) as
    [[Hlen Hp]|[[Hlen [Hhd Hp]]|[Hlen [Hhd [b3 [sq' [H3 [H4 Hc]]]]]]]].
  - split; [|intros; congruence].
    split; [intros _; left; assumption|intros _; eauto].
  - split; [|intros; congruence].
    split; [intros _; right; left; assumption|intros _; eauto].
  - destruct Hc as [[-> [s [Hp [Hs _]]]]|[[-> [s [Hp Hs]]]|[Haa [Hbb Hp]]]].
    + split.
      * split; [intros [why Hr]; congruence|].
        intros [H|[H|[H _]]]; congruence.
      * intros sq _ _ Hsq. rewrite H4 in Hsq. injection Hsq as <-.
        split; [intros _; eauto|intros H; rewrite H3 in H; discriminate].
    + split.
      * split; [intros [why Hr]; congruence|].
        intros [H|[H|[_ H]]]; congruence.
      * intros sq _ _ Hsq. rewrite H4 in Hsq. injection Hsq as <-.
        split; [intros H; rewrite H3 in H; discriminate|intros _; eauto].
    + split.
      * split; [|intros _; eauto].
        intros _. right. right. rewrite H3. split; congruence.
      * intros sq _ _ _. rewrite H3. split; intros H; congruence.
Qed.

(** C10.  [parse_packet] is total and [PacketError] is its only failure: on
    every byte string it returns a sample or raises [PacketError]; no index is
    out of range and no shift count is negative.  [_combine_signed] itself
    never raises at the two widths the parser uses. *)
Theorem parse_packet_total (raw : list byte) :
  ((exists s, parse_packet raw = Ok s) \/
   (exists why, parse_packet raw = Raise (PacketError why))) /\
  (forall bytes_seq, exists v, _combine_signed bytes_seq 24 = Ok v) /\
  (forall bytes_seq, exists v, _combine_signed bytes_seq 16 = Ok v).
Proof.
  split; [|split; intros bs; rewrite combine_signed_eq by lia; eauto].
  destruct (parse_packet_cases raw) as
    [[_ Hp]|[[_ [_ Hp]]|[_ [_ [b3 [sq [_ [_ Hc]]]]]]]]; [eauto|eauto|].
  destruct Hc as [[_ [s [Hp _]]]|[[_ [s [Hp _]]]|[_ [_ Hp]]]]; eauto.
Qed.

(** C4.  Signed decoding is two's complement at both widths: two bytes read
    most-significant-first as [v] decode at width 16, and three bytes at width
    24, to [v - 2^w] when bit [w - 1] of [v] is set and to [v] otherwise, a
    value of the signed range of the width that is [v] modulo [2^w].  In a
    muscle packet the group [80 00 00] decodes to -8388608 and the group
    [7F FF FF] to 8388607. *)
Theorem combine_signed_twos_complement :
  (forall b0 b1 : byte,
     let v := (byte_val b0 * 2 ^ 8 + byte_val b1)%Z in
     _combine_signed [b0; b1] 16 = Ok (twos_complement 16 v) /\
     (- 2 ^ 15 <= twos_complement 16 v < 2 ^ 15)%Z /\
     (twos_complement 16 v mod 2 ^ 16 = v)%Z) /\
  (forall b0 b1 b2 : byte,
     let v := (byte_val b0 * 2 ^ 16 + byte_val b1 * 2 ^ 8 + byte_val b2)%Z in
     _combine_signed [b0; b1; b2] 24 = Ok (twos_complement 24 v) /\
     (- 2 ^ 23 <= twos_complement 24 v < 2 ^ 23)%Z /\
     (twos_complement 24 v mod 2 ^ 24 = v)%Z) /\
  (forall raw s k,
     parse_packet raw = Ok (Emg s) -> k < 8 ->
     (slice raw (5 + k * 3) (5 + k * 3 + 3) = [x80; x00; x00] ->
      channels_uv s !! k = Some (float_of_int (-8388608))) /\
     (slice raw (5 + k * 3) (5 + k * 3 + 3) = [x7f; xff; xff] ->
      channels_uv s !! k = Some (float_of_int 8388607))).
Proof.
  split; [|split].
  - intros b0 b1 v.
    assert (Hv : big_endian [b0; b1] = v) by (unfold big_endian, v; simpl; lia).
    pose proof (big_endian_bounds [b0; b1]) as Hb. rewrite Hv in Hb. simpl in Hb.
    split; [rewrite combine_signed_eq, Hv by lia; reflexivity|].
    apply (twos_complement_range 16 v); [lia|exact Hb].
  - intros b0 b1 b2 v.
    assert (Hv : big_endian [b0; b1; b2] = v) by (unfold big_endian, v; simpl; lia).
    pose proof (big_endian_bounds [b0; b1; b2]) as Hb. rewrite Hv in Hb. simpl in Hb.
    split; [rewrite combine_signed_eq, Hv by lia; reflexivity|].
    apply (twos_complement_range 24 v); [lia|exact Hb].
  - intros raw s k Hp Hk.
    assert (Hch : channels_uv s =
                  map (fun k => float_of_int (group_value raw 3 k)) (seq 0 8)).
    { destruct (parse_packet_cases raw) as
        [[_ Hr]|[[_ [_ Hr]]|[_ [_ [b3 [sq [_ [_ Hc]]]]]]]]; try congruence.
      destruct Hc as [[_ [s' [Hp' [_ Hs]]]]|[[_ [s' [Hp' _]]]|[_ [_ Hr]]]];
        congruence. }
    assert (Hk' : channels_uv s !! k = Some (float_of_int (group_value raw 3 k))).
    { rewrite Hch. rewrite list_lookup_fmap.
      assert (seq 0 8 !! k = Some k) as -> by (apply lookup_seq; lia).
      reflexivity. }
    rewrite Hk'. unfold group_value.
    split; intros ->; reflexivity.
Qed.

End ParserFacts.

(** ** buffers.py *)

Module BuffersFacts.
Import Buffers.

Section RingBuffer.

Context {V : Type}.
Variable zero : V.
Variable float32 : V -> V.

Local Abbreviation append := (append float32).
Local Abbreviation append_all := (append_all float32).
Local Abbreviation holds := (holds float32).

Lemma last_n_short {A} c (l : list A) : length l <= c -> last_n c l = l.
Proof. intros H. unfold last_n. replace (length l - c) with 0 by lia. reflexivity. Qed.

Lemma last_n_snoc_full {A} c (l : list A) x :
  1 <= c -> c <= length l -> last_n c (l ++ [x]) = drop 1 (last_n c l) ++ [x].
Proof.
  intros Hc Hl. unfold last_n. rewrite length_app. simpl length.
  rewrite drop_drop, drop_app_le by lia. f_equal. f_equal. lia.
Qed.

Lemma length_last_n {A} c (l : list A) : length (last_n c l) = min (length l) c.
Proof. unfold last_n. rewrite length_drop. lia. Qed.

Lemma init_holds m c : 1 <= c -> holds m c [] (init zero m c).
Proof.
  intros Hc. unfold holds, init, snapshot. simpl.
  rewrite length_replicate, Nat.Div0.mod_0_l.
  repeat split; try reflexivity.
  destruct (Nat.leb_spec c 0); [lia|reflexivity].
Qed.

Lemma append_holds m c hist self values :
  1 <= c -> holds m c hist self -> length values = m ->
  exists self', append self values = (self', Ok tt) /\
                holds m c (hist ++ [values]) self'.
Proof.
  intros Hc (Hm & Hcap & Hlen & Hidx & Hfill & Hsnap) Hv.
  assert (Hlt : _index self < c) by (rewrite Hidx; apply Nat.mod_upper_bound; lia).
  unfold append. rewrite Hv, Hm, Nat.eqb_refl. simpl negb. cbv iota.
  rewrite Hcap. destruct (Nat.leb_spec c (_index self)) as [?|_]; [lia|].
  eexists. split; [reflexivity|].
  destruct (lookup_lt_is_Some_2 (_data self) (_index self)) as [d Hd]; [lia|].
  pose proof (take_drop_middle _ _ _ Hd) as Hmid.
  set (A := take (_index self) (_data self)) in *.
  set (B := drop (S (_index self)) (_data self)) in *.
  assert (HA : length A = _index self) by (unfold A; rewrite length_take; lia).
  assert (HB : length B = c - S (_index self)) by (unfold B; rewrite length_drop; lia).
  assert (Hins : <[_index self := map float32 values]> (_data self)
                 = A ++ map float32 values :: B).
  { rewrite <- Hmid at 1. rewrite <- HA at 1.
    rewrite insert_app_r_alt by lia. rewrite Nat.sub_diag. reflexivity. }
  assert (Hnext : (_index self + 1) mod c = (length hist + 1) mod c).
  { rewrite Hidx. apply Nat.Div0.add_mod_idemp_l. }
  unfold holds. simpl.
  split; [reflexivity|]. split; [reflexivity|].
  split; [rewrite length_insert; lia|].
  split; [rewrite length_app; simpl length; exact Hnext|].
  rewrite length_app. simpl length.
  unfold snapshot in Hsnap |- *. simpl. rewrite Hins.
  assert (Hdrop : drop (_index self) (_data self) = d :: B)
    by (apply drop_S; exact Hd).
  rewrite Hdrop in Hsnap. fold A in Hsnap.
  assert (Htake : take (_index self + 1) (A ++ map float32 values :: B)
                  = A ++ [map float32 values]).
  { rewrite (cons_middle _ A B), app_assoc.
    replace (_index self + 1) with (length (A ++ [map float32 values]))
      by (rewrite length_app; simpl; lia).
    rewrite take_app_length. reflexivity. }
  assert (Hdrop' : drop (_index self + 1) (A ++ map float32 values :: B) = B).
  { rewrite (cons_middle _ A B), app_assoc.
    replace (_index self + 1) with (length (A ++ [map float32 values]))
      by (rewrite length_app; simpl; lia).
    rewrite drop_app_length. reflexivity. }
  destruct (_filled self) eqn:Hf; simpl in Hsnap.
  - (* the buffer had wrapped *)
    symmetry in Hfill. apply Nat.leb_le in Hfill.
    replace (if (_index self + 1) mod c =? 0 then true else true) with true
      by (destruct ((_index self + 1) mod c =? 0); reflexivity).
    split; [symmetry; apply Nat.leb_le; lia|].
    simpl negb. cbv iota.
    rewrite last_n_snoc_full by lia.
    rewrite map_app, <- skipn_map, <- Hsnap. simpl.
    rewrite drop_0.
    destruct (Nat.eq_dec (_index self + 1) c) as [He|Hne].
    + rewrite He, Nat.Div0.mod_same. simpl.
      assert (B = []) as -> by (apply length_zero_iff_nil; lia).
      rewrite drop_0, app_nil_r. reflexivity.
    + rewrite Nat.mod_small by lia.
      rewrite Htake, Hdrop'. rewrite app_assoc. reflexivity.
  - (* the buffer had not wrapped yet *)
    symmetry in Hfill. apply Nat.leb_gt in Hfill.
    rewrite Nat.mod_small in Hidx by lia.
    rewrite last_n_short in Hsnap by lia.
    rewrite last_n_short by (rewrite length_app; simpl; lia).
    rewrite map_app. simpl map. rewrite <- Hsnap.
    destruct (Nat.eq_dec (_index self + 1) c) as [He|Hne].
    + rewrite He, Nat.Div0.mod_same. simpl.
      split; [symmetry; apply Nat.leb_le; lia|].
      assert (B = []) as -> by (apply length_zero_iff_nil; lia).
      rewrite drop_0, take_0, app_nil_r. reflexivity.
    + rewrite Nat.mod_small by lia.
      replace (_index self + 1 =? 0) with false by (symmetry; apply Nat.eqb_neq; lia).
      split; [symmetry; apply Nat.leb_gt; lia|].
      simpl negb. cbv iota. exact Htake.
Qed.

Lemma append_all_holds m c rows : forall hist self,
  1 <= c -> holds m c hist self -> Forall (fun r => length r = m) rows ->
  exists self', append_all self rows = (self', Ok tt) /\
                holds m c (hist ++ rows) self'.
Proof.
  induction rows as [|values rows IH]; intros hist self Hc Hh Hrows; simpl.
  - exists self. rewrite app_nil_r. split; [reflexivity|assumption].
  - apply Forall_cons in Hrows as [Hv Hrows].
    destruct (append_holds m c hist self values Hc Hh Hv) as [self1 [-> Hh1]].
    destruct (IH (hist ++ [values]) self1 Hc Hh1 Hrows) as [self' [Hrun Hh']].
    exists self'. rewrite (cons_middle values hist rows), app_assoc.
    split; assumption.
Qed.

(** C5.  After [n] rows of [m] values each are appended to a fresh buffer of
    capacity [c >= 1], every append succeeds and [snapshot] returns the last
    [min n c] rows, oldest first, as they are stored (each value converted by
    the array's [float32] store); with [c] or more rows appended these are
    exactly the last [c].  When the store keeps every appended value as it
    is, the snapshot is the last [min n c] appended rows themselves. *)
Theorem snapshot_last_rows (m c : nat) (rows : list (list V)) :
  1 <= c -> Forall (fun r => length r = m) rows ->
  exists self,
    append_all (init zero m c) rows = (self, Ok tt) /\
    snapshot self = map (map float32) (drop (length rows - c) rows) /\
    length (snapshot self) = min (length rows) c /\
    (c <= length rows -> length (snapshot self) = c) /\
    (Forall (Forall (fun v => float32 v = v)) rows ->
     snapshot self = drop (length rows - c) rows).
Proof.
  intros Hc Hrows.
  destruct (append_all_holds m c rows [] (init zero m c) Hc (init_holds m c Hc) Hrows)
    as [self [Hrun Hh]].
  exists self. split; [exact Hrun|].
  destruct Hh as (_ & _ & _ & _ & _ & Hsnap). simpl in Hsnap.
  unfold last_n in Hsnap.
  split; [exact Hsnap|].
  rewrite Hsnap, length_map, length_drop. split; [lia|]. split; [lia|].
  intros Hexact. rewrite <- (map_id (drop (length rows - c) rows)) at 2.
  apply map_ext_Forall. apply Forall_drop.
  eapply Forall_impl; [exact Hexact|]. intros row Hrow. simpl in Hrow.
  rewrite <- (map_id row) at 2. apply map_ext_Forall. exact Hrow.
Qed.

Lemma append_keeps_index m c self values :
  1 <= c ->
  channels self = m /\ capacity self = c /\ _index self < c ->
  channels (fst (append self values)) = m /\
  capacity (fst (append self values)) = c /\
  _index (fst (append self values)) < c.
Proof.
  intros Hc (Hm & Hcap & Hidx). unfold append.
  destruct (negb (length values =? channels self)); [simpl; auto|].
  destruct (capacity self <=? _index self); [simpl; auto|].
  simpl. rewrite Hcap. repeat split; try assumption.
  apply Nat.mod_upper_bound. lia.
Qed.

Lemma appends_keep_index m c calls : forall self,
  1 <= c ->
  channels self = m /\ capacity self = c /\ _index self < c ->
  channels (appends float32 self calls) = m /\
  capacity (appends float32 self calls) = c /\
  _index (appends float32 self calls) < c.
Proof.
  induction calls as [|values calls IH]; intros self Hc Hself; simpl.
  - exact Hself.
  - apply IH; [exact Hc|]. apply append_keeps_index; assumption.
Qed.

(** C9.  On a buffer of [m] channels and capacity [c >= 1], after any calls,
    [append values] raises exactly when [len(values)] is not the channel
    count; the error is [ValueError] and the buffer is left as it was: the
    stored data, the write index and the filled flag keep their values. *)
Theorem append_raises_iff (m c : nat) (calls : list (list V)) (values : list V) :
  1 <= c ->
  channels (appends float32 (init zero m c) calls) = m /\
  ((exists e, snd (append (appends float32 (init zero m c) calls) values) = Raise e)
   <-> length values <> m) /\
  (forall e,
     snd (append (appends float32 (init zero m c) calls) values) = Raise e ->
     e = ValueError /\
     fst (append (appends float32 (init zero m c) calls) values)
     = appends float32 (init zero m c) calls).
Proof.
  intros Hc.
  destruct (appends_keep_index m c calls (init zero m c) Hc) as (Hm & Hcap & Hidx).
  { simpl. repeat split; lia. }
  set (self := appends float32 (init zero m c) calls) in *.
  split; [exact Hm|].
  unfold append. rewrite Hm, Hcap.
  destruct (Nat.eqb_spec (length values) m) as [He|Hne]; simpl negb; cbv iota.
  - destruct (Nat.leb_spec c (_index self)) as [?|_]; [lia|]. simpl.
    split; [split; [intros [e H]; discriminate|intros H; contradiction]|].
    intros e H. discriminate.
  - simpl. split; [split; [intros _; exact Hne|intros _; eauto]|].
    intros e H. injection H as <-. split; reflexivity.
Qed.

End RingBuffer.

Lemma snapshot_last_rows_witness :
  exists self,
    Buffers.append_all (fun v : Z => v) (Buffers.init 0%Z 2 3)
      [[1; 2]; [3; 4]; [5; 6]; [7; 8]; [9; 10]]%Z = (self, Ok tt) /\
    Buffers.snapshot self
    = map (map (fun v : Z => v))
        (drop (5 - 3) [[1; 2]; [3; 4]; [5; 6]; [7; 8]; [9; 10]]%Z) /\
    length (Buffers.snapshot self) = min 5 3 /\
    (3 <= 5 -> length (Buffers.snapshot self) = 3) /\
    (Forall (Forall (fun v => (fun v : Z => v) v = v))
       [[1; 2]; [3; 4]; [5; 6]; [7; 8]; [9; 10]]%Z ->
     Buffers.snapshot self = drop (5 - 3) [[1; 2]; [3; 4]; [5; 6]; [7; 8]; [9; 10]]%Z).
Proof.
  apply (snapshot_last_rows 0%Z (fun v : Z => v) 2 3
           [[1; 2]; [3; 4]; [5; 6]; [7; 8]; [9; 10]]%Z).
  - lia.
  - repeat constructor.
Defined.

Lemma append_raises_iff_witness :
  Buffers.channels (Buffers.appends (fun v : Z => v) (Buffers.init 0%Z 2 3) [[1; 2]; [3]]%Z) = 2 /\
  ((exists e, snd (Buffers.append (fun v : Z => v)
                     (Buffers.appends (fun v : Z => v) (Buffers.init 0%Z 2 3) [[1; 2]; [3]]%Z)
                     [7]%Z) = Raise e)
   <-> length [7%Z] <> 2) /\
  (forall e,
     snd (Buffers.append (fun v : Z => v)
            (Buffers.appends (fun v : Z => v) (Buffers.init 0%Z 2 3) [[1; 2]; [3]]%Z)
            [7]%Z) = Raise e ->
     e = ValueError /\
     fst (Buffers.append (fun v : Z => v)
            (Buffers.appends (fun v : Z => v) (Buffers.init 0%Z 2 3) [[1; 2]; [3]]%Z)
            [7]%Z)
     = Buffers.appends (fun v : Z => v) (Buffers.init 0%Z 2 3) [[1; 2]; [3]]%Z).
Proof.
  apply (append_raises_iff 0%Z (fun v : Z => v) 2 3 [[1; 2]; [3]]%Z [7]%Z).
  lia.
Defined.

(** The [float32] store keeps every integer of at most 24 bits, the decoded
    microvolt values among them, as it is. *)
Lemma float32_of_int_exact (z : Z) :
  (Z.abs z <= 2 ^ 24)%Z -> Numpy.float32_of_int z = z.
Proof.
  intros Hz. unfold Numpy.float32_of_int. cbv zeta.
  destruct (Z.leb_spec (Z.log2 (Z.abs z) - 23) 0) as [_|He]; [reflexivity|].
  assert (Ha : Z.abs z = (2 ^ 24)%Z).
  { destruct (Z.lt_ge_cases (Z.abs z) (2 ^ 24)) as [Hlt|Hge]; [|lia].
    destruct (Z.eq_dec (Z.abs z) 0%Z) as [H0|Hn0].
    - rewrite H0 in He. simpl in He. lia.
    - assert (Z.log2 (Z.abs z) < 24)%Z by (apply Z.log2_lt_pow2; lia). lia. }
  destruct (Z.abs_eq_or_opp z) as [Hp|Hp]; rewrite Hp in Ha.
  - rewrite Ha. reflexivity.
  - replace z with (- 2 ^ 24)%Z by lia. reflexivity.
Qed.

(** C5 as stated fails on a value that [float32] does not represent.  Into a
    fresh buffer of 2 channels and capacity 3 the rows [16777217.0, 0.0] and
    [3.0, 4.0] are appended; 16777217 = 2^24 + 1 needs 25 significant bits.
    Both appends succeed, and [snapshot] returns [16777216.0, 0.0] and
    [3.0, 4.0]: two rows, oldest first, the first of them not the row that was
    appended. *)
Lemma snapshot_rounds_stored_values :
  Forall (fun r => length r = 2) [[16777217; 0]; [3; 4]]%Z /\
  snd (Buffers.append_all Numpy.float32_of_int (Buffers.init 0%Z 2 3)
         [[16777217; 0]; [3; 4]]%Z) = Ok tt /\
  Buffers.snapshot
    (fst (Buffers.append_all Numpy.float32_of_int (Buffers.init 0%Z 2 3)
            [[16777217; 0]; [3; 4]]%Z))
  = [[16777216; 0]; [3; 4]]%Z /\
  Buffers.snapshot
    (fst (Buffers.append_all Numpy.float32_of_int (Buffers.init 0%Z 2 3)
            [[16777217; 0]; [3; 4]]%Z))
  <> [[16777217; 0]; [3; 4]]%Z.
Proof.
  split; [repeat constructor|]. split; [vm_compute; reflexivity|].
  split; [vm_compute; reflexivity|]. vm_compute. discriminate.
Qed.

(** C9 as stated fails on a buffer of capacity 0, which [__init__] builds
    without complaint.  Its array has no column: [append] of a row of the
    right length, 2 values for 2 channels, passes the length check and raises
    [IndexError] at the store [_data[:, 0] = values]. *)
Lemma append_capacity_zero_raises :
  length [1; 2]%Z = Buffers.channels (Buffers.init 0%Z 2 0) /\
  Buffers.append (fun v : Z => v) (Buffers.init 0%Z 2 0) [1; 2]%Z
  = (Buffers.init 0%Z 2 0, Raise IndexError).
Proof. split; reflexivity. Qed.

End BuffersFacts.

(** ** serial_device.py *)

Module SerialFacts.
Import SerialDevice.

Lemma find_eq buffer sub :
  find buffer sub =
  if startswith buffer sub then Some 0
  else match buffer with
       | [] => None
       | _ :: buffer' => option_map S (find buffer' sub)
       end.
Proof. destruct buffer; reflexivity. Qed.

Lemma find_Some buffer sub : forall p,
  find buffer sub = Some p ->
  occurs_at sub buffer p /\ forall q, q < p -> ~ occurs_at sub buffer q.
Proof.
  induction buffer as [|b buffer IH]; intros p; rewrite find_eq;
    destruct (startswith _ sub) eqn:Hs.
  - intros [= <-]. split; [apply startswith_take; exact Hs|lia].
  - discriminate.
  - intros [= <-]. split; [apply startswith_take; exact Hs|lia].
  - destruct (find buffer sub) as [p'|] eqn:Hf; simpl; [|discriminate].
    intros [= <-]. destruct (IH p' eq_refl) as [Ho Hmin].
    split; [exact Ho|].
    intros [|q] Hq.
    + unfold occurs_at. simpl drop. intros H. apply startswith_take in H. congruence.
    + apply (Hmin q). lia.
Qed.

Lemma find_None buffer sub :
  find buffer sub = None -> forall q, ~ occurs_at sub buffer q.
Proof.
  induction buffer as [|b buffer IH]; rewrite find_eq;
    destruct (startswith _ sub) eqn:Hs; try discriminate.
  - intros _ q H. unfold occurs_at in H. rewrite drop_nil in H.
    apply startswith_take in H. congruence.
  - destruct (find buffer sub) as [p'|] eqn:Hf; simpl; [discriminate|].
    intros _ [|q].
    + unfold occurs_at. simpl drop. intros H. apply startswith_take in H. congruence.
    + apply (IH eq_refl q).
Qed.

Lemma occurs_at_bound sub buffer p :
  occurs_at sub buffer p -> sub <> [] -> p + length sub <= length buffer.
Proof.
  unfold occurs_at. intros H Hne.
  assert (Hl : length (take (length sub) (drop p buffer)) = length sub) by (rewrite H; reflexivity).
  rewrite length_take, length_drop in Hl.
  destruct sub as [|x sub]; [congruence|]. cbn [length] in *. lia.
Qed.

Lemma occurs_at_app sub l1 l2 p :
  p + length sub <= length l1 ->
  occurs_at sub (l1 ++ l2) p <-> occurs_at sub l1 p.
Proof.
  intros H. unfold occurs_at.
  rewrite drop_app_le by lia. rewrite take_app_le by (rewrite length_drop; lia).
  reflexivity.
Qed.

Lemma occurs_at_drop sub l d q :
  occurs_at sub (drop d l) q <-> occurs_at sub l (d + q).
Proof. unfold occurs_at. rewrite drop_drop. reflexivity. Qed.

Lemma occurs_at_lookup sub l p i x :
  occurs_at sub l p -> sub !! i = Some x -> l !! (p + i) = Some x.
Proof.
  unfold occurs_at. intros H Hi.
  rewrite <- H in Hi. rewrite lookup_take in Hi.
  destruct (decide (i < length sub)); [|discriminate].
  rewrite lookup_drop in Hi. exact Hi.
Qed.

Lemma scan_eq fuel buffer :
  scan fuel buffer =
  if length buffer <? PACKET_LENGTH then Some ([], buffer)
  else
    match fuel with
    | O => None
    | S fuel' =>
        match find buffer EXPECTED_HEADER with
        | None =>
            Some ([], if PACKET_LENGTH <? length buffer
                      then last_n (PACKET_LENGTH - 1) buffer else buffer)
        | Some header_pos =>
            let buffer :=
              if 0 <? header_pos then drop header_pos buffer else buffer in
            if length buffer <? PACKET_LENGTH then Some ([], buffer)
            else
              match scan fuel' (drop PACKET_LENGTH buffer) with
              | Some (packets, buffer') =>
                  Some (take PACKET_LENGTH buffer :: packets, buffer')
              | None => None
              end
        end
    end.
Proof. destruct fuel; reflexivity. Qed.

Lemma drop_if_pos {A} (l : list A) n :
  (if 0 <? n then drop n l else l) = drop n l.
Proof. destruct n; reflexivity. Qed.

(** The inner loop ends, whatever the buffer: [length buffer] iterations are
    enough.  What it leaves is at most one packet long, and a buffer longer
    than a packet that holds no header is cut to its last 28 bytes. *)
Lemma scan_spec fuel : forall buffer,
  length buffer <= fuel ->
  exists packets buffer',
    scan fuel buffer = Some (packets, buffer') /\
    length buffer' <= PACKET_LENGTH /\
    (find buffer EXPECTED_HEADER = None -> PACKET_LENGTH < length buffer ->
     packets = [] /\ buffer' = last_n (PACKET_LENGTH - 1) buffer).
Proof.
  unfold PACKET_LENGTH.
  induction fuel as [|fuel IH]; intros buffer Hlen; rewrite scan_eq; unfold PACKET_LENGTH.
  - destruct (Nat.ltb_spec (length buffer) 29); [|lia].
    eexists _, _. split; [reflexivity|]. split; lia.
  - destruct (Nat.ltb_spec (length buffer) 29).
    { eexists _, _. split; [reflexivity|]. split; lia. }
    destruct (find buffer EXPECTED_HEADER) as [pos|] eqn:Hfind.
    + rewrite drop_if_pos. cbv zeta.
      destruct (Nat.ltb_spec (length (drop pos buffer)) 29).
      { eexists _, _. split; [reflexivity|]. split; [lia|discriminate]. }
      destruct (IH (drop 29 (drop pos buffer))) as (packets & buffer' & -> & Hb & _).
      { rewrite !length_drop in *. lia. }
      eexists _, _. split; [reflexivity|]. split; [exact Hb|discriminate].
    + eexists _, _. split; [reflexivity|].
      destruct (Nat.ltb_spec 29 (length buffer)).
      * split; [unfold last_n; rewrite length_drop; lia|]. intros _ _. split; reflexivity.
      * split; [lia|]. intros _ ?. lia.
Qed.


Lemma occurs_at_frame X frame :
  take 3 frame = EXPECTED_HEADER -> occurs_at EXPECTED_HEADER (X ++ frame) (length X).
Proof. intros H. unfold occurs_at. rewrite drop_app_length. exact H. Qed.

Lemma header_nonempty : EXPECTED_HEADER <> [].
Proof. discriminate. Qed.

Lemma scan_pending frame fuel Bd rest :
  length frame = 29 -> take 3 frame = EXPECTED_HEADER ->
  length Bd <= fuel ->
  pending frame Bd rest ->
  (exists buffer', scan fuel Bd = Some ([], buffer') /\
                   pending frame buffer' rest /\ rest <> []) \/
  (scan fuel Bd = Some ([frame], []) /\ rest = []).
Proof.
  intros Hlen Hhd Hfuel (X & HX & Hmin).
  assert (Hsz : length Bd + length rest = length X + 29).
  { rewrite <- Hlen, <- !length_app, HX. reflexivity. }
  rewrite scan_eq. unfold PACKET_LENGTH.
  destruct (Nat.ltb_spec (length Bd) 29) as [Hshort|Hlong].
  { left. exists Bd. split; [reflexivity|]. split.
    - exists X. split; assumption.
    - intros ->. simpl in Hsz. lia. }
  destruct fuel as [|fuel]; [lia|].
  assert (Hocc : forall p, p + 3 <= length Bd ->
                   (occurs_at EXPECTED_HEADER Bd p <->
                    occurs_at EXPECTED_HEADER (X ++ frame) p)).
  { intros p Hp. rewrite <- HX. symmetry. apply occurs_at_app. exact Hp. }
  destruct (find Bd EXPECTED_HEADER) as [pos|] eqn:Hfind.
  - destruct (find_Some _ _ _ Hfind) as [Ho Hfirst].
    pose proof (occurs_at_bound _ _ _ Ho header_nonempty) as Hb. simpl length in Hb.
    assert (Hpos : pos = length X).
    { destruct (Nat.lt_trichotomy pos (length X)) as [Hlt|[Heq|Hgt]]; [|exact Heq|].
      - exfalso. apply (Hmin pos Hlt). apply Hocc; assumption.
      - exfalso. apply (Hfirst (length X) Hgt). apply Hocc; [lia|].
        apply occurs_at_frame. exact Hhd. }
    subst pos. rewrite drop_if_pos. cbv zeta.
    assert (Hrest : drop (length X) Bd ++ rest = frame).
    { rewrite <- drop_app_le by lia. rewrite HX, drop_app_length. reflexivity. }
    destruct (Nat.ltb_spec (length (drop (length X) Bd)) 29) as [Hs|Hl].
    + left. eexists. split; [reflexivity|]. split.
      * exists []. split; [exact Hrest|]. simpl. intros q Hq. lia.
      * intros ->. rewrite app_nil_r in Hrest. rewrite Hrest in Hs. lia.
    + right.
      assert (rest = []) as ->.
      { apply length_zero_iff_nil. rewrite length_drop in Hl. lia. }
      rewrite app_nil_r in Hrest. rewrite Hrest.
      rewrite <- Hlen, take_ge, drop_ge by lia.
      rewrite scan_eq. simpl. split; reflexivity.
  - pose proof (find_None _ _ Hfind) as Hno.
    assert (Hlt : length Bd < length X + 3).
    { destruct (Nat.lt_ge_cases (length Bd) (length X + 3)) as [?|Hge]; [assumption|].
      exfalso. apply (Hno (length X)). apply Hocc; [lia|].
      apply occurs_at_frame. exact Hhd. }
    left. eexists. split; [reflexivity|]. split; [|intros ->; simpl in Hsz; lia].
    destruct (Nat.ltb_spec 29 (length Bd)) as [Hcut|Hkeep].
    + unfold last_n. set (d := length Bd - (29 - 1)).
      assert (Hd : d <= length X) by (unfold d; lia).
      exists (drop d X). split.
      * rewrite <- drop_app_le by lia. rewrite <- drop_app_le by (unfold d; lia).
        rewrite HX. reflexivity.
      * intros q Hq. rewrite length_drop in Hq.
        rewrite <- drop_app_le by lia. rewrite occurs_at_drop.
        apply Hmin. lia.
    + exists X. split; assumption.
Qed.

Lemma read_pass_pending frame buffer data rest :
  length frame = 29 -> take 3 frame = EXPECTED_HEADER ->
  pending frame buffer (data ++ rest) ->
  (exists buffer', read_pass buffer data = Some ([], buffer') /\
                   pending frame buffer' rest /\ rest <> []) \/
  (read_pass buffer data = Some ([frame], []) /\ rest = []).
Proof.
  intros Hlen Hhd Hp. unfold read_pass. cbv zeta.
  apply scan_pending; [assumption|assumption|lia|].
  destruct Hp as (X & HX & Hmin). exists X. rewrite <- app_assoc. split; assumption.
Qed.

Lemma read_all_idle reads :
  concat reads = [] -> read_all [] reads = Some ([], []).
Proof.
  induction reads as [|data reads IH]; simpl; [reflexivity|].
  intros H. apply app_eq_nil in H as [-> H].
  unfold read_pass. simpl. rewrite (IH H). reflexivity.
Qed.

Lemma read_all_pending frame reads : forall buffer,
  length frame = 29 -> take 3 frame = EXPECTED_HEADER ->
  pending frame buffer (concat reads) -> concat reads <> [] ->
  read_all buffer reads = Some ([frame], []).
Proof.
  induction reads as [|data reads IH]; intros buffer Hlen Hhd Hp Hne; simpl in *.
  - congruence.
  - destruct (read_pass_pending frame buffer data (concat reads) Hlen Hhd Hp)
      as [(buffer' & -> & Hp' & Hne')|[-> Hnil]].
    + rewrite (IH buffer' Hlen Hhd Hp' Hne'). reflexivity.
    + rewrite (read_all_idle reads Hnil). reflexivity.
Qed.

(** A run of bytes that holds no header and does not end with the header's
    byte cannot complete a header with what follows it. *)
Lemma garbage_pending garbage frame :
  find garbage EXPECTED_HEADER = None -> last garbage <> Some xd2 ->
  pending frame [] (garbage ++ frame).
Proof.
  intros Hfind Hlast. exists garbage. split; [reflexivity|].
  intros q Hq Ho.
  destruct (Nat.le_gt_cases (q + 3) (length garbage)) as [Hin|Hout].
  - apply (find_None _ _ Hfind q). apply (occurs_at_app _ _ frame); assumption.
  - apply Hlast. rewrite last_lookup.
    assert (exists i, i < 3 /\ q + i = pred (length garbage)) as (i & Hi & Hqi)
      by (exists (pred (length garbage) - q); lia).
    assert (EXPECTED_HEADER !! i = Some xd2) as Hh.
    { destruct i as [|[|[|i]]]; try reflexivity. lia. }
    pose proof (occurs_at_lookup _ _ _ _ _ Ho Hh) as Hl.
    rewrite Hqi, lookup_app_l in Hl by lia. exact Hl.
Qed.


(** C2, as the code has it.  Let [garbage] hold no header and not end with the
    header's byte [D2], and let [frame] be 29 bytes that start with the header.
    However the bytes of [garbage ++ frame] are split into reads, the passes
    cut out exactly one packet, [frame] itself, and leave the accumulator
    empty: the garbage is discarded. *)
Theorem frame_after_garbage (garbage frame : list byte) (reads : list (list byte)) :
  find garbage EXPECTED_HEADER = None ->
  last garbage <> Some xd2 ->
  length frame = PACKET_LENGTH ->
  take 3 frame = EXPECTED_HEADER ->
  concat reads = garbage ++ frame ->
  read_all [] reads = Some ([frame], []).
Proof.
  intros Hfind Hlast Hlen Hhd Hreads.
  apply read_all_pending; [exact Hlen|exact Hhd| |].
  - rewrite Hreads. apply garbage_pending; assumption.
  - rewrite Hreads. intros H. apply (f_equal length) in H.
    rewrite length_app, Hlen in H. unfold PACKET_LENGTH in H. simpl in H. lia.
Qed.

Lemma frame_after_garbage_witness :
  read_all [] reads1 = Some ([frame0], []).
Proof.
  apply (frame_after_garbage garbage1 frame0 reads1).
  - reflexivity.
  - discriminate.
  - reflexivity.
  - reflexivity.
  - reflexivity.
Defined.

(** C2 as stated fails when the garbage ends with the header's byte: the
    single garbage byte [D2] holds no header, yet with the header of
    [frame0] behind it the header is found one byte early.  The one packet
    cut out is not [frame0], [parse_packet] rejects it, and the last byte of
    [frame0] stays in the accumulator. *)
Lemma garbage_ending_in_header_byte :
  find [xd2] EXPECTED_HEADER = None /\
  length frame0 = 29 /\
  (exists s, DataParser.parse_packet frame0 = Ok (DataParser.Emg s)) /\
  read_all [] [[xd2] ++ frame0]
  = Some ([[xd2; xd2; xd2; xd2; xaa; x01] ++ replicate 23 x00], [x00]) /\
  read_all [] [[xd2] ++ frame0] <> Some ([frame0], []) /\
  on_packet_calls [[xd2; xd2; xd2; xd2; xaa; x01] ++ replicate 23 x00] = [].
Proof.
  split; [reflexivity|]. split; [reflexivity|].
  split; [eexists; vm_compute; reflexivity|].
  split; [reflexivity|]. split; [discriminate|]. reflexivity.
Qed.

End SerialFacts.

(** ** ui/main_window.py *)

Module FloatFacts.

Lemma flt_true a b : flt a b = true -> (a < b)%Qc.
Proof.
  unfold flt. rewrite negb_true_iff. intros H. apply Qcnot_le_lt. intros Hle.
  apply Qle_bool_iff in Hle. congruence.
Qed.

Lemma flt_false a b : flt a b = false -> (b <= a)%Qc.
Proof. unfold flt. rewrite negb_false_iff. apply Qle_bool_iff. Qed.

Lemma fge_true a b : fge a b = true -> (b <= a)%Qc.
Proof. unfold fge. apply Qle_bool_iff. Qed.

Lemma fge_false a b : fge a b = false -> (a < b)%Qc.
Proof.
  unfold fge. intros H. apply Qcnot_le_lt. intros Hle.
  apply Qle_bool_iff in Hle. congruence.
Qed.

Lemma flt_iff a b : flt a b = true <-> (a < b)%Qc.
Proof.
  split; [apply flt_true|]. intros H. destruct (flt a b) eqn:E; [reflexivity|].
  apply flt_false in E. exfalso. exact (Qclt_not_le _ _ H E).
Qed.

Lemma fge_iff a b : fge a b = true <-> (b <= a)%Qc.
Proof. unfold fge. apply Qle_bool_iff. Qed.

End FloatFacts.

(** Order goals on floats, by linear arithmetic on the underlying fractions. *)
Ltac float_lra :=
  unfold Qclt, Qcle, Qcmult, Qcplus, Qcminus, Qcopp, fl, Q2Qc in *;
  cbn [this] in *;
  repeat match goal with
         | H : context [Qred ?q] |- _ => rewrite (Qred_correct q) in H
         | |- context [Qred ?q] => rewrite (Qred_correct q)
         end;
  lra.

Ltac float_cases :=
  repeat match goal with
         | |- context [flt ?a ?b] =>
             let E := fresh "E" in
             destruct (flt a b) eqn:E;
             [apply FloatFacts.flt_true in E | apply FloatFacts.flt_false in E]
         | |- context [fge ?a ?b] =>
             let E := fresh "E" in
             destruct (fge a b) eqn:E;
             [apply FloatFacts.fge_true in E | apply FloatFacts.fge_false in E]
         end.

Module WindowFacts.
Import MainWindow FloatFacts.

Lemma max_floor noise : (fl 100 <= max noise (fl 100))%Qc /\ (noise <= max noise (fl 100))%Qc.
Proof.
  unfold max. float_cases; split; try float_lra.
Qed.

Lemma new_state_of_step noise strength cur :
  (0 <= cur <= 4)%Z ->
  (0 <= new_state_of noise strength cur <= 4)%Z /\
  (new_state_of noise strength cur <= cur + 1)%Z.
Proof.
  intros Hc. unfold new_state_of. cbv zeta.
  destruct (Z.eqb_spec cur 0), (Z.eqb_spec cur 1), (Z.eqb_spec cur 2),
    (Z.eqb_spec cur 3); simpl andb;
    destruct (Z.geb_spec cur 2), (Z.geb_spec cur 3), (Z.geb_spec cur 4);
    try lia;
    repeat match goal with
           | |- context [if ?b then _ else _] => destruct b
           end; lia.
Qed.

Lemma new_state_of_idle noise strength cur :
  (strength < max noise (fl 100) * fl 2)%Qc ->
  new_state_of noise strength cur = 0%Z.
Proof.
  intros Hs. destruct (max_floor noise) as [Hfloor _].
  unfold new_state_of, thresholds. cbv zeta. simpl snd.
  set (nb := max noise (fl 100)) in *.
  float_cases; try (exfalso; float_lra);
    repeat rewrite andb_false_r; reflexivity.
Qed.

Lemma new_state_of_active noise strength cur :
  (0 <= cur)%Z ->
  (max noise (fl 100) * fl 2 <= strength)%Qc ->
  (1 <= new_state_of noise strength cur)%Z.
Proof.
  intros Hc Hs. destruct (max_floor noise) as [Hfloor _].
  unfold new_state_of, thresholds. cbv zeta. simpl snd.
  set (nb := max noise (fl 100)) in *.
  destruct (Z.eqb_spec cur 0), (Z.eqb_spec cur 1), (Z.eqb_spec cur 2),
    (Z.eqb_spec cur 3); simpl andb;
    destruct (Z.geb_spec cur 2), (Z.geb_spec cur 3), (Z.geb_spec cur 4);
    try lia;
    float_cases; try lia; try (exfalso; float_lra).
Qed.

Lemma geti_insert (l : list Z) i x : i < length l -> geti (<[i := x]> l) i = x.
Proof.
  intros H. unfold geti. apply nth_lookup_Some with (d := 0%Z).
  apply list_lookup_insert_eq. exact H.
Qed.

(** What one quality update does to the window: only the level of the
    channel changes, to [new_state_of]. *)
Lemma update_channel_indicator_spec self i strength :
  i < _channel_indicators self -> i < length (_channel_current_state self) ->
  geti (_channel_current_state (_update_channel_indicator self i strength)) i
  = new_state_of (getf (_channel_noise_level self) i) strength
      (geti (_channel_current_state self) i) /\
  _channel_noise_level (_update_channel_indicator self i strength)
  = _channel_noise_level self /\
  _channel_indicators (_update_channel_indicator self i strength)
  = _channel_indicators self /\
  length (_channel_current_state (_update_channel_indicator self i strength))
  = length (_channel_current_state self).
Proof.
  intros Hi Hl. unfold _update_channel_indicator.
  destruct (Nat.leb_spec (_channel_indicators self) i); [lia|]. simpl.
  rewrite geti_insert by exact Hl. rewrite length_insert. auto.
Qed.

(** C6.  One quality update of a channel at level 0..4 raises its level by at
    most one step, whatever the deviation, and leaves it in 0..4; and a
    deviation below twice the noise floor (below twice the floor of 100 that
    the update applies, a fortiori below twice the calibrated level) puts the
    channel at level 0 in that one update, from any level. *)
Theorem quality_update_one_step (self : MainWindow) (i : nat) (strength : float) :
  i < _channel_indicators self ->
  i < length (_channel_current_state self) ->
  (0 <= geti (_channel_current_state self) i <= 4)%Z ->
  (geti (_channel_current_state (_update_channel_indicator self i strength)) i
   <= geti (_channel_current_state self) i + 1)%Z /\
  (0 <= geti (_channel_current_state (_update_channel_indicator self i strength)) i
   <= 4)%Z /\
  ((strength < max (getf (_channel_noise_level self) i) (fl 100) * fl 2)%Qc ->
   geti (_channel_current_state (_update_channel_indicator self i strength)) i = 0%Z) /\
  ((strength < getf (_channel_noise_level self) i * fl 2)%Qc ->
   geti (_channel_current_state (_update_channel_indicator self i strength)) i = 0%Z).
Proof.
  intros Hi Hl Hc.
  destruct (update_channel_indicator_spec self i strength Hi Hl) as (-> & _).
  destruct (new_state_of_step (getf (_channel_noise_level self) i) strength _ Hc)
    as [Hr Hs].
  split; [exact Hs|]. split; [exact Hr|]. split.
  - apply new_state_of_idle.
  - intros H. apply new_state_of_idle.
    destruct (max_floor (getf (_channel_noise_level self) i)) as [_ Hle].
    set (nb := max (getf (_channel_noise_level self) i) (fl 100)) in *.
    float_lra.
Qed.

Lemma updates_spec strengths : forall self i,
  i < _channel_indicators self -> i < length (_channel_current_state self) ->
  geti (_channel_current_state (updates self i strengths)) i
  = fold_left (fun level strength =>
                 new_state_of (getf (_channel_noise_level self) i) strength level)
      strengths (geti (_channel_current_state self) i).
Proof.
  induction strengths as [|s strengths IH]; intros self i Hi Hl; [reflexivity|].
  destruct (update_channel_indicator_spec self i s Hi Hl) as (Hst & Hn & Hind & Hlen).
  change (updates self i (s :: strengths))
    with (updates (_update_channel_indicator self i s) i strengths).
  rewrite IH by lia. rewrite Hn, Hst. reflexivity.
Qed.

Lemma level_one_at_three_floors noise :
  new_state_of noise (max noise (fl 100) * fl 3)%Qc 0 = 1%Z /\
  new_state_of noise (max noise (fl 100) * fl 3)%Qc 1 = 1%Z.
Proof.
  destruct (max_floor noise) as [Hfloor _].
  unfold new_state_of, thresholds. cbv zeta. simpl snd.
  set (nb := max noise (fl 100)) in *. simpl Z.eqb. simpl Z.geb. simpl andb.
  split; float_cases; try reflexivity; try (exfalso; float_lra).
Qed.

Lemma constant_strength_level noise n :
  fold_left (fun level strength => new_state_of noise strength level)
    (replicate (S n) (max noise (fl 100) * fl 3)%Qc) 0%Z = 1%Z.
Proof.
  destruct (level_one_at_three_floors noise) as [H0 H1].
  simpl. rewrite H0. induction n as [|n IH]; simpl; [reflexivity|].
  rewrite H1. exact IH.
Qed.

(** Let a channel be at level 0, as every channel is when a calibration ends,
    and let every quality update see a deviation of exactly three times the
    noise floor the update works with (the calibrated level, but at least
    100).  Then the channel is at level 1 after the first update and after
    every later one: three floors lie in the band of level 1, below the rising
    threshold of level 2, four floors.  From any level, an update leaves the
    channel above level 0 while the deviation is at least twice the floor. *)
Theorem constant_three_floors_level_one (self : MainWindow) (i n : nat)
  (strength : float) :
  i < _channel_indicators self ->
  i < length (_channel_current_state self) ->
  (0 <= geti (_channel_current_state self) i)%Z ->
  (geti (_channel_current_state self) i = 0%Z ->
   geti (_channel_current_state
           (updates self i
              (replicate (S n)
                 (max (getf (_channel_noise_level self) i) (fl 100) * fl 3)%Qc))) i
   = 1%Z) /\
  ((max (getf (_channel_noise_level self) i) (fl 100) * fl 2 <= strength)%Qc ->
   (1 <= geti (_channel_current_state (_update_channel_indicator self i strength)) i)%Z).
Proof.
  intros Hi Hl Hc. split.
  - intros H0. rewrite updates_spec by assumption. rewrite H0.
    apply constant_strength_level.
  - intros Hs.
    destruct (update_channel_indicator_spec self i strength Hi Hl) as (-> & _).
    apply new_state_of_active; assumption.
Qed.

Lemma quality_update_one_step_witness :
  (geti (_channel_current_state (_update_channel_indicator init 0 (fl 950))) 0
   <= geti (_channel_current_state init) 0 + 1)%Z /\
  (0 <= geti (_channel_current_state (_update_channel_indicator init 0 (fl 950))) 0
   <= 4)%Z /\
  ((fl 950 < max (getf (_channel_noise_level init) 0) (fl 100) * fl 2)%Qc ->
   geti (_channel_current_state (_update_channel_indicator init 0 (fl 950))) 0 = 0%Z) /\
  ((fl 950 < getf (_channel_noise_level init) 0 * fl 2)%Qc ->
   geti (_channel_current_state (_update_channel_indicator init 0 (fl 950))) 0 = 0%Z).
Proof.
  apply (quality_update_one_step init 0 (fl 950)).
  - vm_compute. lia.
  - vm_compute. lia.
  - vm_compute. split; discriminate.
Defined.

Lemma constant_three_floors_level_one_witness :
  (geti (_channel_current_state init) 0 = 0%Z ->
   geti (_channel_current_state
           (updates init 0
              (replicate 4
                 (max (getf (_channel_noise_level init) 0) (fl 100) * fl 3)%Qc))) 0
   = 1%Z) /\
  ((max (getf (_channel_noise_level init) 0) (fl 100) * fl 2 <= fl 250)%Qc ->
   (1 <= geti (_channel_current_state (_update_channel_indicator init 0 (fl 250))) 0)%Z).
Proof.
  apply (constant_three_floors_level_one init 0 3 (fl 250)).
  - vm_compute. lia.
  - vm_compute. lia.
  - vm_compute. discriminate.
Defined.

(** The window [calibrated_310] has ended its calibration with a noise level
    of 310 on every channel and every channel at level 0.  With a deviation of
    exactly three times that noise level, 930, at every quality update,
    channel 0 is at level 1 after the first update and after each of the next
    ones, and at level 2 after none. *)
Lemma three_floors_never_level_two :
  _baseline_initialized calibrated_310 = true /\
  map this (_channel_noise_level calibrated_310) = replicate 8 310%Q /\
  _channel_current_state calibrated_310 = replicate 8 0%Z /\
  map (fun n => geti (_channel_current_state
                        (updates calibrated_310 0 (replicate n (fl 930)))) 0)
      [1; 2; 3; 4; 5; 50]
  = [1; 1; 1; 1; 1; 1]%Z /\
  (forall n, geti (_channel_current_state
                     (updates calibrated_310 0 (replicate n (fl 930)))) 0 <> 2%Z).
Proof.
  split; [vm_compute; reflexivity|]. split; [vm_compute; reflexivity|].
  split; [vm_compute; reflexivity|]. split; [vm_compute; reflexivity|].
  intros n.
  assert (Hi : 0 < _channel_indicators calibrated_310) by (vm_compute; lia).
  assert (Hl : 0 < length (_channel_current_state calibrated_310)) by (vm_compute; lia).
  rewrite updates_spec by assumption.
  assert (H0 : geti (_channel_current_state calibrated_310) 0 = 0%Z)
    by (vm_compute; reflexivity).
  rewrite H0. destruct n as [|n]; [simpl; discriminate|].
  assert (Hs : fl 930 = (max (getf (_channel_noise_level calibrated_310) 0) (fl 100)
                         * fl 3)%Qc)
    by (apply Qc_is_canon; vm_compute; reflexivity).
  rewrite Hs, constant_strength_level. discriminate.
Qed.

(** The falling entry of the table of thresholds is not read.  A channel at
    level [k] whose deviation is at or above the falling threshold of its
    level, and below the rising threshold of the level under it, falls to
    level [k - 1]. *)
Lemma new_state_of_falls_early noise strength (k : nat) :
  1 <= k <= 4 ->
  (fst (thresholds (max noise (fl 100)) k) <= strength)%Qc ->
  (strength < snd (thresholds (max noise (fl 100)) (k - 1)))%Qc ->
  new_state_of noise strength (Z.of_nat k) = (Z.of_nat k - 1)%Z.
Proof.
  intros Hk Hlow Hhigh. destruct (max_floor noise) as [Hfloor _].
  unfold new_state_of. cbv zeta.
  set (nb := max noise (fl 100)) in *.
  destruct k as [|[|[|[|[|k]]]]]; try lia;
    unfold thresholds in *; cbn [fst snd Nat.sub] in *;
    simpl Z.of_nat; simpl Z.eqb; simpl Z.geb; simpl andb;
    float_cases; try reflexivity; exfalso; float_lra.
Qed.

(** C1.  The hysteresis of the claim against the code.  The table of
    [_update_channel_indicator] gives every level a falling threshold under
    the rising threshold of the level below it (for level 1: 1.5 floors under
    2 floors), and the code tests a fall against the rising thresholds only.
    So a channel at level [k] falls to level [k - 1] at a deviation that has
    not dropped below the falling threshold of level [k]; from level 1 it
    returns to level 0.  On the window [calibrated_310], whose calibration
    ended with the noise level 310: updates at three times that level, 930,
    put channel 0 at level 1 and keep it there; the falling threshold of
    level 1 is 465; and one more update, at 527, puts the channel at
    level 0. *)
Theorem falling_threshold_not_read :
  (forall noise strength (k : nat),
     1 <= k <= 4 ->
     (fst (thresholds (max noise (fl 100)) k) <= strength)%Qc ->
     (strength < snd (thresholds (max noise (fl 100)) (k - 1)))%Qc ->
     new_state_of noise strength (Z.of_nat k) = (Z.of_nat k - 1)%Z) /\
  (_baseline_initialized calibrated_310 = true /\
   map this (_channel_noise_level calibrated_310) = replicate 8 310%Q /\
   _channel_current_state calibrated_310 = replicate 8 0%Z) /\
  (map (fun n => geti (_channel_current_state
                         (updates calibrated_310 0 (replicate n (fl 930)))) 0)
       [1; 2; 3]
   = [1; 1; 1]%Z /\
   this (fst (thresholds (max (getf (_channel_noise_level calibrated_310) 0) (fl 100)) 1))
   = 465%Q /\
   (fst (thresholds (max (getf (_channel_noise_level calibrated_310) 0) (fl 100)) 1)
    <= fl 527)%Qc /\
   geti (_channel_current_state
           (updates calibrated_310 0 (replicate 3 (fl 930) ++ [fl 527]))) 0
   = 0%Z).
Proof.
  split; [exact new_state_of_falls_early|].
  split; [vm_compute; repeat split|].
  split; [vm_compute; reflexivity|]. split; [vm_compute; reflexivity|].
  split; [vm_compute; discriminate|]. vm_compute. reflexivity.
Qed.

End WindowFacts.

(** ** ui/main_window.py: the calibration phase *)

Module CalibrationFacts.

Import DataParser MainWindow.

Lemma calibration_loop_cons k v values self :
  calibration_loop k (v :: values) self
  = calibration_loop (S k) values (calibration_body k v self).
Proof. reflexivity. Qed.

Lemma getf_insert_eq l i x : i < length l -> getf (<[i := x]> l) i = x.
Proof.
  intros H. unfold getf. apply nth_lookup_Some with (d := fl 0).
  apply list_lookup_insert_eq. exact H.
Qed.

Lemma getf_insert_ne l i j x : i <> j -> getf (<[i := x]> l) j = getf l j.
Proof.
  intros H. unfold getf. rewrite !nth_lookup, list_lookup_insert_ne by exact H.
  reflexivity.
Qed.

Lemma same_control_refl self : same_control self self.
Proof. unfold same_control. repeat split. Qed.

Lemma same_control_trans a b c :
  same_control a b -> same_control b c -> same_control a c.
Proof.
  unfold same_control. intros (?&?&?&?&?&?&?) (?&?&?&?&?&?&?).
  repeat split; congruence.
Qed.

Lemma calibration_loop_spec values : forall k self,
  k + length values <= length (_channel_baseline self) ->
  k + length values <= length (_channel_last_values self) ->
  k + length values <= length (_channel_noise_level self) ->
  same_control self (calibration_loop k values self) /\
  length (_channel_baseline (calibration_loop k values self))
  = length (_channel_baseline self) /\
  length (_channel_last_values (calibration_loop k values self))
  = length (_channel_last_values self) /\
  length (_channel_noise_level (calibration_loop k values self))
  = length (_channel_noise_level self) /\
  forall j,
    channel (calibration_loop k values self) j =
    if decide (k <= j < k + length values)
    then calibrated (_packet_count self) (nth (j - k) values (fl 0)) (channel self j)
    else channel self j.
Proof.
  induction values as [|v values IH]; intros k self Hb Hl Hn.
  - simpl. split; [apply same_control_refl|]. repeat split.
    intros j. destruct (decide _) as [H|_]; [simpl in H; lia|reflexivity].
  - change (length (v :: values)) with (S (length values)) in *.
    rewrite calibration_loop_cons.
    remember (calibration_body k v self) as w1 eqn:Hw1.
    assert (Hc1 : same_control self w1).
    { rewrite Hw1; unfold calibration_body; simpl.
      destruct (_packet_count _ >? 50)%Z; unfold same_control; simpl; repeat split. }
    assert (Hlb : length (_channel_baseline w1) = length (_channel_baseline self)).
    { rewrite Hw1; unfold calibration_body; simpl.
      destruct (_packet_count _ >? 50)%Z; simpl; rewrite ?length_insert; reflexivity. }
    assert (Hll : length (_channel_last_values w1) = length (_channel_last_values self)).
    { rewrite Hw1; unfold calibration_body; simpl.
      destruct (_packet_count _ >? 50)%Z; simpl; rewrite ?length_insert; reflexivity. }
    assert (Hln : length (_channel_noise_level w1) = length (_channel_noise_level self)).
    { rewrite Hw1; unfold calibration_body; simpl.
      destruct (_packet_count _ >? 50)%Z; simpl; rewrite ?length_insert; reflexivity. }
    assert (Hch : forall j, channel w1 j =
                  if decide (j = k)
                  then calibrated (_packet_count self) v (channel self j)
                  else channel self j).
    { intros j. rewrite Hw1. unfold calibration_body, channel, calibrated. simpl.
      destruct (decide (j = k)) as [->|Hne].
      - destruct (_packet_count self >? 50)%Z; simpl;
          rewrite ?getf_insert_eq by lia; reflexivity.
      - destruct (_packet_count self >? 50)%Z; simpl;
          rewrite ?getf_insert_ne by congruence; reflexivity. }
    destruct (IH (S k) w1) as (Hc & Hb' & Hl' & Hn' & Hj); try lia.
    split; [eapply same_control_trans; eassumption|].
    split; [congruence|]. split; [congruence|]. split; [congruence|].
    intros j. rewrite Hj, Hch.
    destruct Hc1 as (_ & Hcount & _). rewrite Hcount.
    destruct (decide (S k <= j < S k + length values)) as [Hin|Hout].
    + destruct (decide (j = k)); [lia|].
      destruct (decide (k <= j < k + S (length values))); [|lia].
      replace (j - k) with (S (j - S k)) by lia. reflexivity.
    + destruct (decide (j = k)) as [->|Hne].
      * destruct (decide (k <= k < k + S (length values))); [|lia].
        rewrite Nat.sub_diag. reflexivity.
      * destruct (decide (k <= j < k + S (length values))); [lia|reflexivity].
Qed.

Lemma append_ready self values :
  buffer_ready self -> length values = Config.EMG_CHANNELS ->
  exists buffer,
    Buffers.append (fun v => v) (_buffer self) values = (buffer, Ok tt) /\
    Buffers.channels buffer = Config.EMG_CHANNELS /\
    Buffers._index buffer < Buffers.capacity buffer.
Proof.
  intros [Hch Hidx] Hlen. unfold Buffers.append.
  rewrite Hlen, Hch, Nat.eqb_refl. simpl negb. cbv iota.
  destruct (Nat.leb_spec (Buffers.capacity (_buffer self)) (Buffers._index (_buffer self)));
    [lia|].
  eexists. split; [reflexivity|]. simpl. split; [reflexivity|].
  apply Nat.mod_upper_bound. lia.
Qed.

(** A sample inside a calibration phase: every channel is [calibrated] at the
    new packet number, and nothing else of the phase changes. *)
Lemma handle_calibration_sample self sample :
  _baseline_initialized self = false ->
  (_packet_count self + 1 <= _initialization_samples self)%Z ->
  length (channels_uv sample) = Config.EMG_CHANNELS ->
  buffer_ready self -> sized self ->
  _baseline_initialized (_handle_emg_sample self sample) = false /\
  _packet_count (_handle_emg_sample self sample) = (_packet_count self + 1)%Z /\
  _initialization_samples (_handle_emg_sample self sample)
  = _initialization_samples self /\
  buffer_ready (_handle_emg_sample self sample) /\
  sized (_handle_emg_sample self sample) /\
  forall j, j < Config.EMG_CHANNELS ->
    channel (_handle_emg_sample self sample) j
    = calibrated (_packet_count self + 1) (getf (channels_uv sample) j)
        (channel self j).
Proof.
  intros Hinit Hcount Hlen Hbuf (Hb & Hl & Hn).
  destruct (append_ready self _ Hbuf Hlen) as (buffer & Happ & Hch & Hidx).
  set (self1 := set_packet_count (set_buffer self buffer) (_packet_count self + 1)).
  assert (Heq : _handle_emg_sample self sample
                = calibration_loop 0 (channels_uv sample) self1).
  { unfold _handle_emg_sample. rewrite Happ. cbv zeta.
    change (set_packet_count (set_buffer self buffer)
              (_packet_count (set_buffer self buffer) + 1)) with self1.
    assert (_baseline_initialized self1 = false) as -> by exact Hinit.
    assert ((_packet_count self1 <=? _initialization_samples self1)%Z = true) as ->
      by (apply Z.leb_le; exact Hcount).
    reflexivity. }
  rewrite Heq.
  destruct (calibration_loop_spec (channels_uv sample) 0 self1)
    as ((Hc1 & Hc2 & Hc3 & Hc4 & Hc5 & Hc6 & Hc7) & Hb' & Hl' & Hn' & Hj);
    try (simpl; lia).
  split; [rewrite Hc4; exact Hinit|].
  split; [rewrite Hc2; reflexivity|].
  split; [rewrite Hc5; reflexivity|].
  split; [unfold buffer_ready; rewrite Hc1; simpl; split; assumption|].
  split; [unfold sized; rewrite Hb', Hl', Hn'; simpl; repeat split; assumption|].
  intros j Hjlt. rewrite Hj.
  destruct (decide (0 <= j < 0 + length (channels_uv sample))) as [_|Hout]; [|lia].
  rewrite Nat.sub_0_r. reflexivity.
Qed.

Lemma handle_all_cons self sample samples :
  handle_all self (sample :: samples)
  = handle_all (_handle_emg_sample self sample) samples.
Proof. reflexivity. Qed.

Lemma handle_all_app self samples samples' :
  handle_all self (samples ++ samples')
  = handle_all (handle_all self samples) samples'.
Proof. unfold handle_all. apply fold_left_app. Qed.

(** The samples of a calibration phase, one after the other. *)
Lemma handle_calibration_samples samples : forall self,
  _baseline_initialized self = false ->
  (_packet_count self + Z.of_nat (length samples) <= _initialization_samples self)%Z ->
  Forall (fun sample => length (channels_uv sample) = Config.EMG_CHANNELS) samples ->
  buffer_ready self -> sized self ->
  _baseline_initialized (handle_all self samples) = false /\
  _packet_count (handle_all self samples)
  = (_packet_count self + Z.of_nat (length samples))%Z /\
  _initialization_samples (handle_all self samples) = _initialization_samples self /\
  buffer_ready (handle_all self samples) /\
  sized (handle_all self samples) /\
  forall j, j < Config.EMG_CHANNELS ->
    channel (handle_all self samples) j
    = calibrated_run (_packet_count self + 1) (channel self j) (column j samples).
Proof.
  induction samples as [|sample samples IH]; intros self Hinit Hcount Hlens Hbuf Hsz.
  - simpl. rewrite Z.add_0_r. repeat split; try assumption; apply Hbuf || apply Hsz.
  - apply Forall_cons in Hlens as [Hlen Hlens].
    change (length (sample :: samples)) with (S (length samples)) in *.
    rewrite handle_all_cons.
    destruct (handle_calibration_sample self sample Hinit) as
      (Hi1 & Hc1 & Hn1 & Hb1 & Hs1 & Hj1); try assumption; [lia|].
    destruct (IH (_handle_emg_sample self sample)) as
      (Hi2 & Hc2 & Hn2 & Hb2 & Hs2 & Hj2); try assumption; [rewrite Hc1, Hn1; lia|].
    split; [exact Hi2|]. split; [rewrite Hc2, Hc1; lia|].
    split; [congruence|]. split; [exact Hb2|]. split; [exact Hs2|].
    intros j Hj. rewrite Hj2, Hj1, Hc1 by exact Hj. reflexivity.
Qed.

(** The accumulated noise level of a channel grows by the activity sum. *)
Lemma calibrated_run_noise values : forall count baseline last noise,
  snd (calibrated_run count (baseline, last, noise) values)
  = (noise + activity_sum count baseline last values)%Qc.
Proof.
  induction values as [|v values IH]; intros count baseline last noise.
  - simpl. unfold fl, float in *. change (Q2Qc 0) with 0%Qc. ring.
  - cbn [calibrated_run activity_sum calibrated]. cbv zeta. rewrite IH.
    destruct (count >? 50)%Z; unfold float in *.
    + ring.
    + change (fl 0) with 0%Qc. ring.
Qed.

Lemma finish_loop_spec n : forall a self,
  a + n <= length (_channel_noise_level self) ->
  same_control self (finish_loop (seq a n) self) /\
  length (_channel_noise_level (finish_loop (seq a n) self))
  = length (_channel_noise_level self) /\
  forall j,
    getf (_channel_noise_level (finish_loop (seq a n) self)) j =
    if decide (a <= j < a + n)
    then (getf (_channel_noise_level self) j
          / float_of_int (_initialization_samples self - 50))%Qc
    else getf (_channel_noise_level self) j.
Proof.
  induction n as [|n IH]; intros a self Hlen.
  - simpl. split; [apply same_control_refl|]. split; [reflexivity|].
    intros j. destruct (decide _); [lia|reflexivity].
  - cbn [seq finish_loop]. cbv zeta.
    match goal with
    | |- context [finish_loop (seq (S a) n) ?w] => remember w as self1 eqn:H1
    end.
    assert (Hc1 : same_control self self1)
      by (rewrite H1; unfold same_control; simpl; repeat split).
    assert (Hl1 : length (_channel_noise_level self1)
                  = length (_channel_noise_level self))
      by (rewrite H1; simpl; apply length_insert).
    destruct (IH (S a) self1) as (Hc & Hl & Hj); [lia|].
    split; [eapply same_control_trans; eassumption|]. split; [congruence|].
    intros j. rewrite Hj.
    destruct Hc1 as (_ & _ & _ & _ & HN & _). rewrite HN.
    destruct (decide (S a <= j < S a + n)) as [Hin|Hout].
    + destruct (decide (a <= j < a + S n)); [|lia].
      rewrite H1. simpl. rewrite getf_insert_ne by lia. reflexivity.
    + destruct (decide (j = a)) as [->|Hne].
      * destruct (decide (a <= a < a + S n)); [|lia].
        rewrite H1. simpl. rewrite getf_insert_eq by lia. reflexivity.
      * destruct (decide (a <= j < a + S n)); [lia|].
        rewrite H1. simpl. rewrite getf_insert_ne by lia. reflexivity.
Qed.

Lemma activity_loop_noise values : forall k self channel_activity,
  _channel_noise_level (fst (activity_loop k values self channel_activity))
  = _channel_noise_level self.
Proof.
  induction values as [|v values IH]; intros k self acc; [reflexivity|].
  cbn [activity_loop]. cbv zeta. rewrite IH. reflexivity.
Qed.

Lemma update_channel_indicator_noise self i strength :
  _channel_noise_level (_update_channel_indicator self i strength)
  = _channel_noise_level self.
Proof.
  unfold _update_channel_indicator.
  destruct (_channel_indicators self <=? i); reflexivity.
Qed.

Lemma indicator_loop_noise channel_activity : forall k self,
  _channel_noise_level (indicator_loop k channel_activity self)
  = _channel_noise_level self.
Proof.
  induction channel_activity as [|a rest IH]; intros k self; [reflexivity|].
  cbn [indicator_loop]. rewrite IH. apply update_channel_indicator_noise.
Qed.

(** The sample that ends a calibration phase: every accumulated noise level
    is divided by [N - 50], and nothing later in the handler touches it. *)
Lemma handle_final_sample self sample :
  _baseline_initialized self = false ->
  (_initialization_samples self < _packet_count self + 1)%Z ->
  length (channels_uv sample) = Config.EMG_CHANNELS ->
  buffer_ready self -> sized self ->
  forall j, j < Config.EMG_CHANNELS ->
    getf (_channel_noise_level (_handle_emg_sample self sample)) j
    = (getf (_channel_noise_level self) j
       / float_of_int (_initialization_samples self - 50))%Qc.
Proof.
  intros Hinit Hcount Hlen Hbuf (Hb & Hl & Hn) j Hj.
  destruct (append_ready self _ Hbuf Hlen) as (buffer & Happ & Hch & Hidx).
  set (self1 := set_packet_count (set_buffer self buffer) (_packet_count self + 1)).
  set (self2 := finish_loop (seq 0 Config.EMG_CHANNELS)
                  (set_baseline_initialized self1 true)).
  assert (Hnoise : _channel_noise_level (_handle_emg_sample self sample)
                   = _channel_noise_level self2).
  { unfold _handle_emg_sample. rewrite Happ. cbv zeta.
    change (set_packet_count (set_buffer self buffer)
              (_packet_count (set_buffer self buffer) + 1)) with self1.
    assert (_baseline_initialized self1 = false) as -> by exact Hinit.
    assert ((_packet_count self1 <=? _initialization_samples self1)%Z = false) as ->
      by (apply Z.leb_gt; exact Hcount).
    simpl andb. simpl negb. cbv iota. fold self2.
    match goal with
    | |- context [if ?c then _ else _] => destruct c
    end; [reflexivity|].
    match goal with
    | |- context [activity_loop 0 ?vs ?w ?acc] =>
        pose proof (activity_loop_noise vs 0 w acc) as Hact;
        destruct (activity_loop 0 vs w acc) as [self3 channel_activity]
    end.
    simpl in Hact. simpl _channel_noise_level.
    destruct (_packet_count self3 mod 5 =? 0)%Z;
      rewrite ?indicator_loop_noise; exact Hact. }
  rewrite Hnoise. unfold self2.
  destruct (finish_loop_spec Config.EMG_CHANNELS 0 (set_baseline_initialized self1 true))
    as (_ & _ & Hfin); [simpl; lia|].
  rewrite Hfin. destruct (decide _) as [_|Hout]; [reflexivity|lia].
Qed.

(** The sample that starts a periodic recalibration: the phase is reopened,
    with each channel's baseline, last value and noise level as they were. *)
Lemma handle_recalibration_start self sample :
  _baseline_initialized self = true ->
  (_packet_count self + 1 - _last_baseline_reset self > 6000)%Z ->
  forallb (fun state => (state =? 0)%Z) (_channel_current_state self) = true ->
  length (channels_uv sample) = Config.EMG_CHANNELS ->
  buffer_ready self ->
  _baseline_initialized (_handle_emg_sample self sample) = false /\
  _packet_count (_handle_emg_sample self sample) = 0%Z /\
  _channel_baseline (_handle_emg_sample self sample) = _channel_baseline self /\
  _channel_last_values (_handle_emg_sample self sample) = _channel_last_values self /\
  _channel_noise_level (_handle_emg_sample self sample) = _channel_noise_level self /\
  _initialization_samples (_handle_emg_sample self sample)
  = _initialization_samples self /\
  buffer_ready (_handle_emg_sample self sample).
Proof.
  intros Hinit Hcount Hidle Hlen Hbuf.
  destruct (append_ready self _ Hbuf Hlen) as (buffer & Happ & Hch & Hidx).
  unfold _handle_emg_sample. rewrite Happ. cbv zeta.
  set (self1 := set_packet_count (set_buffer self buffer)
                  (_packet_count (set_buffer self buffer) + 1)).
  assert (_baseline_initialized self1 = true) as -> by exact Hinit.
  simpl negb. simpl andb. cbv iota.
  assert ((_packet_count self + 1 - _last_baseline_reset self >? 6000)%Z = true) as ->
    by (apply Z.gtb_gt; exact Hcount).
  rewrite Hidle.
  simpl. repeat split; assumption.
Qed.

(** The noise level a calibration phase ends with.  Let a window be at the
    start of a calibration phase, the first or a later one: not initialized,
    packet count 0.  After the [N] samples of the phase and the sample that
    ends it, the noise level of a channel is what the accumulator held at the
    start plus the activity sum of the phase, divided by [N - 50].  It is the
    phase's noise floor when the accumulator started at zero, as it does in the
    first calibration. *)
Theorem calibration_phase_noise_level (self : MainWindow)
  (samples : list EmgSample) (final : EmgSample) (i : nat) :
  _baseline_initialized self = false ->
  _packet_count self = 0%Z ->
  Z.of_nat (length samples) = _initialization_samples self ->
  Forall (fun sample => length (channels_uv sample) = Config.EMG_CHANNELS)
    (samples ++ [final]) ->
  buffer_ready self -> sized self -> i < Config.EMG_CHANNELS ->
  getf (_channel_noise_level (handle_all self (samples ++ [final]))) i
  = ((getf (_channel_noise_level self) i
      + activity_sum 1 (getf (_channel_baseline self) i)
          (getf (_channel_last_values self) i) (column i samples))
     / float_of_int (_initialization_samples self - 50))%Qc /\
  (getf (_channel_noise_level self) i = fl 0 ->
   getf (_channel_noise_level (handle_all self (samples ++ [final]))) i
   = phase_noise_floor (_initialization_samples self)
       (getf (_channel_baseline self) i) (getf (_channel_last_values self) i)
       (column i samples)).
Proof.
  intros Hinit Hcount HN Hlens Hbuf Hsz Hi.
  apply Forall_app in Hlens as [Hlens Hfinal].
  apply Forall_cons in Hfinal as [Hfinal _].
  destruct (handle_calibration_samples samples self Hinit) as
    (Hi1 & Hc1 & Hn1 & Hb1 & Hs1 & Hj1); try assumption; [lia|].
  assert (Hend : getf (_channel_noise_level (handle_all self (samples ++ [final]))) i
    = ((getf (_channel_noise_level self) i
        + activity_sum 1 (getf (_channel_baseline self) i)
            (getf (_channel_last_values self) i) (column i samples))
       / float_of_int (_initialization_samples self - 50))%Qc).
  { rewrite handle_all_app. change (handle_all ?w [final]) with (_handle_emg_sample w final).
    rewrite handle_final_sample; try assumption; [|lia].
    rewrite Hn1. f_equal.
    pose proof (Hj1 i Hi) as Hch. unfold channel in Hch at 1.
    apply (f_equal snd) in Hch. simpl in Hch. rewrite Hch.
    unfold channel. rewrite calibrated_run_noise, Hcount. reflexivity. }
  split; [exact Hend|].
  intros H0. rewrite Hend, H0. unfold phase_noise_floor. f_equal.
  unfold fl, float in *. change (Q2Qc 0) with 0%Qc. ring.
Qed.

Lemma calibration_phase_noise_level_witness :
  getf (_channel_noise_level
          (handle_all init (first_calibration ++ [constant_sample 100]))) 0
  = ((getf (_channel_noise_level init) 0
      + activity_sum 1 (getf (_channel_baseline init) 0)
          (getf (_channel_last_values init) 0) (column 0 first_calibration))
     / float_of_int (_initialization_samples init - 50))%Qc /\
  (getf (_channel_noise_level init) 0 = fl 0 ->
   getf (_channel_noise_level
           (handle_all init (first_calibration ++ [constant_sample 100]))) 0
   = phase_noise_floor (_initialization_samples init)
       (getf (_channel_baseline init) 0) (getf (_channel_last_values init) 0)
       (column 0 first_calibration)).
Proof.
  apply (calibration_phase_noise_level init first_calibration (constant_sample 100) 0).
  - reflexivity.
  - reflexivity.
  - reflexivity.
  - unfold first_calibration. rewrite <- app_assoc.
    apply Forall_app. split; [apply Forall_replicate; reflexivity|].
    repeat constructor.
  - vm_compute. split; [reflexivity|lia].
  - vm_compute. repeat split.
  - vm_compute. lia.
Defined.

(** The noise level a periodic recalibration ends with.  When a sample starts
    a recalibration, the phase that follows ends with the noise level the
    channel had before, plus the activity sum of the phase, divided by
    [N - 50]: the previous noise floor stays in the accumulator. *)
Theorem recalibration_phase_noise_level (self : MainWindow)
  (start : EmgSample) (samples : list EmgSample) (final : EmgSample) (i : nat) :
  _baseline_initialized self = true ->
  (_packet_count self + 1 - _last_baseline_reset self > 6000)%Z ->
  forallb (fun state => (state =? 0)%Z) (_channel_current_state self) = true ->
  Z.of_nat (length samples) = _initialization_samples self ->
  Forall (fun sample => length (channels_uv sample) = Config.EMG_CHANNELS)
    (start :: samples ++ [final]) ->
  buffer_ready self -> sized self -> i < Config.EMG_CHANNELS ->
  getf (_channel_noise_level (handle_all self (start :: samples ++ [final]))) i
  = ((getf (_channel_noise_level self) i
      + activity_sum 1 (getf (_channel_baseline self) i)
          (getf (_channel_last_values self) i) (column i samples))
     / float_of_int (_initialization_samples self - 50))%Qc.
Proof.
  intros Hinit Hcount Hidle HN Hlens Hbuf Hsz Hi.
  apply Forall_cons in Hlens as [Hstart Hlens].
  destruct (handle_recalibration_start self start Hinit Hcount Hidle Hstart Hbuf)
    as (Hi1 & Hc1 & Hb1 & Hl1 & Hn1 & HN1 & Hbuf1).
  rewrite handle_all_cons.
  destruct (calibration_phase_noise_level (_handle_emg_sample self start)
              samples final i) as [Hend _]; try assumption.
  - congruence.
  - destruct Hsz as (? & ? & ?). unfold sized. rewrite Hb1, Hl1, Hn1. auto.
  - rewrite Hend, Hb1, Hl1, Hn1, HN1. reflexivity.
Qed.

Lemma recalibration_phase_noise_level_witness :
  getf (_channel_noise_level
          (handle_all
             (set_last_baseline_reset
                (set_packet_count (set_baseline_initialized init true) 7000) 501)
             (constant_sample 0 :: first_calibration ++ [constant_sample 100]))) 0
  = ((getf (_channel_noise_level init) 0
      + activity_sum 1 (getf (_channel_baseline init) 0)
          (getf (_channel_last_values init) 0) (column 0 first_calibration))
     / float_of_int (_initialization_samples init - 50))%Qc.
Proof.
  apply (recalibration_phase_noise_level
           (set_last_baseline_reset
              (set_packet_count (set_baseline_initialized init true) 7000) 501)
           (constant_sample 0) first_calibration (constant_sample 100) 0).
  - reflexivity.
  - vm_compute. reflexivity.
  - reflexivity.
  - reflexivity.
  - constructor; [reflexivity|].
    unfold first_calibration. rewrite <- app_assoc.
    apply Forall_app. split; [apply Forall_replicate; reflexivity|].
    repeat constructor.
  - vm_compute. split; [reflexivity|lia].
  - vm_compute. repeat split.
  - vm_compute. lia.
Defined.

(** C7.  The code at the stream [first_calibration ++ idle_run ++
    recalibration]: the first calibration ends with the noise level the
    activity sum of its samples gives, 31/15 on every channel.  The periodic
    recalibration then starts with that level still in the accumulator, and it
    ends with 31/6750 = (31/15 + 0) / 450 on every channel, where the activity
    sum of its own samples, all at the baseline, gives 0. *)
Theorem recalibration_keeps_old_noise_sum :
  (map this (_channel_noise_level after_first_calibration) = replicate 8 (31 # 15)%Q /\
   this (phase_noise_floor 500 (fl 0) (fl 0) (replicate 499 (fl 0) ++ [fl 1000]))
   = (31 # 15)%Q) /\
  (_baseline_initialized at_recalibration = false /\
   _packet_count at_recalibration = 0%Z /\
   map this (_channel_baseline at_recalibration) = replicate 8 100%Q /\
   map this (_channel_last_values at_recalibration) = replicate 8 100%Q /\
   map this (_channel_noise_level at_recalibration) = replicate 8 (31 # 15)%Q) /\
  (_baseline_initialized after_recalibration = true /\
   map this (_channel_noise_level after_recalibration) = replicate 8 (31 # 6750)%Q /\
   this (phase_noise_floor 500 (fl 100) (fl 100) (replicate 500 (fl 100))) = 0%Q).
Proof. vm_compute. repeat split. Qed.

End CalibrationFacts.

(** ** data_parser.py: the samples [parse_packet] returns *)

Module SampleFacts.

Import DataParser ParserFacts.

Lemma float_of_int_inj a b : float_of_int a = float_of_int b -> a = b.
Proof.
  unfold float_of_int. intros H. apply (f_equal this) in H. simpl in H.
  assert (He : (inject_Z a == inject_Z b)%Q).
  { rewrite <- (Qred_correct (inject_Z a)), <- (Qred_correct (inject_Z b)), H.
    reflexivity. }
  unfold Qeq in He. simpl in He. lia.
Qed.

Lemma scaled_inj (c : float) a b :
  c <> 0%Qc -> (float_of_int a * c)%Qc = (float_of_int b * c)%Qc -> a = b.
Proof.
  intros Hc H. apply float_of_int_inj.
  unfold float in *.
  assert (Hx : forall x : Qc, x = (x * c / c)%Qc) by (intros x; field; exact Hc).
  rewrite (Hx (float_of_int a)), (Hx (float_of_int b)). unfold float_of_int in *.
  rewrite H. reflexivity.
Qed.

Lemma fl_nonzero q : Qeq_bool q 0 = false -> fl q <> 0%Qc.
Proof.
  intros H E. apply (f_equal this) in E. unfold fl in E. simpl in E.
  assert (Hq : (q == 0)%Q) by (rewrite <- (Qred_correct q), E; reflexivity).
  apply Qeq_bool_iff in Hq. congruence.
Qed.

Lemma big_endian_inj bs : forall bs',
  length bs = length bs' -> big_endian bs = big_endian bs' -> bs = bs'.
Proof.
  induction bs as [|b bs IH] using rev_ind; intros bs' Hlen Heq.
  - destruct bs'; [reflexivity|discriminate].
  - destruct bs' as [|b' bs' _] using rev_ind.
    { rewrite length_app in Hlen. simpl in Hlen. lia. }
    rewrite !big_endian_app in Heq. rewrite !length_app in Hlen. simpl in Hlen.
    pose proof (byte_val_bounds b). pose proof (byte_val_bounds b').
    assert (big_endian bs = big_endian bs' /\ byte_val b = byte_val b') as [H1 H2] by lia.
    rewrite (IH bs') by (assumption || lia).
    rewrite (byte_val_inj _ _ H2). reflexivity.
Qed.

Lemma twos_complement_inj w v v' :
  (1 <= w)%Z -> (0 <= v < 2 ^ w)%Z -> (0 <= v' < 2 ^ w)%Z ->
  twos_complement w v = twos_complement w v' -> v = v'.
Proof.
  intros Hw Hv Hv' H.
  destruct (twos_complement_range w v Hw Hv) as [_ <-].
  destruct (twos_complement_range w v' Hw Hv') as [_ <-].
  rewrite H. reflexivity.
Qed.

(** The bytes of a group are determined by its signed value. *)
Lemma group_value_inj raw raw' width k :
  1 <= width ->
  5 + k * width + width <= length raw ->
  5 + k * width + width <= length raw' ->
  group_value raw width k = group_value raw' width k ->
  slice raw (5 + k * width) (5 + k * width + width)
  = slice raw' (5 + k * width) (5 + k * width + width).
Proof.
  intros Hw Hl Hl' H. unfold group_value in H.
  set (g := slice raw _ _) in *. set (g' := slice raw' _ _) in *.
  assert (Hg : length g = width) by (unfold g; rewrite length_slice; lia).
  assert (Hg' : length g' = width) by (unfold g'; rewrite length_slice; lia).
  pose proof (big_endian_bounds g) as Hb. pose proof (big_endian_bounds g') as Hb'.
  rewrite Hg in Hb. rewrite Hg' in Hb'.
  apply big_endian_inj; [congruence|].
  apply (twos_complement_inj (8 * Z.of_nat width)); (lia || assumption).
Qed.

Lemma group_value_range raw width k :
  1 <= width -> 5 + k * width + width <= length raw ->
  (- 2 ^ (8 * Z.of_nat width - 1) <= group_value raw width k
   < 2 ^ (8 * Z.of_nat width - 1))%Z.
Proof.
  intros Hw Hl. unfold group_value.
  set (g := slice raw _ _).
  assert (Hg : length g = width) by (unfold g; rewrite length_slice; lia).
  pose proof (big_endian_bounds g) as Hb. rewrite Hg in Hb.
  apply twos_complement_range; [lia|exact Hb].
Qed.

(** [parse_packet] returns a sample or raises [PacketError]. *)
Lemma parse_packet_outcome raw :
  (exists s, parse_packet raw = Ok s) \/
  (exists why, parse_packet raw = Raise (PacketError why)).
Proof.
  destruct (parse_packet_cases raw) as
    [[_ Hp]|[[_ [_ Hp]]|[_ [_ [b3 [sq [_ [_ Hc]]]]]]]]; [eauto|eauto|].
  destruct Hc as [[_ [s [Hp _]]]|[[_ [s [Hp _]]]|[_ [_ Hp]]]]; eauto.
Qed.

(** What a returned [EmgSample] was decoded from. *)
Lemma parse_packet_Emg raw s :
  parse_packet raw = Ok (Emg s) ->
  length raw = 29 /\ take 3 raw = HEADER /\ raw !! 3 = Some xaa /\
  (exists sq, raw !! 4 = Some sq /\ emg_sequence s = byte_val sq) /\
  channels_uv s = map (fun k => float_of_int (group_value raw 3 k)) (seq 0 8).
Proof.
  intros Hp.
  destruct (parse_packet_cases raw) as
    [[_ Hr]|[[_ [_ Hr]]|[Hlen [Hhd [b3 [sq [H3 [H4 Hc]]]]]]]]; try congruence.
  destruct Hc as [[-> [s' [Hp' [Hsq Hs]]]]|[[_ [s' [Hp' _]]]|[_ [_ Hr]]]];
    try congruence.
  assert (s' = s) as -> by congruence.
  split; [exact Hlen|]. split; [exact Hhd|]. split; [exact H3|].
  split; [exists sq; split; assumption|exact Hs].
Qed.

(** What a returned [ImuSample] was decoded from. *)
Lemma parse_packet_Imu raw s :
  parse_packet raw = Ok (Imu s) ->
  length raw = 29 /\ take 3 raw = HEADER /\ raw !! 3 = Some xbb /\
  (exists sq, raw !! 4 = Some sq /\ imu_sequence s = byte_val sq) /\
  gyro_rads s
  = map (fun k => (float_of_int (group_value raw 2 k) * fl 0.0012)%Qc) (seq 0 3) /\
  accel_mss s
  = map (fun k => (float_of_int (group_value raw 2 k) * fl 0.0005978)%Qc) (seq 3 3) /\
  remainder s = map (group_value raw 2) (seq 6 6).
Proof.
  intros Hp.
  destruct (parse_packet_cases raw) as
    [[_ Hr]|[[_ [_ Hr]]|[Hlen [Hhd [b3 [sq [H3 [H4 Hc]]]]]]]]; try congruence.
  destruct Hc as [[_ [s' [Hp' _]]]|[[-> [s' [Hp' Hsq]]]|[_ [_ Hr]]]];
    try congruence.
  rewrite (parse_packet_imu raw sq Hlen Hhd H3 H4) in Hp.
  injection Hp as <-. simpl.
  split; [exact Hlen|]. split; [exact Hhd|]. split; [exact H3|].
  split; [exists sq; split; [assumption|reflexivity]|]. auto.
Qed.

(** X1.  Every [EmgSample] that [parse_packet] returns has eight channels, as many
    as [config.EMG_CHANNELS]; its sequence number is a byte value, 0..255; and
    every channel is an integer of the signed 24-bit range, -8388608..8388607,
    converted to a float. *)
Theorem emg_sample_shape (raw : list byte) (s : EmgSample) :
  parse_packet raw = Ok (Emg s) ->
  length (channels_uv s) = Config.EMG_CHANNELS /\
  (0 <= emg_sequence s <= 255)%Z /\
  Forall (fun ch => exists v : Z,
            ch = float_of_int v /\ (-8388608 <= v <= 8388607)%Z)
    (channels_uv s).
Proof.
  intros Hp.
  destruct (parse_packet_Emg raw s Hp) as (Hlen & _ & _ & (sq & _ & Hsq) & Hch).
  rewrite Hch. split; [reflexivity|].
  split; [rewrite Hsq; pose proof (byte_val_bounds sq); lia|].
  apply Forall_map. apply Forall_forall. intros k Hk. apply elem_of_seq in Hk.
  exists (group_value raw 3 k). split; [reflexivity|].
  pose proof (group_value_range raw 3 k) as Hr.
  change (2 ^ (8 * Z.of_nat 3 - 1))%Z with 8388608%Z in Hr. lia.
Qed.

Lemma emg_sample_shape_witness :
  parse_packet frame0 = Ok (Emg (mkEmgSample 1 (replicate 8 (float_of_int 0)))) /\
  length (replicate 8 (float_of_int 0)) = Config.EMG_CHANNELS /\
  (0 <= 1 <= 255)%Z /\
  Forall (fun ch => exists v : Z,
            ch = float_of_int v /\ (-8388608 <= v <= 8388607)%Z)
    (replicate 8 (float_of_int 0)).
Proof.
  split; [vm_compute; reflexivity|].
  apply (emg_sample_shape frame0 (mkEmgSample 1 (replicate 8 (float_of_int 0)))).
  vm_compute. reflexivity.
Defined.

(** X2.  Every [ImuSample] that [parse_packet] returns is made of the twelve
    16-bit groups of the payload, in order: the first three times 0.0012 are
    the gyroscope values, the next three times 0.0005978 the accelerations, the
    last six, unscaled, the remainder; each group is in the signed 16-bit
    range -32768..32767 and the sequence number is a byte value. *)
Theorem imu_sample_shape (raw : list byte) (s : ImuSample) :
  parse_packet raw = Ok (Imu s) ->
  (0 <= imu_sequence s <= 255)%Z /\
  gyro_rads s
  = map (fun k => (float_of_int (group_value raw 2 k) * fl 0.0012)%Qc) [0; 1; 2] /\
  accel_mss s
  = map (fun k => (float_of_int (group_value raw 2 k) * fl 0.0005978)%Qc) [3; 4; 5] /\
  remainder s = map (group_value raw 2) [6; 7; 8; 9; 10; 11] /\
  (forall k, k < 12 -> (-32768 <= group_value raw 2 k <= 32767)%Z).
Proof.
  intros Hp.
  destruct (parse_packet_Imu raw s Hp)
    as (Hlen & _ & _ & (sq & _ & Hsq) & Hg & Ha & Hr).
  split; [rewrite Hsq; pose proof (byte_val_bounds sq); lia|].
  split; [exact Hg|]. split; [exact Ha|]. split; [exact Hr|].
  intros k Hk. pose proof (group_value_range raw 2 k) as Hrange.
  change (2 ^ (8 * Z.of_nat 2 - 1))%Z with 32768%Z in Hrange. lia.
Qed.


Lemma imu_sample_shape_witness :
  exists s, parse_packet imu_frame0 = Ok (Imu s) /\
    (0 <= imu_sequence s <= 255)%Z /\
    gyro_rads s
    = map (fun k => (float_of_int (group_value imu_frame0 2 k) * fl 0.0012)%Qc)
        [0; 1; 2] /\
    accel_mss s
    = map (fun k => (float_of_int (group_value imu_frame0 2 k) * fl 0.0005978)%Qc)
        [3; 4; 5] /\
    remainder s = map (group_value imu_frame0 2) [6; 7; 8; 9; 10; 11] /\
    (forall k, k < 12 -> (-32768 <= group_value imu_frame0 2 k <= 32767)%Z).
Proof.
  destruct (parse_packet imu_frame0) as [[s|s]|e] eqn:Hp;
    [vm_compute in Hp; discriminate Hp| |vm_compute in Hp; discriminate Hp].
  exists s. split; [reflexivity|].
  apply (imu_sample_shape imu_frame0 s). exact Hp.
Defined.

Lemma map_seq_inj {A} (f g : nat -> A) a n k :
  map f (seq a n) = map g (seq a n) -> a <= k < a + n -> f k = g k.
Proof.
  intros H Hk. apply (f_equal (fun l => l !! (k - a))) in H.
  rewrite !list_lookup_fmap, lookup_seq_lt in H by lia. simpl in H.
  replace (a + (k - a)) with k in H by lia. congruence.
Qed.

Lemma lookup_slice {A} (l : list A) i j r :
  r < j - i -> slice l i j !! r = l !! (i + r).
Proof.
  intros Hr. unfold slice. rewrite lookup_take_lt by exact Hr. apply lookup_drop.
Qed.

(** Two packets with the same first five bytes and the same groups are the
    same packet. *)
Lemma packet_eq (raw raw' : list byte) width n :
  1 <= width ->
  length raw = 5 + n * width -> length raw' = 5 + n * width ->
  take 3 raw = take 3 raw' -> raw !! 3 = raw' !! 3 -> raw !! 4 = raw' !! 4 ->
  (forall k, k < n ->
     slice raw (5 + k * width) (5 + k * width + width)
     = slice raw' (5 + k * width) (5 + k * width + width)) ->
  raw = raw'.
Proof.
  intros Hw Hlen Hlen' Hhd H3 H4 Hk. apply list_eq. intros i.
  destruct (Nat.lt_ge_cases i 3) as [Hi|Hi].
  { apply (f_equal (fun l : list byte => l !! i)) in Hhd.
    rewrite !lookup_take_lt in Hhd by exact Hi. exact Hhd. }
  destruct (Nat.eq_dec i 3) as [->|]; [exact H3|].
  destruct (Nat.eq_dec i 4) as [->|]; [exact H4|].
  destruct (Nat.lt_ge_cases i (5 + n * width)) as [Hin|Hout].
  - pose proof (Nat.div_mod_eq (i - 5) width) as Hdm.
    pose proof (Nat.mod_upper_bound (i - 5) width ltac:(lia)) as Hr.
    assert (Hq : (i - 5) / width < n).
    { apply Nat.Div0.div_lt_upper_bound. lia. }
    specialize (Hk _ Hq).
    apply (f_equal (fun l : list byte => l !! ((i - 5) mod width))) in Hk.
    rewrite !lookup_slice in Hk by lia.
    replace (5 + (i - 5) / width * width + (i - 5) mod width) with i in Hk by lia.
    exact Hk.
  - rewrite !lookup_ge_None_2 by lia. reflexivity.
Qed.

(** X3.  [parse_packet] loses nothing: two packets decoded to the same sample
    are the same 29 bytes. *)
Theorem parse_packet_injective (raw raw' : list byte) (s : sample) :
  parse_packet raw = Ok s -> parse_packet raw' = Ok s -> raw = raw'.
Proof.
  intros Hp Hp'. destruct s as [s|s].
  - destruct (parse_packet_Emg raw s Hp) as (Hlen & Hhd & H3 & (sq & H4 & Hsq) & Hch).
    destruct (parse_packet_Emg raw' s Hp') as (Hlen' & Hhd' & H3' & (sq' & H4' & Hsq') & Hch').
    assert (sq' = sq) as -> by (apply byte_val_inj; congruence).
    apply (packet_eq raw raw' 3 8);
      [lia|exact Hlen|exact Hlen'|congruence|congruence|congruence|].
    intros k Hk. apply group_value_inj; try lia. apply float_of_int_inj.
    rewrite Hch' in Hch.
    symmetry. apply (map_seq_inj _ _ 0 8 k Hch). lia.
  - destruct (parse_packet_Imu raw s Hp)
      as (Hlen & Hhd & H3 & (sq & H4 & Hsq) & Hg & Ha & Hr).
    destruct (parse_packet_Imu raw' s Hp')
      as (Hlen' & Hhd' & H3' & (sq' & H4' & Hsq') & Hg' & Ha' & Hr').
    assert (sq' = sq) as -> by (apply byte_val_inj; congruence).
    apply (packet_eq raw raw' 2 12);
      [lia|exact Hlen|exact Hlen'|congruence|congruence|congruence|].
    intros k Hk. apply group_value_inj; try lia.
    rewrite Hg' in Hg. rewrite Ha' in Ha. rewrite Hr' in Hr.
    destruct (Nat.lt_ge_cases k 3); [|destruct (Nat.lt_ge_cases k 6)].
    + apply (scaled_inj (fl 0.0012)); [apply fl_nonzero; reflexivity|].
      symmetry. apply (map_seq_inj _ _ 0 3 k Hg). lia.
    + apply (scaled_inj (fl 0.0005978)); [apply fl_nonzero; reflexivity|].
      symmetry. apply (map_seq_inj _ _ 3 3 k Ha). lia.
    + symmetry. apply (map_seq_inj _ _ 6 6 k Hr). lia.
Qed.


Lemma parse_packet_injective_witness :
  parse_packet frame0 = Ok (Emg (mkEmgSample 1 (replicate 8 (float_of_int 0)))) /\
  frame0 = frame0.
Proof.
  split; [vm_compute; reflexivity|].
  apply (parse_packet_injective frame0 frame0
           (Emg (mkEmgSample 1 (replicate 8 (float_of_int 0)))));
    vm_compute; reflexivity.
Defined.

End SampleFacts.

(** ** device_manager.py and the packets of the framing loop *)

Module StreamFacts.

Import DataParser SerialDevice ParserFacts SerialFacts SampleFacts.

(** X5.  [DeviceManager._handle_notification] never raises; it calls [on_packet]
    at most once, with the sample [parse_packet] returns for the
    notification's bytes when it returns one; and what it hands to [on_packet]
    is what the serial loop hands over for the same bytes cut out as a
    packet. *)
Theorem handle_notification_calls (data : list byte) :
  (exists calls,
     DeviceManager._handle_notification data = Ok calls /\ length calls <= 1) /\
  (forall packet,
     DeviceManager._handle_notification data = Ok [packet]
     <-> parse_packet data = Ok packet) /\
  DeviceManager._handle_notification data = Ok (on_packet_calls [data]).
Proof.
  unfold DeviceManager._handle_notification, on_packet_calls. simpl.
  destruct (parse_packet_outcome data) as [[s ->]|[why ->]]; simpl.
  - split; [exists [s]; split; [reflexivity|simpl; lia]|].
    split; [|reflexivity].
    intros packet. split; intros H; congruence.
  - split; [exists []; split; [reflexivity|simpl; lia]|].
    split; [|reflexivity].
    intros packet. split; intros H; discriminate.
Qed.

(** A packet of the framing loop parses, or its type byte is unknown. *)
Lemma framed_parse packet :
  framed packet ->
  (exists s, parse_packet packet = Ok s /\
             sequence_byte packet = Some (sequence s)) \/
  (exists b3, packet !! 3 = Some b3 /\
              parse_packet packet = Raise (PacketError (UnknownType (byte_val b3))) /\
              sequence_byte packet = None).
Proof.
  intros [Hlen Hhd]. unfold PACKET_LENGTH in Hlen.
  change EXPECTED_HEADER with HEADER in Hhd.
  destruct (parse_packet_cases packet) as
    [[Hne _]|[[_ [Hne _]]|[_ [_ [b3 [sq [H3 [H4 Hc]]]]]]]]; [congruence|congruence|].
  unfold sequence_byte, known_type. rewrite H3, H4.
  destruct Hc as [[-> [s [Hp [Hsq _]]]]|[[-> [s [Hp Hsq]]]|[Haa [Hbb Hp]]]].
  - left. exists (Emg s). split; [exact Hp|]. simpl. rewrite Hsq. reflexivity.
  - left. exists (Imu s). split; [exact Hp|]. simpl. rewrite Hsq. reflexivity.
  - right. exists b3. split; [reflexivity|]. split; [exact Hp|].
    destruct (Byte.eqb b3 xaa) eqn:Ea; [apply byte_dec_bl in Ea; congruence|].
    destruct (Byte.eqb b3 xbb) eqn:Eb; [apply byte_dec_bl in Eb; congruence|].
    reflexivity.
Qed.

(** What the inner loop cuts out and what it leaves: every packet is
    [framed], and the buffer left is an end of the buffer it started from,
    shorter by at least the packets cut. *)
Lemma scan_packets fuel : forall buffer packets buffer',
  scan fuel buffer = Some (packets, buffer') ->
  Forall framed packets /\
  (exists dropped, buffer = dropped ++ buffer') /\
  PACKET_LENGTH * length packets + length buffer' <= length buffer.
Proof.
  unfold framed, PACKET_LENGTH.
  induction fuel as [|fuel IH]; intros buffer packets buffer';
    rewrite scan_eq; unfold PACKET_LENGTH.
  - destruct (Nat.ltb_spec (length buffer) 29); [|discriminate].
    intros [= <- <-]. split; [constructor|]. split; [exists []; reflexivity|simpl; lia].
  - destruct (Nat.ltb_spec (length buffer) 29).
    { intros [= <- <-]. split; [constructor|].
      split; [exists []; reflexivity|simpl; lia]. }
    destruct (find buffer EXPECTED_HEADER) as [pos|] eqn:Hfind.
    + rewrite drop_if_pos. cbv zeta.
      destruct (Nat.ltb_spec (length (drop pos buffer)) 29).
      { intros [= <- <-]. split; [constructor|].
        split; [exists (take pos buffer); symmetry; apply take_drop|].
        rewrite length_drop. simpl. lia. }
      destruct (scan fuel (drop 29 (drop pos buffer))) as [[packets0 buffer0]|] eqn:Hrec;
        [|discriminate].
      intros [= <- <-].
      destruct (IH _ _ _ Hrec) as (Hpk & (dropped & Hd) & Hlen).
      apply find_Some in Hfind as [Hocc _]. unfold occurs_at in Hocc.
      simpl length in Hocc.
      split; [|split].
      * constructor; [|exact Hpk]. split.
        -- rewrite length_take. lia.
        -- rewrite take_take. exact Hocc.
      * exists (take pos buffer ++ take 29 (drop pos buffer) ++ dropped).
        rewrite <- !app_assoc, <- Hd, !take_drop. reflexivity.
      * rewrite !length_drop in *. simpl length. lia.
    + intros [= <- <-]. split; [constructor|].
      destruct (Nat.ltb_spec 29 (length buffer)).
      * unfold last_n. split; [eexists; symmetry; apply take_drop|].
        rewrite length_drop. simpl. lia.
      * split; [exists []; reflexivity|simpl; lia].
Qed.

(** X6.  Whatever the accumulator and the bytes read, a pass of the read loop
    ends, and every packet it cuts out has 29 bytes and starts with the header;
    so [parse_packet] accepts it or rejects it for its type byte, never for its
    length or its header. *)
Theorem cut_packets_well_formed (buffer data : list byte) :
  exists packets buffer',
    read_pass buffer data = Some (packets, buffer') /\
    Forall (fun packet =>
              length packet = PACKET_LENGTH /\
              startswith packet EXPECTED_HEADER = true /\
              ((exists s, parse_packet packet = Ok s) \/
               (exists b3, packet !! 3 = Some b3 /\
                  parse_packet packet
                  = Raise (PacketError (UnknownType (byte_val b3))))))
      packets.
Proof.
  destruct (scan_spec (length (buffer ++ data)) (buffer ++ data) (le_n _))
    as (packets & buffer' & Hscan & _).
  exists packets, buffer'. split; [exact Hscan|].
  destruct (scan_packets _ _ _ _ Hscan) as (Hpk & _).
  eapply Forall_impl; [exact Hpk|]. intros packet Hf. simpl.
  split; [apply Hf|]. split; [apply startswith_take; apply Hf|].
  destruct (framed_parse packet Hf) as [(s & Hp & _)|(b3 & H3 & Hp & _)]; eauto.
Qed.

(** X7.  A pass of the read loop only removes bytes: the accumulator it leaves is
    an end of the accumulator it started from followed by the bytes read, and
    29 bytes are gone for every packet cut out; fewer than 29 bytes in all are
    all kept and no packet is cut. *)
Theorem read_pass_accounts_bytes (buffer data : list byte) :
  exists packets buffer',
    read_pass buffer data = Some (packets, buffer') /\
    (exists dropped, buffer ++ data = dropped ++ buffer') /\
    PACKET_LENGTH * length packets + length buffer' <= length buffer + length data /\
    (length buffer + length data < PACKET_LENGTH ->
     packets = [] /\ buffer' = buffer ++ data).
Proof.
  destruct (scan_spec (length (buffer ++ data)) (buffer ++ data) (le_n _))
    as (packets & buffer' & Hscan & _).
  exists packets, buffer'. split; [exact Hscan|].
  destruct (scan_packets _ _ _ _ Hscan) as (_ & Hsuffix & Hlen).
  split; [exact Hsuffix|]. rewrite length_app in Hlen. split; [exact Hlen|].
  intros Hshort. unfold read_pass in Hscan. cbv zeta in Hscan.
  rewrite scan_eq in Hscan.
  destruct (Nat.ltb_spec (length (buffer ++ data)) PACKET_LENGTH) as [_|Hge].
  - injection Hscan as <- <-. split; reflexivity.
  - rewrite length_app in Hge. lia.
Qed.

Lemma length_concat_framed frames :
  Forall framed frames -> length (concat frames) = PACKET_LENGTH * length frames.
Proof.
  induction 1 as [|frame frames [Hlen _] _ IH]; [reflexivity|].
  simpl concat. rewrite length_app, IH, Hlen. simpl length. lia.
Qed.

(** A buffer that starts at a packet boundary: the loop cuts every complete
    packet and leaves the incomplete one. *)
Lemma scan_aligned frames : forall fuel partial,
  Forall framed frames -> length partial < PACKET_LENGTH ->
  length (concat frames ++ partial) <= fuel ->
  scan fuel (concat frames ++ partial) = Some (frames, partial).
Proof.
  induction frames as [|frame frames IH]; intros fuel partial Hfr Hpart Hfuel;
    rewrite scan_eq.
  - simpl app. destruct (Nat.ltb_spec (length partial) PACKET_LENGTH); [reflexivity|lia].
  - apply Forall_cons in Hfr as [[Hlen Hhd] Hfr].
    simpl concat in *. rewrite <- app_assoc in *.
    rewrite length_app, Hlen in Hfuel.
    destruct (Nat.ltb_spec (length (frame ++ concat frames ++ partial)) PACKET_LENGTH)
      as [Hshort|_]; [rewrite length_app in Hshort; lia|].
    destruct fuel as [|fuel]; [unfold PACKET_LENGTH in Hfuel; lia|].
    assert (Hstart : startswith (frame ++ concat frames ++ partial) EXPECTED_HEADER = true).
    { apply startswith_take. simpl length.
      rewrite take_app_le by (rewrite Hlen; unfold PACKET_LENGTH; lia). exact Hhd. }
    rewrite find_eq, Hstart. cbv zeta. rewrite !drop_if_pos, !drop_0.
    destruct (Nat.ltb_spec (length (frame ++ concat frames ++ partial)) PACKET_LENGTH)
      as [Hshort|_]; [rewrite length_app in Hshort; lia|].
    rewrite <- Hlen, drop_app_length, take_app_length.
    rewrite IH; [reflexivity|exact Hfr|exact Hpart|].
    unfold PACKET_LENGTH in Hfuel. lia.
Qed.

(** The bytes read so far of a stream of packets: complete packets and the
    start of the next one. *)
Lemma split_aligned frames : forall (read rest : list byte),
  Forall framed frames -> read ++ rest = concat frames ->
  exists j partial,
    read = concat (take j frames) ++ partial /\
    length partial < PACKET_LENGTH /\
    partial ++ rest = concat (drop j frames).
Proof.
  induction frames as [|frame frames IH]; intros read rest Hfr Heq.
  - simpl in Heq. apply app_eq_nil in Heq as [-> ->].
    exists 0, []. unfold PACKET_LENGTH. simpl. repeat split; lia.
  - apply Forall_cons in Hfr as [[Hlen Hhd] Hfr].
    destruct (Nat.lt_ge_cases (length read) PACKET_LENGTH) as [Hshort|Hlong].
    + exists 0, read. simpl. repeat split; assumption.
    + simpl concat in Heq.
      assert (Hread : read = frame ++ drop PACKET_LENGTH read).
      { rewrite <- (take_drop PACKET_LENGTH read) at 1. f_equal.
        apply (f_equal (take PACKET_LENGTH)) in Heq.
        rewrite take_app_le in Heq by exact Hlong.
        rewrite <- Hlen in Heq at 2. rewrite take_app_length in Heq. exact Heq. }
      rewrite Hread, <- app_assoc in Heq. apply app_inv_head in Heq.
      destruct (IH _ _ Hfr Heq) as (j & partial & Hj & Hp & Hrest).
      exists (S j), partial. simpl. rewrite <- app_assoc, <- Hj.
      repeat split; assumption.
Qed.

Lemma read_all_aligned reads : forall buffer frames,
  Forall framed frames -> length buffer < PACKET_LENGTH ->
  buffer ++ concat reads = concat frames ->
  read_all buffer reads = Some (frames, []).
Proof.
  induction reads as [|data reads IH]; intros buffer frames Hfr Hbuf Heq.
  - simpl concat in Heq. rewrite app_nil_r in Heq. subst buffer.
    rewrite length_concat_framed in Hbuf by exact Hfr.
    destruct frames; [reflexivity|].
    unfold PACKET_LENGTH in Hbuf. simpl length in Hbuf. lia.
  - simpl concat in Heq. rewrite app_assoc in Heq.
    destruct (split_aligned frames _ _ Hfr Heq) as (j & partial & Hj & Hp & Hrest).
    simpl. unfold read_pass. cbv zeta. rewrite Hj.
    rewrite scan_aligned; [|apply Forall_take; exact Hfr|exact Hp|lia].
    rewrite (IH partial (drop j frames)); [|apply Forall_drop; exact Hfr|exact Hp|exact Hrest].
    rewrite take_drop. reflexivity.
Qed.

(** X8.  A stream that is in step stays in step: for packets of 29 bytes that
    each start with the header, whatever their payload bytes, and for every
    split of their concatenation into reads, the read loop cuts out exactly
    these packets, in order, and leaves the accumulator empty. *)
Theorem aligned_stream_in_sync (frames reads : list (list byte)) :
  Forall (fun frame =>
            length frame = PACKET_LENGTH /\ take 3 frame = EXPECTED_HEADER) frames ->
  concat reads = concat frames ->
  read_all [] reads = Some (frames, []).
Proof.
  intros Hfr Heq. apply read_all_aligned.
  - exact Hfr.
  - unfold PACKET_LENGTH. simpl. lia.
  - exact Heq.
Qed.

Lemma aligned_stream_in_sync_witness :
  read_all [] reads2 = Some ([frame0; imu_frame0], []).
Proof.
  apply (aligned_stream_in_sync [frame0; imu_frame0] reads2).
  - repeat constructor.
  - reflexivity.
Defined.

Lemma on_packet_calls_cons packet packets :
  on_packet_calls (packet :: packets)
  = match parse_packet packet with
    | Ok s => s :: on_packet_calls packets
    | Raise _ => on_packet_calls packets
    end.
Proof. unfold on_packet_calls. simpl. destruct (parse_packet packet); reflexivity. Qed.

Lemma on_packet_calls_sequence packets :
  Forall framed packets ->
  map sequence (on_packet_calls packets) = omap sequence_byte packets.
Proof.
  induction 1 as [|packet packets Hf _ IH]; [reflexivity|].
  rewrite on_packet_calls_cons. simpl omap.
  destruct (framed_parse packet Hf) as [(s & -> & ->)|(b3 & _ & -> & ->)].
  - simpl. rewrite IH. reflexivity.
  - exact IH.
Qed.

(** X9.  For such a stream, split into reads in any way, [on_packet] receives one
    sample for every packet whose type byte is [0xAA] or [0xBB], in order and
    with the packet's fifth byte as its sequence number; a packet of another
    type is dropped and does not disturb the packets after it. *)
Theorem delivered_sequence_numbers (frames reads : list (list byte)) :
  Forall (fun frame =>
            length frame = PACKET_LENGTH /\ take 3 frame = EXPECTED_HEADER) frames ->
  concat reads = concat frames ->
  exists packets,
    read_all [] reads = Some (packets, []) /\
    map sequence (on_packet_calls packets) = omap sequence_byte frames /\
    length (on_packet_calls packets)
    = length (List.filter known_type frames).
Proof.
  intros Hfr Heq. exists frames.
  split; [apply read_all_aligned; [exact Hfr|unfold PACKET_LENGTH; simpl; lia|exact Heq]|].
  split; [apply on_packet_calls_sequence; exact Hfr|].
  clear Heq reads. induction Hfr as [|frame frames Hf _ IH]; [reflexivity|].
  rewrite on_packet_calls_cons. simpl List.filter.
  destruct (framed_parse frame Hf) as [(s & -> & Hs)|(b3 & _ & -> & Hs)];
    unfold sequence_byte in Hs; destruct (known_type frame).
  - simpl. rewrite IH. reflexivity.
  - discriminate.
  - destruct Hf as [Hlen _]. unfold PACKET_LENGTH in Hlen.
    destruct (lookup_lt_is_Some_2 frame 4 ltac:(lia)) as [sq Hsq].
    rewrite Hsq in Hs. discriminate.
  - exact IH.
Qed.

Lemma delivered_sequence_numbers_witness :
  exists packets,
    read_all [] reads2 = Some (packets, []) /\
    map sequence (on_packet_calls packets) = [1%Z; 2%Z] /\
    length (on_packet_calls packets) = 2.
Proof.
  apply (delivered_sequence_numbers [frame0; imu_frame0] reads2).
  - repeat constructor.
  - reflexivity.
Defined.

End StreamFacts.

(** ** buffers.py: [clear] and the sliding window *)

Module WindowOfRows.
Import Buffers BuffersFacts BufferSpec.

Section RingBuffer.

Context {V : Type}.
Variable zero : V.
Variable float32 : V -> V.

Local Abbreviation append := (append float32).
Local Abbreviation append_all := (append_all float32).
Local Abbreviation holds := (holds float32).

Lemma init_shaped m c : shaped m c (init zero m c).
Proof.
  unfold shaped, init. simpl. rewrite length_replicate.
  repeat split. apply Forall_replicate. apply length_replicate.
Qed.

Lemma append_shaped m c self values :
  shaped m c self -> shaped m c (fst (append self values)).
Proof.
  intros (Hm & Hc & Hlen & Hcols). unfold Buffers.append.
  destruct (Nat.eqb_spec (length values) (channels self)) as [Hv|_]; simpl negb;
    cbv iota; [|repeat split; assumption].
  destruct (capacity self <=? _index self); [repeat split; assumption|].
  unfold shaped. simpl. rewrite length_insert.
  repeat split; try assumption.
  apply Forall_insert; [exact Hcols|]. rewrite length_map. congruence.
Qed.

Lemma appends_shaped m c calls : forall self,
  shaped m c self -> shaped m c (appends float32 self calls).
Proof.
  induction calls as [|values calls IH]; intros self Hs; [exact Hs|].
  simpl. apply IH. apply append_shaped. exact Hs.
Qed.

Lemma clear_shaped m c self : shaped m c self -> clear zero self = init zero m c.
Proof.
  intros (Hm & Hc & Hlen & Hcols). unfold clear, init. rewrite Hm, Hc. f_equal.
  clear Hm Hc. revert c Hlen.
  induction Hcols as [|col data Hcol _ IH]; intros c Hlen; simpl in Hlen; subst c.
  - reflexivity.
  - simpl. f_equal; [|apply IH; reflexivity].
    rewrite <- Hcol. clear. induction col as [|v col IH]; simpl; congruence.
Qed.

(** X10.  After any calls of [append], those that raise included, [clear] puts the
    buffer back into the state [__init__] builds: all zeros, write index 0, not
    filled; its snapshot is empty. *)
Theorem clear_restores_fresh (m c : nat) (calls : list (list V)) :
  clear zero (appends float32 (init zero m c) calls) = init zero m c /\
  snapshot (clear zero (appends float32 (init zero m c) calls)) = [].
Proof.
  assert (H : clear zero (appends float32 (init zero m c) calls) = init zero m c).
  { apply clear_shaped. apply appends_shaped. apply init_shaped. }
  split; [exact H|]. rewrite H. unfold snapshot, init. simpl. apply take_0.
Qed.

(** X11.  One more [append] slides the window: on a buffer that holds fewer rows
    than its capacity the snapshot grows by the stored row, and on a full
    buffer the oldest row leaves and the stored row comes in at the end. *)
Theorem append_slides_window (m c : nat) (rows : list (list V)) (values : list V) :
  1 <= c -> Forall (fun r => length r = m) rows -> length values = m ->
  exists self self',
    append_all (init zero m c) rows = (self, Ok tt) /\
    append self values = (self', Ok tt) /\
    snapshot self'
    = (if c <=? length rows then drop 1 (snapshot self) else snapshot self)
      ++ [map float32 values] /\
    length (snapshot self') = min (length rows + 1) c.
Proof.
  intros Hc Hrows Hv.
  destruct (append_all_holds float32 m c rows [] (init zero m c) Hc
              (init_holds zero float32 m c Hc) Hrows) as [self [Hrun Hh]].
  destruct (append_holds float32 m c _ self values Hc Hh Hv) as [self' [Happ Hh']].
  exists self, self'. split; [exact Hrun|]. split; [exact Happ|].
  destruct Hh as (_ & _ & _ & _ & _ & Hsnap).
  destruct Hh' as (_ & _ & _ & _ & _ & Hsnap').
  simpl app in *. rewrite Hsnap', Hsnap. split.
  - destruct (Nat.leb_spec c (length rows)) as [Hfull|Hroom].
    + rewrite last_n_snoc_full by assumption.
      rewrite map_app, skipn_map. reflexivity.
    + rewrite !last_n_short by (rewrite ?length_app; simpl; lia).
      rewrite map_app. reflexivity.
  - rewrite length_map, length_last_n, length_app. simpl. reflexivity.
Qed.

End RingBuffer.

Lemma append_slides_window_witness :
  exists self self',
    Buffers.append_all (fun v => v) (init 0%Z 2 2) [[1; 2]; [3; 4]]%Z = (self, Ok tt) /\
    Buffers.append (fun v => v) self [5; 6]%Z = (self', Ok tt) /\
    snapshot self' = drop 1 (snapshot self) ++ [[5; 6]%Z] /\
    length (snapshot self') = 2.
Proof.
  apply (append_slides_window 0%Z (fun v => v) 2 2 [[1; 2]; [3; 4]]%Z [5; 6]%Z).
  - lia.
  - repeat constructor.
  - reflexivity.
Defined.

End WindowOfRows.

(** ** ui/main_window.py: quality levels in closed form *)

Module LevelFacts.
Import MainWindow FloatFacts WindowFacts.

(** The level decision in closed form, for a channel at level 0..4: the band
    of the strength, but at most one level up. *)
Lemma new_state_of_band noise strength current_state :
  (0 <= current_state <= 4)%Z ->
  new_state_of noise strength current_state
  = Z.min (current_state + 1) (band (max noise (fl 100)) strength).
Proof.
  intros Hc. destruct (max_floor noise) as [Hfloor _].
  unfold new_state_of, band, thresholds. cbv zeta. simpl snd.
  set (nb := max noise (fl 100)) in *.
  assert (Hcases : (current_state = 0 \/ current_state = 1 \/ current_state = 2 \/
                    current_state = 3 \/ current_state = 4)%Z) by lia.
  destruct Hcases as [H|[H|[H|[H|H]]]]; subst current_state;
    simpl Z.eqb; simpl Z.geb; simpl andb;
    cbv iota; float_cases; try reflexivity; exfalso; float_lra.
Qed.

Lemma band_range noise_baseline strength :
  (0 <= band noise_baseline strength <= 4)%Z.
Proof.
  unfold band.
  repeat match goal with
         | |- context [if ?b then _ else _] => destruct b
         end; lia.
Qed.

(** X12.  The level decision of [_update_channel_indicator] in closed form.  For a
    channel at level 0..4 the new level is the band of the strength in the
    table of the method (below 2, 4, 7, 12 noise floors), but at most one level
    above the current one: a fall to the band is immediate, over any number of
    levels, and a rise is one level per update. *)
Theorem new_state_is_capped_band (noise strength : float) (current_state : Z) :
  (0 <= current_state <= 4)%Z ->
  new_state_of noise strength current_state
  = Z.min (current_state + 1) (band (max noise (fl 100)) strength) /\
  ((band (max noise (fl 100)) strength <= current_state)%Z ->
   new_state_of noise strength current_state
   = band (max noise (fl 100)) strength) /\
  ((current_state < band (max noise (fl 100)) strength)%Z ->
   new_state_of noise strength current_state = (current_state + 1)%Z).
Proof.
  intros Hc. rewrite new_state_of_band by exact Hc.
  pose proof (band_range (max noise (fl 100)) strength) as Hb.
  split; [reflexivity|]. split; intros H; lia.
Qed.

Lemma new_state_is_capped_band_witness :
  (0 <= 4 <= 4)%Z /\
  new_state_of (fl 0) (fl 250) 4 = 1%Z.
Proof.
  split; [lia|].
  destruct (new_state_is_capped_band (fl 0) (fl 250) 4) as (H & _); [lia|].
  rewrite H. vm_compute. reflexivity.
Defined.

(** Updates at a constant strength climb one level at a time up to the band
    of the strength, and fall to it at once. *)
Lemma constant_updates_level noise strength n : forall level,
  (0 <= level <= 4)%Z ->
  fold_left (fun level strength => new_state_of noise strength level)
    (replicate (S n) strength) level
  = Z.min (level + Z.of_nat (S n)) (band (max noise (fl 100)) strength).
Proof.
  pose proof (band_range (max noise (fl 100)) strength) as Hb.
  induction n as [|n IH]; intros level Hl.
  - simpl. rewrite new_state_of_band by exact Hl. reflexivity.
  - change (replicate (S (S n)) strength) with (strength :: replicate (S n) strength).
    cbn [fold_left]. rewrite IH.
    + rewrite new_state_of_band by exact Hl. lia.
    + apply new_state_of_step. exact Hl.
Qed.

(** X13.  Updates of a channel at a constant strength: after [n >= 1] updates the
    level is the band of the strength or [n] levels above where it started,
    whichever is lower; after four updates it is the band, and stays there. *)
Theorem constant_strength_settles (self : MainWindow) (i n : nat) (strength : float) :
  i < _channel_indicators self ->
  i < length (_channel_current_state self) ->
  (0 <= geti (_channel_current_state self) i <= 4)%Z ->
  1 <= n ->
  geti (_channel_current_state (updates self i (replicate n strength))) i
  = Z.min (geti (_channel_current_state self) i + Z.of_nat n)
      (band (max (getf (_channel_noise_level self) i) (fl 100)) strength) /\
  (4 <= n ->
   geti (_channel_current_state (updates self i (replicate n strength))) i
   = band (max (getf (_channel_noise_level self) i) (fl 100)) strength).
Proof.
  intros Hi Hl Hc Hn. rewrite updates_spec by assumption.
  destruct n as [|n]; [lia|].
  rewrite constant_updates_level by exact Hc.
  split; [reflexivity|]. intros H4.
  pose proof (band_range (max (getf (_channel_noise_level self) i) (fl 100)) strength).
  lia.
Qed.

Lemma constant_strength_settles_witness :
  geti (_channel_current_state
          (updates init 0 (replicate 4 (fl 1500)))) 0
  = 4%Z.
Proof.
  destruct (constant_strength_settles init 0 4 (fl 1500)) as [_ H].
  - vm_compute. lia.
  - vm_compute. lia.
  - vm_compute. split; discriminate.
  - lia.
  - rewrite H by lia. vm_compute. reflexivity.
Defined.

End LevelFacts.

(** ** ui/main_window.py: the handler, branch by branch *)

Module HandlerFacts.
Import DataParser MainWindow FloatFacts WindowFacts CalibrationFacts.

Ltac fields :=
  cbn [_buffer _packet_count _signal_strength _channel_baseline
       _channel_last_values _channel_current_state _channel_noise_level
       _baseline_initialized _initialization_samples _last_baseline_reset
       _channel_indicators set_buffer set_packet_count set_signal_strength
       set_channel_baseline set_channel_last_values set_channel_current_state
       set_channel_noise_level set_baseline_initialized set_last_baseline_reset]
    in *.

Lemma geti_range (l : list Z) i :
  Forall (fun state => (0 <= state <= 4)%Z) l -> (0 <= geti l i <= 4)%Z.
Proof.
  intros H. unfold geti. revert i.
  induction H as [|x l Hx _ IH]; intros [|i]; simpl; try lia. apply IH.
Qed.

Lemma update_channel_indicator_frame self i strength :
  same_but_levels self (_update_channel_indicator self i strength) /\
  length (_channel_current_state (_update_channel_indicator self i strength))
  = length (_channel_current_state self) /\
  (Forall (fun state => (0 <= state <= 4)%Z) (_channel_current_state self) ->
   Forall (fun state => (0 <= state <= 4)%Z)
     (_channel_current_state (_update_channel_indicator self i strength))).
Proof.
  unfold _update_channel_indicator, same_but_levels.
  destruct (_channel_indicators self <=? i); fields.
  - repeat split; auto.
  - rewrite length_insert. repeat split; auto.
    intros H. apply Forall_insert; [exact H|].
    apply new_state_of_step. apply geti_range. exact H.
Qed.

Lemma indicator_loop_frame channel_activity : forall k self,
  same_but_levels self (indicator_loop k channel_activity self) /\
  length (_channel_current_state (indicator_loop k channel_activity self))
  = length (_channel_current_state self) /\
  (Forall (fun state => (0 <= state <= 4)%Z) (_channel_current_state self) ->
   Forall (fun state => (0 <= state <= 4)%Z)
     (_channel_current_state (indicator_loop k channel_activity self))).
Proof.
  induction channel_activity as [|a rest IH]; intros k self.
  - simpl. unfold same_but_levels. repeat split; auto.
  - cbn [indicator_loop].
    destruct (update_channel_indicator_frame self k a) as (Hf & Hlen & Hr).
    destruct (IH (S k) (_update_channel_indicator self k a)) as (Hf' & Hlen' & Hr').
    split; [|split; [congruence|auto]].
    unfold same_but_levels in *.
    destruct Hf as (?&?&?&?&?&?&?&?&?&?), Hf' as (?&?&?&?&?&?&?&?&?&?).
    repeat split; congruence.
Qed.

Lemma activity_loop_cons k v values self channel_activity :
  activity_loop k (v :: values) self channel_activity
  = activity_loop (S k) values (activity_body k v self)
      (channel_activity ++ [Qcabs (v - getf (_channel_baseline self) k)]).
Proof. reflexivity. Qed.

Lemma activity_body_spec k v self :
  k < length (_channel_baseline self) ->
  k < length (_channel_last_values self) ->
  same_but_baselines self (activity_body k v self) /\
  length (_channel_baseline (activity_body k v self))
  = length (_channel_baseline self) /\
  length (_channel_last_values (activity_body k v self))
  = length (_channel_last_values self) /\
  (forall j, getf (_channel_baseline (activity_body k v self)) j
             = if decide (j = k)
               then adapted (getf (_channel_noise_level self) k) v
                      (getf (_channel_baseline self) k)
               else getf (_channel_baseline self) j) /\
  (forall j, getf (_channel_last_values (activity_body k v self)) j
             = if decide (j = k) then v else getf (_channel_last_values self) j).
Proof.
  intros Hb Hl. unfold activity_body. cbn [activity_loop fst]. cbv zeta. fields.
  rewrite !length_insert.
  split; [unfold same_but_baselines, same_control; fields; repeat split|].
  split; [reflexivity|]. split; [reflexivity|]. split.
  - intros j. destruct (decide (j = k)) as [->|Hne].
    + rewrite getf_insert_eq by exact Hb. reflexivity.
    + rewrite getf_insert_ne by congruence. reflexivity.
  - intros j. destruct (decide (j = k)) as [->|Hne].
    + rewrite getf_insert_eq by exact Hl. reflexivity.
    + rewrite getf_insert_ne by congruence. reflexivity.
Qed.

Lemma same_but_baselines_trans a b c :
  same_but_baselines a b -> same_but_baselines b c -> same_but_baselines a c.
Proof.
  intros (H1 & H2 & H3) (H1' & H2' & H3'). unfold same_but_baselines.
  split; [eapply same_control_trans; eassumption|]. split; congruence.
Qed.

(** The steady-state loop, channel by channel: the activity of a channel is
    its deviation from the baseline the loop found, the baseline is
    [adapted], and the last value is the sample's. *)
Lemma activity_loop_spec values : forall k self channel_activity,
  k + length values <= length (_channel_baseline self) ->
  k + length values <= length (_channel_last_values self) ->
  same_but_baselines self (fst (activity_loop k values self channel_activity)) /\
  length (_channel_baseline (fst (activity_loop k values self channel_activity)))
  = length (_channel_baseline self) /\
  length (_channel_last_values (fst (activity_loop k values self channel_activity)))
  = length (_channel_last_values self) /\
  snd (activity_loop k values self channel_activity)
  = channel_activity
    ++ map (fun j => Qcabs (getf values j - getf (_channel_baseline self) (k + j)))
         (seq 0 (length values)) /\
  (forall j,
     getf (_channel_baseline (fst (activity_loop k values self channel_activity))) j
     = if decide (k <= j < k + length values)
       then adapted (getf (_channel_noise_level self) j) (getf values (j - k))
              (getf (_channel_baseline self) j)
       else getf (_channel_baseline self) j) /\
  (forall j,
     getf (_channel_last_values (fst (activity_loop k values self channel_activity))) j
     = if decide (k <= j < k + length values)
       then getf values (j - k)
       else getf (_channel_last_values self) j).
Proof.
  induction values as [|v values IH]; intros k self acc Hb Hl.
  - simpl. rewrite app_nil_r.
    split; [unfold same_but_baselines; split; [apply same_control_refl|split; reflexivity]|].
    repeat split; intros j; destruct (decide _) as [H|_]; (lia || reflexivity).
  - change (length (v :: values)) with (S (length values)) in *.
    rewrite activity_loop_cons.
    destruct (activity_body_spec k v self) as (Hf & Hlb & Hll & Hbj & Hlj); [lia|lia|].
    remember (activity_body k v self) as w eqn:Hw.
    destruct (IH (S k) w (acc ++ [Qcabs (v - getf (_channel_baseline self) k)]))
      as (Hf' & Hlb' & Hll' & Hact & Hbj' & Hlj'); [lia|lia|].
    assert (Hnoise : _channel_noise_level w = _channel_noise_level self) by apply Hf.
    split; [eapply same_but_baselines_trans; eassumption|].
    split; [congruence|]. split; [congruence|]. split; [|split].
    + rewrite Hact, <- app_assoc. f_equal. cbn [seq map app].
      replace (k + 0) with k by lia. unfold getf at 1. cbn [nth]. f_equal.
      rewrite <- seq_shift, map_map. apply map_ext_in. intros j _.
      rewrite Hbj. destruct (decide (S k + j = k)); [lia|].
      replace (k + S j) with (S k + j) by lia. reflexivity.
    + intros j. rewrite Hbj', Hbj, Hnoise.
      destruct (decide (S k <= j < S k + length values)) as [Hin|Hout].
      * destruct (decide (j = k)); [lia|].
        destruct (decide (k <= j < k + S (length values))); [|lia].
        replace (j - k) with (S (j - S k)) by lia. reflexivity.
      * destruct (decide (j = k)) as [->|Hne].
        -- destruct (decide (k <= k < k + S (length values))); [|lia].
           rewrite Nat.sub_diag. reflexivity.
        -- destruct (decide (k <= j < k + S (length values))); [lia|reflexivity].
    + intros j. rewrite Hlj', Hlj.
      destruct (decide (S k <= j < S k + length values)) as [Hin|Hout].
      * destruct (decide (k <= j < k + S (length values))); [|lia].
        replace (j - k) with (S (j - S k)) by lia. reflexivity.
      * destruct (decide (j = k)) as [->|Hne].
        -- destruct (decide (k <= k < k + S (length values))); [|lia].
           rewrite Nat.sub_diag. reflexivity.
        -- destruct (decide (k <= j < k + S (length values))); [lia|reflexivity].
Qed.

Lemma calibration_loop_strength values : forall k self,
  _signal_strength (calibration_loop k values self) = _signal_strength self.
Proof.
  induction values as [|v values IH]; intros k self; [reflexivity|].
  cbn [calibration_loop]. cbv zeta. rewrite IH.
  destruct (_packet_count _ >? 50)%Z; reflexivity.
Qed.

Lemma finish_loop_frame indices : forall self,
  _signal_strength (finish_loop indices self) = _signal_strength self /\
  _channel_baseline (finish_loop indices self) = _channel_baseline self /\
  _channel_last_values (finish_loop indices self) = _channel_last_values self.
Proof.
  induction indices as [|i indices IH]; intros self; [repeat split|].
  cbn [finish_loop]. cbv zeta.
  destruct (IH (set_channel_noise_level self
                  (<[ i := (getf (_channel_noise_level self) i
                            / float_of_int (_initialization_samples self - 50))%Qc ]>
                     (_channel_noise_level self)))) as (H1 & H2 & H3).
  rewrite H1, H2, H3. repeat split.
Qed.

(** The end of the handler: the steady-state loop, the indicator updates at
    every fifth packet, and the signal strength. *)
Lemma steady_tail self values :
  length values <= length (_channel_baseline self) ->
  length values <= length (_channel_last_values self) ->
  (let '(self', channel_activity) := activity_loop 0 values self [] in
   set_signal_strength
     (if (_packet_count self' mod 5 =? 0)%Z
      then indicator_loop 0 channel_activity self'
      else self')
     (mean channel_activity))
  = set_signal_strength
      (if (_packet_count self mod 5 =? 0)%Z
       then indicator_loop 0 (snd (activity_loop 0 values self []))
              (fst (activity_loop 0 values self []))
       else fst (activity_loop 0 values self []))
      (mean (snd (activity_loop 0 values self []))).
Proof.
  intros Hb Hl.
  destruct (activity_loop_spec values 0 self []) as (((_ & Hpc & _) & _) & _);
    [exact Hb|exact Hl|].
  destruct (activity_loop 0 values self []) as [w acts].
  cbn [fst snd] in Hpc. cbn [fst snd]. rewrite Hpc. reflexivity.
Qed.

(** The window after the noise levels are averaged at the end of a
    calibration. *)
Lemma finished_fields self :
  Config.EMG_CHANNELS <= length (_channel_noise_level self) ->
  same_control (set_baseline_initialized self true)
    (finish_loop (seq 0 Config.EMG_CHANNELS) (set_baseline_initialized self true)) /\
  _packet_count
    (finish_loop (seq 0 Config.EMG_CHANNELS) (set_baseline_initialized self true))
  = _packet_count self /\
  _signal_strength
    (finish_loop (seq 0 Config.EMG_CHANNELS) (set_baseline_initialized self true))
  = _signal_strength self /\
  _channel_baseline
    (finish_loop (seq 0 Config.EMG_CHANNELS) (set_baseline_initialized self true))
  = _channel_baseline self /\
  _channel_last_values
    (finish_loop (seq 0 Config.EMG_CHANNELS) (set_baseline_initialized self true))
  = _channel_last_values self /\
  length (_channel_noise_level
            (finish_loop (seq 0 Config.EMG_CHANNELS) (set_baseline_initialized self true)))
  = length (_channel_noise_level self).
Proof.
  intros Hn.
  destruct (finish_loop_spec Config.EMG_CHANNELS 0 (set_baseline_initialized self true))
    as (Hc & Hnl & _); [exact Hn|].
  destruct (finish_loop_frame (seq 0 Config.EMG_CHANNELS)
              (set_baseline_initialized self true)) as (Hs & Hfb & Hfl).
  split; [exact Hc|]. split; [apply Hc|].
  split; [exact Hs|]. split; [exact Hfb|]. split; [exact Hfl|].
  exact Hnl.
Qed.

(** The three ways through the handler for a sample of eight values: a
    calibration sample; the sample that starts a recalibration; a steady-state
    sample, which the sample that ends a calibration also is, after the noise
    levels are averaged. *)
Lemma handle_branches self sample :
  buffer_ready self -> sized self ->
  length (channels_uv sample) = Config.EMG_CHANNELS ->
  exists buffer,
    Buffers.append (fun v => v) (_buffer self) (channels_uv sample) = (buffer, Ok tt) /\
    Buffers.channels buffer = Config.EMG_CHANNELS /\
    Buffers._index buffer < Buffers.capacity buffer /\
    ((_baseline_initialized self = false /\
      (_packet_count self + 1 <= _initialization_samples self)%Z /\
      _handle_emg_sample self sample
      = calibration_loop 0 (channels_uv sample)
          (set_packet_count (set_buffer self buffer) (_packet_count self + 1))) \/
     (_baseline_initialized self = true /\ recalibration_due self = true /\
      _handle_emg_sample self sample
      = set_packet_count
          (set_baseline_initialized
             (set_packet_count (set_buffer self buffer) (_packet_count self + 1))
             false) 0) \/
     (exists self2,
        ((_baseline_initialized self = true /\ recalibration_due self = false /\
          self2 = set_packet_count (set_buffer self buffer) (_packet_count self + 1)) \/
         (_baseline_initialized self = false /\
          (_initialization_samples self < _packet_count self + 1)%Z /\
          self2 = set_last_baseline_reset
                    (finish_loop (seq 0 Config.EMG_CHANNELS)
                       (set_baseline_initialized
                          (set_packet_count (set_buffer self buffer)
                             (_packet_count self + 1)) true))
                    (_packet_count self + 1))) /\
        _handle_emg_sample self sample
        = set_signal_strength
            (if ((_packet_count self + 1) mod 5 =? 0)%Z
             then indicator_loop 0
                    (snd (activity_loop 0 (channels_uv sample) self2 []))
                    (fst (activity_loop 0 (channels_uv sample) self2 []))
             else fst (activity_loop 0 (channels_uv sample) self2 []))
            (mean (snd (activity_loop 0 (channels_uv sample) self2 []))))).
Proof.
  intros Hbuf (Hsb & Hsl & Hsn) Hlen.
  destruct (append_ready self _ Hbuf Hlen) as (buffer & Happ & Hch & Hidx).
  exists buffer. split; [exact Happ|]. split; [exact Hch|]. split; [exact Hidx|].
  unfold _handle_emg_sample. rewrite Happ. cbv zeta.
  change (_packet_count (set_buffer self buffer)) with (_packet_count self).
  assert (F1 : _baseline_initialized
                 (set_packet_count (set_buffer self buffer) (_packet_count self + 1))
               = _baseline_initialized self) by reflexivity.
  assert (F2 : _packet_count
                 (set_packet_count (set_buffer self buffer) (_packet_count self + 1))
               = (_packet_count self + 1)%Z) by reflexivity.
  assert (F3 : _initialization_samples
                 (set_packet_count (set_buffer self buffer) (_packet_count self + 1))
               = _initialization_samples self) by reflexivity.
  assert (F4 : _last_baseline_reset
                 (set_packet_count (set_buffer self buffer) (_packet_count self + 1))
               = _last_baseline_reset self) by reflexivity.
  assert (F5 : _channel_current_state
                 (set_packet_count (set_buffer self buffer) (_packet_count self + 1))
               = _channel_current_state self) by reflexivity.
  assert (F6 : _channel_baseline
                 (set_packet_count (set_buffer self buffer) (_packet_count self + 1))
               = _channel_baseline self) by reflexivity.
  assert (F7 : _channel_last_values
                 (set_packet_count (set_buffer self buffer) (_packet_count self + 1))
               = _channel_last_values self) by reflexivity.
  assert (F8 : _channel_noise_level
                 (set_packet_count (set_buffer self buffer) (_packet_count self + 1))
               = _channel_noise_level self) by reflexivity.
  remember (set_packet_count (set_buffer self buffer) (_packet_count self + 1))
    as self1 eqn:Hself1.
  rewrite F1, F2, F3.
  destruct (_baseline_initialized self) eqn:Hinit; cbn [negb andb].
  - rewrite ?F2, ?F4, ?F5. fold (recalibration_due self).
    destruct (recalibration_due self) eqn:Hdue.
    + right. left. repeat split.
    + right. right. exists self1. split; [left; repeat split|].
      rewrite steady_tail, F2 by (rewrite ?F6, ?F7; lia). reflexivity.
  - destruct (Z.leb_spec (_packet_count self + 1) (_initialization_samples self))
      as [Hcal|Hend].
    + left. repeat split. exact Hcal.
    + right. right.
      destruct (finished_fields self1) as (_ & Hpc & _ & Hfb & Hfl & _);
        [rewrite F8; lia|].
      rewrite F2 in Hpc.
      remember (finish_loop (seq 0 Config.EMG_CHANNELS)
                  (set_baseline_initialized self1 true)) as fin eqn:Hfin.
      rewrite Hpc.
      exists (set_last_baseline_reset fin (_packet_count self + 1)).
      split; [right; repeat split; exact Hend|].
      assert (G1 : _packet_count (set_last_baseline_reset fin (_packet_count self + 1))
                   = (_packet_count self + 1)%Z) by (rewrite <- Hpc; reflexivity).
      assert (G2 : _last_baseline_reset
                     (set_last_baseline_reset fin (_packet_count self + 1))
                   = (_packet_count self + 1)%Z) by reflexivity.
      assert (G3 : _channel_baseline
                     (set_last_baseline_reset fin (_packet_count self + 1))
                   = _channel_baseline fin) by reflexivity.
      assert (G4 : _channel_last_values
                     (set_last_baseline_reset fin (_packet_count self + 1))
                   = _channel_last_values fin) by reflexivity.
      remember (set_last_baseline_reset fin (_packet_count self + 1)) as self2 eqn:Hself2.
      rewrite G1, G2, Z.sub_diag.
      change (0 >? 6000)%Z with false. cbn [andb].
      rewrite steady_tail, G1 by (rewrite ?G3, ?G4, ?Hfb, ?Hfl, ?F6, ?F7; lia).
      reflexivity.
Qed.

Lemma rejected_sample self sample :
  length (channels_uv sample) <> Buffers.channels (_buffer self) ->
  _handle_emg_sample self sample = self.
Proof.
  intros Hne. unfold _handle_emg_sample, Buffers.append.
  destruct (Nat.eqb_spec (length (channels_uv sample)) (Buffers.channels (_buffer self)));
    [contradiction|reflexivity].
Qed.

Lemma well_formed_same_control a b :
  well_formed a -> same_control a b ->
  length (_channel_baseline b) = length (_channel_baseline a) ->
  length (_channel_last_values b) = length (_channel_last_values a) ->
  length (_channel_noise_level b) = length (_channel_noise_level a) ->
  well_formed b.
Proof.
  intros ((Hb & Hl & Hn) & Hs & Hr & Hi & (Hch & Hidx) & Hpc)
    (E1 & E2 & E3 & E4 & E5 & E6 & E7) Lb Ll Ln.
  unfold well_formed, sized, buffer_ready.
  rewrite Lb, Ll, Ln, E1, E2, E3, E7. repeat split; assumption.
Qed.

Lemma well_formed_levels a b :
  well_formed a -> same_but_levels a b ->
  length (_channel_current_state b) = length (_channel_current_state a) ->
  Forall (fun state => (0 <= state <= 4)%Z) (_channel_current_state b) ->
  well_formed b.
Proof.
  intros ((Hb & Hl & Hn) & Hs & Hr & Hi & (Hch & Hidx) & Hpc)
    (E1 & E2 & E3 & E4 & E5 & E6 & E7 & E8 & E9 & E10) Ls Hr'.
  unfold well_formed, sized, buffer_ready.
  rewrite Ls, E1, E2, E4, E5, E6, E10. repeat split; assumption.
Qed.

Lemma well_formed_accepted self buffer :
  well_formed self ->
  Buffers.channels buffer = Config.EMG_CHANNELS ->
  Buffers._index buffer < Buffers.capacity buffer ->
  well_formed (set_packet_count (set_buffer self buffer) (_packet_count self + 1)).
Proof.
  intros ((Hb & Hl & Hn) & Hs & Hr & Hi & _ & Hpc) Hch Hidx.
  unfold well_formed, sized, buffer_ready. fields.
  repeat split; try assumption; lia.
Qed.

Lemma well_formed_initialized self initialized :
  well_formed self -> well_formed (set_baseline_initialized self initialized).
Proof. intros H. exact H. Qed.

Lemma well_formed_reset self reset :
  well_formed self -> well_formed (set_last_baseline_reset self reset).
Proof. intros H. exact H. Qed.

Lemma well_formed_strength self strength :
  well_formed self -> well_formed (set_signal_strength self strength).
Proof. intros H. exact H. Qed.

Lemma well_formed_count0 self :
  well_formed self -> well_formed (set_packet_count self 0).
Proof.
  intros ((Hb & Hl & Hn) & Hs & Hr & Hi & (Hch & Hidx) & Hpc).
  unfold well_formed, sized, buffer_ready. fields.
  repeat split; try assumption; lia.
Qed.

Lemma well_formed_finished self :
  well_formed self ->
  well_formed (finish_loop (seq 0 Config.EMG_CHANNELS)
                 (set_baseline_initialized self true)).
Proof.
  intros Hwf.
  destruct (finished_fields self) as (Hc & _ & _ & Hfb & Hfl & Hnl).
  { destruct Hwf as ((_ & _ & Hn) & _). rewrite Hn. apply le_n. }
  apply (well_formed_same_control (set_baseline_initialized self true)).
  - apply well_formed_initialized. exact Hwf.
  - exact Hc.
  - rewrite Hfb. reflexivity.
  - rewrite Hfl. reflexivity.
  - exact Hnl.
Qed.

Lemma well_formed_steady self values :
  well_formed self -> length values = Config.EMG_CHANNELS ->
  well_formed
    (set_signal_strength
       (if (_packet_count self mod 5 =? 0)%Z
        then indicator_loop 0 (snd (activity_loop 0 values self []))
               (fst (activity_loop 0 values self []))
        else fst (activity_loop 0 values self []))
       (mean (snd (activity_loop 0 values self [])))).
Proof.
  intros Hwf Hlen.
  destruct (activity_loop_spec values 0 self []) as ((Hc & Hs & Hn) & Lb & Ll & _).
  { destruct Hwf as ((Hb & _) & _). rewrite Hb, Hlen. apply le_n. }
  { destruct Hwf as ((_ & Hl & _) & _). rewrite Hl, Hlen. apply le_n. }
  assert (Hw : well_formed (fst (activity_loop 0 values self []))).
  { apply (well_formed_same_control self); try assumption. rewrite Hn. reflexivity. }
  apply well_formed_strength.
  destruct (_packet_count self mod 5 =? 0)%Z; [|exact Hw].
  destruct (indicator_loop_frame (snd (activity_loop 0 values self [])) 0
              (fst (activity_loop 0 values self []))) as (Hf & Hlen' & Hr).
  apply (well_formed_levels (fst (activity_loop 0 values self []))); try assumption.
  apply Hr. apply Hw.
Qed.

(** The handler keeps a window well formed, whatever the sample. *)
Lemma handle_well_formed self sample :
  well_formed self -> well_formed (_handle_emg_sample self sample).
Proof.
  intros Hwf.
  destruct (Nat.eq_dec (length (channels_uv sample)) Config.EMG_CHANNELS) as [Hlen|Hne].
  - pose proof Hwf as (Hsz & _ & _ & _ & Hbuf & _).
    destruct (handle_branches self sample Hbuf Hsz Hlen)
      as (buffer & _ & Hch & Hidx & Hcases).
    pose proof (well_formed_accepted self buffer Hwf Hch Hidx) as Hwf1.
    destruct Hcases as [(_ & _ & ->)|[(_ & _ & ->)|(self2 & Hself2 & ->)]].
    + destruct (calibration_loop_spec (channels_uv sample) 0
                  (set_packet_count (set_buffer self buffer) (_packet_count self + 1)))
        as (Hc & Lb & Ll & Ln & _);
        try (destruct Hsz as (Hb & Hl & Hn); fields; rewrite ?Hb, ?Hl, ?Hn, Hlen; apply le_n).
      apply (well_formed_same_control _ _ Hwf1); assumption.
    + apply well_formed_count0. apply well_formed_initialized. exact Hwf1.
    + assert (Hwf2 : well_formed self2 /\ _packet_count self2 = (_packet_count self + 1)%Z).
      { assert (F2 : _packet_count
                       (set_packet_count (set_buffer self buffer) (_packet_count self + 1))
                     = (_packet_count self + 1)%Z) by reflexivity.
        assert (F8 : _channel_noise_level
                       (set_packet_count (set_buffer self buffer) (_packet_count self + 1))
                     = _channel_noise_level self) by reflexivity.
        remember (set_packet_count (set_buffer self buffer) (_packet_count self + 1))
          as self1 eqn:Hself1.
        destruct Hself2 as [(_ & _ & ->)|(_ & _ & ->)]; [split; assumption|].
        pose proof (well_formed_finished self1 Hwf1) as Hfin.
        destruct (finished_fields self1) as (_ & Hpc & _).
        { rewrite F8. destruct Hsz as (_ & _ & Hn). rewrite Hn. apply le_n. }
        remember (finish_loop (seq 0 Config.EMG_CHANNELS)
                    (set_baseline_initialized self1 true)) as fin eqn:Hfineq.
        split; [apply well_formed_reset; exact Hfin|].
        assert (G : _packet_count (set_last_baseline_reset fin (_packet_count self + 1))
                    = _packet_count fin) by reflexivity.
        rewrite G, Hpc. exact F2. }
      destruct Hwf2 as [Hwf2 Hpc2]. rewrite <- Hpc2.
      apply well_formed_steady; assumption.
  - rewrite rejected_sample; [exact Hwf|].
    destruct Hwf as (_ & _ & _ & _ & (Hch & _) & _). rewrite Hch. exact Hne.
Qed.

Lemma init_well_formed : well_formed init.
Proof.
  unfold well_formed, sized, buffer_ready. simpl.
  repeat split; try reflexivity; try lia; repeat constructor; lia.
Qed.

Lemma handle_all_well_formed samples : forall self,
  well_formed self -> well_formed (handle_all self samples).
Proof.
  induction samples as [|sample samples IH]; intros self Hwf; [exact Hwf|].
  rewrite handle_all_cons. apply IH. apply handle_well_formed. exact Hwf.
Qed.

(** X14.  From the window [__init__] builds, whatever samples arrive, of whatever
    length: every quality level stays in 0..4, every per-channel list keeps its
    eight entries, the history buffer keeps eight channels and a write index
    that is a column of its array, and the packet count is never negative.  No
    index of the handler is out of range. *)
Theorem window_stays_well_formed (samples : list EmgSample) :
  Forall (fun state => (0 <= state <= 4)%Z)
    (_channel_current_state (handle_all init samples)) /\
  length (_channel_current_state (handle_all init samples)) = Config.EMG_CHANNELS /\
  length (_channel_baseline (handle_all init samples)) = Config.EMG_CHANNELS /\
  length (_channel_last_values (handle_all init samples)) = Config.EMG_CHANNELS /\
  length (_channel_noise_level (handle_all init samples)) = Config.EMG_CHANNELS /\
  Buffers.channels (_buffer (handle_all init samples)) = Config.EMG_CHANNELS /\
  Buffers._index (_buffer (handle_all init samples))
  < Buffers.capacity (_buffer (handle_all init samples)) /\
  (0 <= _packet_count (handle_all init samples))%Z.
Proof.
  destruct (handle_all_well_formed samples init init_well_formed)
    as ((Hb & Hl & Hn) & Hs & Hr & _ & (Hch & Hidx) & Hpc).
  repeat split; assumption || apply Hpc || apply Hr.
Qed.

(** Order goals on floats as goals on fractions. *)
Ltac to_fractions :=
  repeat (progress (unfold Qclt, Qcle, Qcmult, Qcplus, Qcminus, Qcopp, Qcdiv, Qcinv,
                      fl, float_of_int, Q2Qc in *;
                    cbn [this] in *));
  repeat match goal with
         | H : context [Qred ?q] |- _ => rewrite (Qred_correct q) in H
         | |- context [Qred ?q] => rewrite (Qred_correct q)
         end.

(** The window the steady-state loop starts from: the window with the sample
    stored and counted, after the noise levels are averaged when the sample
    ends a calibration. *)
Lemma steady_window self buffer self2 :
  sized self ->
  (_baseline_initialized self = true /\ recalibration_due self = false /\
   self2 = set_packet_count (set_buffer self buffer) (_packet_count self + 1)) \/
  (_baseline_initialized self = false /\
   (_initialization_samples self < _packet_count self + 1)%Z /\
   self2 = set_last_baseline_reset
             (finish_loop (seq 0 Config.EMG_CHANNELS)
                (set_baseline_initialized
                   (set_packet_count (set_buffer self buffer)
                      (_packet_count self + 1)) true))
             (_packet_count self + 1)) ->
  _packet_count self2 = (_packet_count self + 1)%Z /\
  _channel_baseline self2 = _channel_baseline self /\
  _channel_last_values self2 = _channel_last_values self /\
  _channel_current_state self2 = _channel_current_state self /\
  _channel_indicators self2 = _channel_indicators self /\
  _baseline_initialized self2 = true /\
  (_baseline_initialized self = true ->
   _channel_noise_level self2 = _channel_noise_level self).
Proof.
  intros (Hb & Hl & Hn) [(Hinit & _ & ->)|(Hinit & _ & ->)].
  - fields. repeat split. exact Hinit.
  - assert (F : forall w : MainWindow,
              _packet_count (set_packet_count w (_packet_count self + 1))
              = (_packet_count self + 1)%Z) by reflexivity.
    assert (F8 : _channel_noise_level
                   (set_packet_count (set_buffer self buffer) (_packet_count self + 1))
                 = _channel_noise_level self) by reflexivity.
    assert (F6 : _channel_baseline
                   (set_packet_count (set_buffer self buffer) (_packet_count self + 1))
                 = _channel_baseline self) by reflexivity.
    assert (F7 : _channel_last_values
                   (set_packet_count (set_buffer self buffer) (_packet_count self + 1))
                 = _channel_last_values self) by reflexivity.
    assert (F5 : _channel_current_state
                   (set_packet_count (set_buffer self buffer) (_packet_count self + 1))
                 = _channel_current_state self) by reflexivity.
    assert (F9 : _channel_indicators
                   (set_packet_count (set_buffer self buffer) (_packet_count self + 1))
                 = _channel_indicators self) by reflexivity.
    pose proof (F (set_buffer self buffer)) as F2.
    remember (set_packet_count (set_buffer self buffer) (_packet_count self + 1))
      as self1 eqn:Hself1.
    destruct (finished_fields self1)
      as ((_ & _ & Hst & Hini & _ & _ & Hind) & Hpc & _ & Hfb & Hfl & _).
    { rewrite F8, Hn. apply le_n. }
    assert (I1 : _channel_current_state (set_baseline_initialized self1 true)
                 = _channel_current_state self1) by reflexivity.
    assert (I2 : _baseline_initialized (set_baseline_initialized self1 true) = true)
      by reflexivity.
    assert (I3 : _channel_indicators (set_baseline_initialized self1 true)
                 = _channel_indicators self1) by reflexivity.
    rewrite I1 in Hst. rewrite I2 in Hini. rewrite I3 in Hind.
    clear I1 I2 I3.
    remember (finish_loop (seq 0 Config.EMG_CHANNELS)
                (set_baseline_initialized self1 true)) as fin eqn:Hfin.
    fields.
    split; [congruence|]. split; [congruence|]. split; [congruence|].
    split; [congruence|]. split; [congruence|]. split; [exact Hini|].
    intros H. congruence.
Qed.

Lemma forallb_idle (states : list Z) :
  forallb (fun state => (state =? 0)%Z) states = true
  <-> Forall (fun state => state = 0%Z) states.
Proof.
  induction states as [|s states IH]; simpl.
  - split; [constructor|reflexivity].
  - rewrite andb_true_iff, IH, Z.eqb_eq. split.
    + intros [H1 H2]. constructor; assumption.
    + intros H. apply Forall_cons in H. exact H.
Qed.

Lemma recalibration_due_iff self :
  recalibration_due self = true
  <-> (_packet_count self + 1 - _last_baseline_reset self > 6000)%Z /\
      Forall (fun state => state = 0%Z) (_channel_current_state self).
Proof.
  unfold recalibration_due. rewrite andb_true_iff, forallb_idle.
  rewrite Z.gtb_gt. reflexivity.
Qed.

(** A calibration sample of eight values: all that changes besides the
    channels' baselines, last values and noise sums is the buffer and the
    packet count. *)
Lemma calibrating_step self sample :
  well_formed self ->
  _baseline_initialized self = false ->
  (_packet_count self + 1 <= _initialization_samples self)%Z ->
  length (channels_uv sample) = Config.EMG_CHANNELS ->
  _baseline_initialized (_handle_emg_sample self sample) = false /\
  _packet_count (_handle_emg_sample self sample) = (_packet_count self + 1)%Z /\
  _initialization_samples (_handle_emg_sample self sample)
  = _initialization_samples self /\
  _channel_current_state (_handle_emg_sample self sample)
  = _channel_current_state self /\
  _signal_strength (_handle_emg_sample self sample) = _signal_strength self /\
  _last_baseline_reset (_handle_emg_sample self sample) = _last_baseline_reset self.
Proof.
  intros Hwf Hinit Hcount Hlen.
  pose proof Hwf as (Hsz & _ & _ & _ & Hbuf & _).
  destruct (handle_branches self sample Hbuf Hsz Hlen)
    as (buffer & _ & _ & _ & [(_ & _ & ->)|[(H & _)|(self2 & [(H & _)|(_ & H & _)] & _)]]);
    [|congruence|congruence|lia].
  rewrite calibration_loop_strength.
  destruct (calibration_loop_spec (channels_uv sample) 0
              (set_packet_count (set_buffer self buffer) (_packet_count self + 1)))
    as ((_ & Hpc & Hst & Hini & HN & Hlast & _) & _);
    try (destruct Hsz as (Hb & Hl & Hn); fields; rewrite ?Hb, ?Hl, ?Hn, Hlen; apply le_n).
  rewrite Hpc, Hst, Hini, HN, Hlast. fields. repeat split. exact Hinit.
Qed.

Lemma calibrating_run samples : forall self,
  well_formed self ->
  _baseline_initialized self = false ->
  (_packet_count self + Z.of_nat (length samples) <= _initialization_samples self)%Z ->
  Forall (fun sample => length (channels_uv sample) = Config.EMG_CHANNELS) samples ->
  well_formed (handle_all self samples) /\
  _baseline_initialized (handle_all self samples) = false /\
  _packet_count (handle_all self samples)
  = (_packet_count self + Z.of_nat (length samples))%Z /\
  _initialization_samples (handle_all self samples) = _initialization_samples self /\
  _channel_current_state (handle_all self samples) = _channel_current_state self /\
  _signal_strength (handle_all self samples) = _signal_strength self /\
  _last_baseline_reset (handle_all self samples) = _last_baseline_reset self.
Proof.
  induction samples as [|sample samples IH]; intros self Hwf Hinit Hcount Hlens.
  - simpl. rewrite Z.add_0_r. split; [exact Hwf|]. split; [exact Hinit|].
    repeat split.
  - apply Forall_cons in Hlens as [Hlen Hlens].
    change (length (sample :: samples)) with (S (length samples)) in *.
    rewrite handle_all_cons.
    destruct (calibrating_step self sample Hwf Hinit ltac:(lia) Hlen)
      as (Hi1 & Hc1 & Hn1 & Hs1 & Hg1 & Hr1).
    destruct (IH (_handle_emg_sample self sample)) as (Hw2 & Hi2 & Hc2 & Hn2 & Hs2 & Hg2 & Hr2);
      [apply handle_well_formed; exact Hwf|exact Hi1|rewrite Hc1, Hn1; lia|exact Hlens|].
    split; [exact Hw2|]. split; [exact Hi2|]. split; [rewrite Hc2, Hc1; lia|].
    repeat split; congruence.
Qed.

(** The sample that ends a calibration, when no indicator update is due. *)
Lemma finishing_step self sample :
  well_formed self ->
  _baseline_initialized self = false ->
  (_initialization_samples self < _packet_count self + 1)%Z ->
  ((_packet_count self + 1) mod 5 <> 0)%Z ->
  length (channels_uv sample) = Config.EMG_CHANNELS ->
  _baseline_initialized (_handle_emg_sample self sample) = true /\
  _packet_count (_handle_emg_sample self sample) = (_packet_count self + 1)%Z /\
  _channel_current_state (_handle_emg_sample self sample)
  = _channel_current_state self.
Proof.
  intros Hwf Hinit Hcount Hmod Hlen.
  pose proof Hwf as (Hsz & _ & _ & _ & Hbuf & _).
  destruct (handle_branches self sample Hbuf Hsz Hlen)
    as (buffer & _ & _ & _ &
        [(_ & H & _)|[(H & _)|(self2 & Hself2 & ->)]]); [lia|congruence|].
  destruct (steady_window self buffer self2 Hsz Hself2)
    as (Hpc2 & Hb2 & Hl2 & Hst2 & _ & Hini2 & _).
  destruct (Z.eqb_spec ((_packet_count self + 1) mod 5) 0) as [H0|_]; [contradiction|].
  destruct (activity_loop_spec (channels_uv sample) 0 self2 [])
    as (((_ & Hpc & Hst & Hini & _) & _) & _).
  { rewrite Hb2. destruct Hsz as (Hb & _). rewrite Hb, Hlen. apply le_n. }
  { rewrite Hl2. destruct Hsz as (_ & Hl & _). rewrite Hl, Hlen. apply le_n. }
  assert (S1 : forall w x,
            _baseline_initialized (set_signal_strength w x) = _baseline_initialized w /\
            _packet_count (set_signal_strength w x) = _packet_count w /\
            _channel_current_state (set_signal_strength w x) = _channel_current_state w)
    by (intros; repeat split).
  destruct (S1 (fst (activity_loop 0 (channels_uv sample) self2 []))
              (mean (snd (activity_loop 0 (channels_uv sample) self2 []))))
    as (-> & -> & ->).
  rewrite Hini, Hpc, Hst, Hini2, Hpc2, Hst2. repeat split.
Qed.

(** X15.  While a calibration phase lasts, a sample changes no quality level and
    not the signal strength, and the phase goes on. *)
Theorem calibration_keeps_levels (self : MainWindow) (sample : EmgSample) :
  well_formed self ->
  _baseline_initialized self = false ->
  (_packet_count self + 1 <= _initialization_samples self)%Z ->
  _channel_current_state (_handle_emg_sample self sample)
  = _channel_current_state self /\
  _signal_strength (_handle_emg_sample self sample) = _signal_strength self /\
  _baseline_initialized (_handle_emg_sample self sample) = false.
Proof.
  intros Hwf Hinit Hcount.
  destruct (Nat.eq_dec (length (channels_uv sample)) Config.EMG_CHANNELS) as [Hlen|Hne].
  - pose proof Hwf as (Hsz & _ & _ & _ & Hbuf & _).
    destruct (handle_branches self sample Hbuf Hsz Hlen)
      as (buffer & _ & _ & _ & [(_ & _ & ->)|[(H & _)|(self2 & [(H & _)|(_ & H & _)] & _)]]);
      [|congruence|congruence|lia].
    rewrite calibration_loop_strength.
    destruct (calibration_loop_spec (channels_uv sample) 0
                (set_packet_count (set_buffer self buffer) (_packet_count self + 1)))
      as ((_ & _ & Hst & Hini & _) & _);
      try (destruct Hsz as (Hb & Hl & Hn); fields; rewrite ?Hb, ?Hl, ?Hn, Hlen; apply le_n).
    rewrite Hst, Hini. fields. repeat split. exact Hinit.
  - rewrite rejected_sample; [repeat split; exact Hinit|].
    destruct Hwf as (_ & _ & _ & _ & (Hch & _) & _). rewrite Hch. exact Hne.
Qed.

Lemma calibration_keeps_levels_witness :
  _channel_current_state (_handle_emg_sample init (constant_sample 1000))
  = _channel_current_state init /\
  _signal_strength (_handle_emg_sample init (constant_sample 1000))
  = _signal_strength init /\
  _baseline_initialized (_handle_emg_sample init (constant_sample 1000)) = false.
Proof.
  apply (calibration_keeps_levels init (constant_sample 1000)).
  - exact init_well_formed.
  - reflexivity.
  - vm_compute. discriminate.
Defined.

(** X16.  The quality levels can change only at a packet whose number is a
    multiple of five: any other sample, in any phase, leaves all of them as
    they are. *)
Theorem levels_change_every_fifth_packet (self : MainWindow) (sample : EmgSample) :
  well_formed self ->
  ((_packet_count self + 1) mod 5 <> 0)%Z ->
  _channel_current_state (_handle_emg_sample self sample)
  = _channel_current_state self.
Proof.
  intros Hwf Hmod.
  destruct (Nat.eq_dec (length (channels_uv sample)) Config.EMG_CHANNELS) as [Hlen|Hne].
  - pose proof Hwf as (Hsz & _ & _ & _ & Hbuf & _).
    destruct (handle_branches self sample Hbuf Hsz Hlen)
      as (buffer & _ & _ & _ & [(_ & _ & ->)|[(_ & _ & ->)|(self2 & Hself2 & ->)]]).
    + destruct (calibration_loop_spec (channels_uv sample) 0
                  (set_packet_count (set_buffer self buffer) (_packet_count self + 1)))
        as ((_ & _ & Hst & _) & _);
        try (destruct Hsz as (Hb & Hl & Hn); fields; rewrite ?Hb, ?Hl, ?Hn, Hlen; apply le_n).
      rewrite Hst. reflexivity.
    + reflexivity.
    + destruct (steady_window self buffer self2 Hsz Hself2)
        as (_ & Hb2 & Hl2 & Hst2 & _).
      destruct (Z.eqb_spec ((_packet_count self + 1) mod 5) 0) as [H0|_]; [contradiction|].
      destruct (activity_loop_spec (channels_uv sample) 0 self2 [])
        as (((_ & _ & Hst & _) & _) & _).
      { rewrite Hb2. destruct Hsz as (Hb & _). rewrite Hb, Hlen. apply le_n. }
      { rewrite Hl2. destruct Hsz as (_ & Hl & _). rewrite Hl, Hlen. apply le_n. }
      assert (S1 : forall w x, _channel_current_state (set_signal_strength w x)
                               = _channel_current_state w) by reflexivity.
      rewrite S1, Hst, Hst2. reflexivity.
  - rewrite rejected_sample; [reflexivity|].
    destruct Hwf as (_ & _ & _ & _ & (Hch & _) & _). rewrite Hch. exact Hne.
Qed.

Lemma levels_change_every_fifth_packet_witness :
  _channel_current_state (_handle_emg_sample calibrated_310 (constant_sample 150000))
  = _channel_current_state calibrated_310.
Proof.
  apply (levels_change_every_fifth_packet calibrated_310 (constant_sample 150000)).
  - apply handle_all_well_formed. exact init_well_formed.
  - vm_compute. discriminate.
Defined.

(** X17.  A sample of eight values that reaches a calibrated window starts a
    recalibration exactly when more than 6000 packets were counted since the
    last reset and every channel is at level 0; the packet count is then set to
    0, and otherwise it goes up by one. *)
Theorem recalibration_starts_iff (self : MainWindow) (sample : EmgSample) :
  well_formed self ->
  _baseline_initialized self = true ->
  length (channels_uv sample) = Config.EMG_CHANNELS ->
  (_baseline_initialized (_handle_emg_sample self sample) = false
   <-> (_packet_count self + 1 - _last_baseline_reset self > 6000)%Z /\
       Forall (fun state => state = 0%Z) (_channel_current_state self)) /\
  (_baseline_initialized (_handle_emg_sample self sample) = false ->
   _packet_count (_handle_emg_sample self sample) = 0%Z) /\
  (_baseline_initialized (_handle_emg_sample self sample) = true ->
   _packet_count (_handle_emg_sample self sample) = (_packet_count self + 1)%Z).
Proof.
  intros Hwf Hinit Hlen. rewrite <- recalibration_due_iff.
  pose proof Hwf as (Hsz & _ & _ & _ & Hbuf & _).
  destruct (handle_branches self sample Hbuf Hsz Hlen)
    as (buffer & _ & _ & _ &
        [(H & _)|[(_ & Hdue & ->)|(self2 & Hself2 & ->)]]); [congruence| |].
  - rewrite Hdue. fields. split; [split; reflexivity|]. split; [reflexivity|discriminate].
  - assert (Hdue : recalibration_due self = false)
      by (destruct Hself2 as [(_ & H & _)|(H & _)]; [exact H|congruence]).
    destruct (steady_window self buffer self2 Hsz Hself2)
      as (Hpc2 & Hb2 & Hl2 & _ & _ & Hini2 & _).
    assert (Hres : forall w x,
              _baseline_initialized (set_signal_strength w x) = _baseline_initialized w /\
              _packet_count (set_signal_strength w x) = _packet_count w)
      by (intros; split; reflexivity).
    destruct (activity_loop_spec (channels_uv sample) 0 self2 [])
      as (((_ & Hpc & _ & Hini & _) & _) & _).
    { rewrite Hb2. destruct Hsz as (Hb & _). rewrite Hb, Hlen. apply le_n. }
    { rewrite Hl2. destruct Hsz as (_ & Hl & _). rewrite Hl, Hlen. apply le_n. }
    destruct (indicator_loop_frame (snd (activity_loop 0 (channels_uv sample) self2 [])) 0
                (fst (activity_loop 0 (channels_uv sample) self2 [])))
      as ((_ & Hpc' & _ & _ & _ & _ & Hini' & _) & _).
    destruct (Hres (if ((_packet_count self + 1) mod 5 =? 0)%Z
                    then indicator_loop 0
                           (snd (activity_loop 0 (channels_uv sample) self2 []))
                           (fst (activity_loop 0 (channels_uv sample) self2 []))
                    else fst (activity_loop 0 (channels_uv sample) self2 []))
                (mean (snd (activity_loop 0 (channels_uv sample) self2 []))))
      as [-> ->].
    assert (Hi : _baseline_initialized
                   (if ((_packet_count self + 1) mod 5 =? 0)%Z
                    then indicator_loop 0
                           (snd (activity_loop 0 (channels_uv sample) self2 []))
                           (fst (activity_loop 0 (channels_uv sample) self2 []))
                    else fst (activity_loop 0 (channels_uv sample) self2 [])) = true)
      by (destruct ((_packet_count self + 1) mod 5 =? 0)%Z; congruence).
    assert (Hp : _packet_count
                   (if ((_packet_count self + 1) mod 5 =? 0)%Z
                    then indicator_loop 0
                           (snd (activity_loop 0 (channels_uv sample) self2 []))
                           (fst (activity_loop 0 (channels_uv sample) self2 []))
                    else fst (activity_loop 0 (channels_uv sample) self2 []))
                 = (_packet_count self + 1)%Z)
      by (destruct ((_packet_count self + 1) mod 5 =? 0)%Z; congruence).
    rewrite Hi, Hp, Hdue.
    split; [split; discriminate|]. split; [discriminate|reflexivity].
Qed.

Lemma recalibration_starts_iff_witness :
  (_baseline_initialized (_handle_emg_sample calibrated_310 (constant_sample 15000)) = false
   <-> (_packet_count calibrated_310 + 1 - _last_baseline_reset calibrated_310 > 6000)%Z /\
       Forall (fun state => state = 0%Z) (_channel_current_state calibrated_310)) /\
  (_baseline_initialized (_handle_emg_sample calibrated_310 (constant_sample 15000)) = false ->
   _packet_count (_handle_emg_sample calibrated_310 (constant_sample 15000)) = 0%Z) /\
  (_baseline_initialized (_handle_emg_sample calibrated_310 (constant_sample 15000)) = true ->
   _packet_count (_handle_emg_sample calibrated_310 (constant_sample 15000))
   = (_packet_count calibrated_310 + 1)%Z).
Proof.
  apply (recalibration_starts_iff calibrated_310 (constant_sample 15000)).
  - apply handle_all_well_formed. exact init_well_formed.
  - vm_compute. reflexivity.
  - reflexivity.
Defined.

Lemma sum_nonneg (l : list float) : forall acc,
  (0 <= acc)%Qc -> Forall (fun x => (0 <= x)%Qc) l ->
  (0 <= fold_left Qcplus l acc)%Qc.
Proof.
  induction l as [|x l IH]; intros acc Hacc Hl; [exact Hacc|].
  apply Forall_cons in Hl as [Hx Hl]. simpl. apply IH; [|exact Hl].
  to_fractions. lra.
Qed.

Lemma mean_nonneg (l : list float) :
  Forall (fun x => (0 <= x)%Qc) l -> (0 <= mean l)%Qc.
Proof.
  intros Hl. unfold mean.
  pose proof (sum_nonneg l (fl 0) (Qcle_refl _) Hl) as Hsum.
  remember (fold_left Qcplus l (fl 0)) as total eqn:Ht. clear Ht Hl.
  assert (Hn : (0 <= inject_Z (Z.of_nat (length l)))%Q).
  { unfold Qle. simpl. lia. }
  remember (Z.of_nat (length l)) as n eqn:Hneq. clear Hneq.
  to_fractions. apply Qmult_le_0_compat; [exact Hsum|].
  apply Qinv_le_0_compat. exact Hn.
Qed.

Lemma deviations_nonneg self sample :
  Forall (fun x => (0 <= x)%Qc) (deviations self sample).
Proof.
  unfold deviations. apply Forall_map. apply Forall_forall. intros j _.
  apply Qcabs_nonneg.
Qed.

(** X19.  After a steady-state sample, which the sample that ends a calibration
    also is, the signal strength is the mean over the channels of the absolute
    deviation of the sample from the baselines as they were before the sample;
    it is never negative. *)
Theorem signal_strength_is_mean_deviation (self : MainWindow) (sample : EmgSample) :
  well_formed self ->
  length (channels_uv sample) = Config.EMG_CHANNELS ->
  (_baseline_initialized self = true /\ recalibration_due self = false) \/
  (_baseline_initialized self = false /\
   (_initialization_samples self < _packet_count self + 1)%Z) ->
  _signal_strength (_handle_emg_sample self sample) = mean (deviations self sample) /\
  (0 <= _signal_strength (_handle_emg_sample self sample))%Qc.
Proof.
  intros Hwf Hlen Hsteady.
  pose proof Hwf as (Hsz & _ & _ & _ & Hbuf & _).
  assert (Heq : _signal_strength (_handle_emg_sample self sample)
                = mean (deviations self sample)).
  { destruct (handle_branches self sample Hbuf Hsz Hlen)
      as (buffer & _ & _ & _ &
          [(H1 & H2 & _)|[(H1 & H2 & _)|(self2 & Hself2 & ->)]]).
    - destruct Hsteady as [(H & _)|(_ & H)]; [congruence|lia].
    - destruct Hsteady as [(_ & H)|(H & _)]; congruence.
    - destruct (steady_window self buffer self2 Hsz Hself2) as (_ & Hb2 & Hl2 & _).
      destruct (activity_loop_spec (channels_uv sample) 0 self2 [])
        as (_ & _ & _ & Hact & _).
      { rewrite Hb2. destruct Hsz as (Hb & _). rewrite Hb, Hlen. apply le_n. }
      { rewrite Hl2. destruct Hsz as (_ & Hl & _). rewrite Hl, Hlen. apply le_n. }
      assert (Hres : forall w x, _signal_strength (set_signal_strength w x) = x)
        by reflexivity.
      rewrite Hres, Hact, Hb2. reflexivity. }
  split; [exact Heq|]. rewrite Heq. apply mean_nonneg. apply deviations_nonneg.
Qed.

Lemma signal_strength_is_mean_deviation_witness :
  _signal_strength (_handle_emg_sample calibrated_310 (constant_sample 15930))
  = mean (deviations calibrated_310 (constant_sample 15930)) /\
  (0 <= _signal_strength (_handle_emg_sample calibrated_310 (constant_sample 15930)))%Qc.
Proof.
  apply (signal_strength_is_mean_deviation calibrated_310 (constant_sample 15930)).
  - apply handle_all_well_formed. exact init_well_formed.
  - reflexivity.
  - left. split; vm_compute; reflexivity.
Defined.

Lemma geti_insert_ne (l : list Z) i j x : i <> j -> geti (<[i := x]> l) j = geti l j.
Proof.
  intros H. unfold geti. rewrite !nth_lookup, list_lookup_insert_ne by exact H.
  reflexivity.
Qed.

(** The indicator updates, channel by channel. *)
Lemma indicator_loop_spec channel_activity : forall k self,
  k + length channel_activity <= _channel_indicators self ->
  k + length channel_activity <= length (_channel_current_state self) ->
  forall j,
    geti (_channel_current_state (indicator_loop k channel_activity self)) j
    = if decide (k <= j < k + length channel_activity)
      then new_state_of (getf (_channel_noise_level self) j)
             (getf channel_activity (j - k)) (geti (_channel_current_state self) j)
      else geti (_channel_current_state self) j.
Proof.
  induction channel_activity as [|a rest IH]; intros k self Hi Hl j.
  - simpl. destruct (decide _) as [H|_]; [lia|reflexivity].
  - change (length (a :: rest)) with (S (length rest)) in *.
    cbn [indicator_loop].
    destruct (update_channel_indicator_frame self k a)
      as ((_ & _ & _ & _ & _ & Hn & _ & _ & _ & Hind) & Hlen & _).
    rewrite IH by (rewrite ?Hind, ?Hlen; lia). rewrite Hn.
    assert (Hk : forall j',
              geti (_channel_current_state (_update_channel_indicator self k a)) j'
              = if decide (j' = k)
                then new_state_of (getf (_channel_noise_level self) k) a
                       (geti (_channel_current_state self) k)
                else geti (_channel_current_state self) j').
    { intros j'. unfold _update_channel_indicator.
      destruct (Nat.leb_spec (_channel_indicators self) k); [lia|]. fields.
      destruct (decide (j' = k)) as [->|Hne].
      - apply geti_insert. lia.
      - apply geti_insert_ne. congruence. }
    rewrite Hk.
    destruct (decide (S k <= j < S k + length rest)) as [Hin|Hout].
    + destruct (decide (j = k)); [lia|].
      destruct (decide (k <= j < k + S (length rest))); [|lia].
      replace (j - k) with (S (j - S k)) by lia. reflexivity.
    + destruct (decide (j = k)) as [->|Hne].
      * destruct (decide (k <= k < k + S (length rest))); [|lia].
        rewrite Nat.sub_diag. reflexivity.
      * destruct (decide (k <= j < k + S (length rest))); [lia|reflexivity].
Qed.

(** X20.  At a packet of a calibrated window whose number is a multiple of five,
    the level of every channel is updated with the channel's own deviation from
    its baseline before the sample and with its own noise level. *)
Theorem fifth_packet_sets_levels (self : MainWindow) (sample : EmgSample) (j : nat) :
  well_formed self ->
  _baseline_initialized self = true ->
  recalibration_due self = false ->
  length (channels_uv sample) = Config.EMG_CHANNELS ->
  ((_packet_count self + 1) mod 5 = 0)%Z ->
  j < Config.EMG_CHANNELS ->
  geti (_channel_current_state (_handle_emg_sample self sample)) j
  = new_state_of (getf (_channel_noise_level self) j)
      (Qcabs (getf (channels_uv sample) j - getf (_channel_baseline self) j))
      (geti (_channel_current_state self) j).
Proof.
  intros Hwf Hinit Hdue Hlen Hmod Hj.
  pose proof Hwf as (Hsz & Hls & _ & Hind & Hbuf & _).
  destruct (handle_branches self sample Hbuf Hsz Hlen)
    as (buffer & _ & _ & _ &
        [(H1 & _)|[(_ & H2 & _)|(self2 & Hself2 & ->)]]); [congruence|congruence|].
  destruct (steady_window self buffer self2 Hsz Hself2)
    as (_ & Hb2 & Hl2 & Hst2 & Hind2 & _ & Hn2).
  specialize (Hn2 Hinit).
  destruct (activity_loop_spec (channels_uv sample) 0 self2 [])
    as (((_ & _ & Hst & _ & _ & _ & Hindw) & _ & Hnw) & _ & _ & Hact & _).
  { rewrite Hb2. destruct Hsz as (Hb & _). rewrite Hb, Hlen. apply le_n. }
  { rewrite Hl2. destruct Hsz as (_ & Hl & _). rewrite Hl, Hlen. apply le_n. }
  apply Z.eqb_eq in Hmod. rewrite Hmod.
  assert (Hres : forall w x, _channel_current_state (set_signal_strength w x)
                             = _channel_current_state w) by reflexivity.
  rewrite Hres.
  assert (Hla : length (snd (activity_loop 0 (channels_uv sample) self2 []))
                = Config.EMG_CHANNELS).
  { rewrite Hact. simpl app. rewrite length_map, length_seq. exact Hlen. }
  rewrite indicator_loop_spec
    by (rewrite ?Hindw, ?Hind2, ?Hind, ?Hst, ?Hst2, ?Hls, Hla; apply le_n).
  destruct (decide (0 <= j < 0 + length (snd (activity_loop 0 (channels_uv sample) self2 []))))
    as [_|Hout]; [|rewrite Hla in Hout; lia].
  rewrite Hnw, Hn2, Hst, Hst2, Nat.sub_0_r. f_equal.
  rewrite Hact. simpl app. unfold getf at 1.
  rewrite (nth_indep _ _ (Qcabs (getf (channels_uv sample) 0
                                 - getf (_channel_baseline self2) (0 + 0))))
    by (rewrite length_map, length_seq, Hlen; exact Hj).
  rewrite (map_nth (fun j => Qcabs (getf (channels_uv sample) j
                                   - getf (_channel_baseline self2) (0 + j)))).
  rewrite seq_nth by (rewrite Hlen; exact Hj). rewrite Hb2. reflexivity.
Qed.

Lemma fifth_packet_sets_levels_witness :
  geti (_channel_current_state
          (_handle_emg_sample
             (handle_all calibrated_310 (replicate 3 (constant_sample 15000)))
             (constant_sample 15930))) 0
  = new_state_of
      (getf (_channel_noise_level
               (handle_all calibrated_310 (replicate 3 (constant_sample 15000)))) 0)
      (Qcabs (getf (channels_uv (constant_sample 15930)) 0
              - getf (_channel_baseline
                        (handle_all calibrated_310
                           (replicate 3 (constant_sample 15000)))) 0))
      (geti (_channel_current_state
               (handle_all calibrated_310 (replicate 3 (constant_sample 15000)))) 0).
Proof.
  apply (fifth_packet_sets_levels
           (handle_all calibrated_310 (replicate 3 (constant_sample 15000)))
           (constant_sample 15930) 0).
  - apply handle_all_well_formed. apply handle_all_well_formed. exact init_well_formed.
  - vm_compute. reflexivity.
  - vm_compute. reflexivity.
  - reflexivity.
  - vm_compute. reflexivity.
  - vm_compute. lia.
Defined.

(** X21.  Samples that do not carry eight values leave no trace: the [ValueError]
    of the buffer is caught before anything is counted, so a stream handled
    with such samples in it ends in the same window as the stream without
    them. *)
Theorem wrong_length_samples_ignored (self : MainWindow) (samples : list EmgSample) :
  well_formed self ->
  handle_all self samples
  = handle_all self
      (List.filter
         (fun sample => length (channels_uv sample) =? Config.EMG_CHANNELS) samples).
Proof.
  revert self. induction samples as [|sample samples IH]; intros self Hwf; [reflexivity|].
  cbn [List.filter].
  destruct (Nat.eqb_spec (length (channels_uv sample)) Config.EMG_CHANNELS) as [Hlen|Hne].
  - rewrite !handle_all_cons. apply IH. apply handle_well_formed. exact Hwf.
  - rewrite handle_all_cons, rejected_sample; [apply IH; exact Hwf|].
    destruct Hwf as (_ & _ & _ & _ & (Hch & _) & _). rewrite Hch. exact Hne.
Qed.

Lemma wrong_length_samples_ignored_witness :
  handle_all init [short_sample; constant_sample 1000; short_sample]
  = handle_all init [constant_sample 1000].
Proof.
  apply (wrong_length_samples_ignored init
           [short_sample; constant_sample 1000; short_sample]).
  exact init_well_formed.
Defined.

End HandlerFacts.

(** ** simulator.py and sim_device.py *)

Module SimulatorFacts.
Import DataParser MainWindow Simulator SimSpec Bridge CalibrationFacts HandlerFacts.

Section Generators.

Variable pi : float.
Variable sin : float -> float.
Variable monotonic : nat -> float.
Variable random : nat -> float.
Variable gauss : nat -> nat -> float -> float -> float.
Variable uniform : nat -> nat -> float -> float -> float.

Local Abbreviation emg_next := (emg_next pi sin monotonic random gauss).
Local Abbreviation imu_next := (imu_next uniform).
Local Abbreviation run_loop := (run_loop pi sin monotonic random gauss uniform).
Local Abbreviation _run := (_run pi sin monotonic random gauss uniform).
Local Abbreviation emg_sample_at := (emg_sample_at pi sin monotonic random gauss).
Local Abbreviation imu_sample_at := (imu_sample_at uniform).
Local Abbreviation packets_at := (packets_at pi sin monotonic random gauss uniform).

Lemma next_sequence (k : nat) :
  ((Z.of_nat k mod 256 + 1) mod 256 = Z.of_nat (S k) mod 256)%Z.
Proof. rewrite Zplus_mod_idemp_l, Nat2Z.inj_succ, Z.add_1_r. reflexivity. Qed.

Lemma pass_position i c :
  c < 20 -> (20 * i + c) / 20 = i /\ (20 * i + c) mod 20 = c.
Proof.
  intros Hc. split; symmetry.
  - apply (Nat.div_unique _ 20 i c); [exact Hc|reflexivity].
  - apply (Nat.mod_unique _ 20 i c); [exact Hc|reflexivity].
Qed.

Lemma run_loop_cons passes emg_gen imu_gen imu_counter :
  run_loop (S passes) emg_gen imu_gen imu_counter
  = if ((imu_counter + 1) mod 20 =? 0)%Z
    then Emg (fst (emg_next (fl 10.0) (fl 25.0) emg_gen))
         :: Imu (fst (imu_next imu_gen))
         :: run_loop passes (snd (emg_next (fl 10.0) (fl 25.0) emg_gen))
              (snd (imu_next imu_gen)) ((imu_counter + 1) mod 20)
    else Emg (fst (emg_next (fl 10.0) (fl 25.0) emg_gen))
         :: run_loop passes (snd (emg_next (fl 10.0) (fl 25.0) emg_gen))
              imu_gen ((imu_counter + 1) mod 20).
Proof. cbn [Simulator.run_loop]. destruct (_ =? 0)%Z; reflexivity. Qed.

(** The loop after [20 * i + c] passes, [c < 20]: [i] IMU samples were
    yielded and the counter is [c]. *)
Lemma run_loop_closed passes : forall i c,
  c < 20 ->
  run_loop passes (mkGenerator (Z.of_nat (20 * i + c) mod 256) (20 * i + c))
    (mkGenerator (Z.of_nat i mod 256) i) (Z.of_nat c)
  = flat_map packets_at (seq (20 * i + c) passes).
Proof.
  induction passes as [|passes IH]; intros i c Hc; [reflexivity|].
  rewrite run_loop_cons. cbn [seq flat_map].
  change (snd (emg_next (fl 10.0) (fl 25.0)
                 (mkGenerator (Z.of_nat (20 * i + c) mod 256) (20 * i + c))))
    with (mkGenerator ((Z.of_nat (20 * i + c) mod 256 + 1) mod 256) (S (20 * i + c))).
  change (fst (emg_next (fl 10.0) (fl 25.0)
                 (mkGenerator (Z.of_nat (20 * i + c) mod 256) (20 * i + c))))
    with (emg_sample_at (20 * i + c)).
  change (fst (imu_next (mkGenerator (Z.of_nat i mod 256) i))) with (imu_sample_at i).
  change (snd (imu_next (mkGenerator (Z.of_nat i mod 256) i)))
    with (mkGenerator ((Z.of_nat i mod 256 + 1) mod 256) (S i)).
  rewrite !next_sequence. unfold SimSpec.packets_at at 1.
  destruct (Nat.eq_dec c 19) as [->|Hne].
  - change ((Z.of_nat 19 + 1) mod 20)%Z with 0%Z. cbn [Z.eqb].
    replace (S (20 * i + 19)) with (20 * S i + 0) by lia.
    destruct (pass_position (S i) 0 ltac:(lia)) as [-> ->].
    cbn [Nat.eqb]. replace (S i - 1) with i by lia.
    pose proof (IH (S i) 0 ltac:(lia)) as IH0.
    change (Z.of_nat 0) with 0%Z in IH0. rewrite IH0. reflexivity.
  - assert (Hmod : ((Z.of_nat c + 1) mod 20 = Z.of_nat (S c))%Z)
      by (rewrite Z.mod_small; lia).
    rewrite Hmod.
    destruct (Z.eqb_spec (Z.of_nat (S c)) 0) as [H0|_]; [lia|].
    replace (S (20 * i + c)) with (20 * i + S c) by lia.
    destruct (pass_position i (S c) ltac:(lia)) as [_ ->].
    cbn [Nat.eqb]. rewrite (IH i (S c)) by lia. reflexivity.
Qed.

Lemma next_twentieth n :
  S n / 20 = n / 20 + (if S n mod 20 =? 0 then 1 else 0).
Proof.
  pose proof (Nat.div_mod_eq n 20) as Hn.
  pose proof (Nat.mod_upper_bound n 20 ltac:(lia)) as Hr.
  remember (n / 20) as q. remember (n mod 20) as r.
  destruct (Nat.eq_dec r 19) as [->|Hne].
  - replace (S n) with (20 * S q + 0) by lia.
    destruct (pass_position (S q) 0 ltac:(lia)) as [-> ->]. simpl. lia.
  - replace (S n) with (20 * q + S r) by lia.
    destruct (pass_position q (S r) ltac:(lia)) as [-> ->]. simpl. lia.
Qed.

Lemma emg_sample_at_shape k :
  length (channels_uv (emg_sample_at k)) = Config.EMG_CHANNELS /\
  emg_sequence (emg_sample_at k) = (Z.of_nat k mod 256)%Z.
Proof. split; reflexivity. Qed.

Lemma run_closed n : _run n = flat_map packets_at (seq 0 n).
Proof. exact (run_loop_closed n 0 0 ltac:(lia)). Qed.

Lemma emg_samples_app packets packets' :
  emg_samples (packets ++ packets') = emg_samples packets ++ emg_samples packets'.
Proof. unfold emg_samples. apply omap_app. Qed.

Lemma emg_samples_closed n :
  emg_samples (flat_map packets_at (seq 0 n)) = map emg_sample_at (seq 0 n).
Proof.
  induction n as [|n IH]; [reflexivity|].
  rewrite seq_S, flat_map_app, emg_samples_app, map_app, IH. f_equal.
  cbn [flat_map Nat.add]. unfold SimSpec.packets_at.
  destruct (S n mod 20 =? 0); reflexivity.
Qed.

(** X22.  [SimulatedDeviceManager._run] in closed form.  In [n] passes of its loop
    it hands to [on_packet] the first [n] samples of the EMG generator, in
    order, and an IMU sample right after every twentieth of them: [n + n / 20]
    packets in all. *)
Theorem simulated_run_packets (n : nat) :
  _run n = flat_map packets_at (seq 0 n) /\
  emg_samples (_run n) = map emg_sample_at (seq 0 n) /\
  length (_run n) = n + n / 20.
Proof.
  rewrite run_closed. split; [reflexivity|]. split; [apply emg_samples_closed|].
  induction n as [|n IH]; [reflexivity|].
  rewrite seq_S, flat_map_app, length_app, IH, next_twentieth.
  cbn [flat_map Nat.add]. unfold SimSpec.packets_at.
  destruct (S n mod 20 =? 0); cbn [length app]; lia.
Qed.

(** X23.  The simulated samples have the shape of decoded ones, whatever the clock,
    the sine and the random draws give: an EMG sample has eight channels, an
    IMU sample three gyroscope values, three accelerations and six zeros, and
    the sequence numbers count from 0 modulo 256. *)
Theorem simulated_samples_shape (n : nat) :
  Forall (fun packet =>
            match packet with
            | Emg s =>
                length (channels_uv s) = Config.EMG_CHANNELS /\
                (0 <= emg_sequence s <= 255)%Z
            | Imu s =>
                length (gyro_rads s) = 3 /\ length (accel_mss s) = 3 /\
                remainder s = replicate 6 0%Z /\
                (0 <= imu_sequence s <= 255)%Z
            end) (_run n) /\
  map emg_sequence (emg_samples (_run n))
  = map (fun k => (Z.of_nat k mod 256)%Z) (seq 0 n).
Proof.
  rewrite run_closed. split.
  - apply Forall_flat_map. apply Forall_forall. intros k _.
    unfold SimSpec.packets_at. constructor.
    + split; [reflexivity|].
      change (emg_sequence (emg_sample_at k)) with (Z.of_nat k mod 256)%Z.
      pose proof (Z.mod_pos_bound (Z.of_nat k) 256 ltac:(lia)). lia.
    + destruct (S k mod 20 =? 0); constructor; [|constructor].
      repeat split; try reflexivity;
        change (imu_sequence (imu_sample_at (S k / 20 - 1)))
          with (Z.of_nat (S k / 20 - 1) mod 256)%Z;
        pose proof (Z.mod_pos_bound (Z.of_nat (S k / 20 - 1)) 256 ltac:(lia)); lia.
  - rewrite emg_samples_closed, map_map. reflexivity.
Qed.

Lemma deliver_emg_samples packets : forall self,
  deliver self packets = handle_all self (emg_samples packets).
Proof.
  induction packets as [|packet packets IH]; intros self; [reflexivity|].
  destruct packet as [s|s]; simpl; apply IH.
Qed.

(** X24.  The simulator driving the window through the packet bridge: no simulated
    sample is rejected, the IMU samples do not count, and whatever values the
    simulator produces the window is calibrating during the first 500 passes
    and calibrated by the 501st, with every level still 0. *)
Theorem simulated_calibration_length (n : nat) :
  n <= 501 ->
  _packet_count (deliver init (_run n)) = Z.of_nat n /\
  _baseline_initialized (deliver init (_run n)) = (500 <? n) /\
  _channel_current_state (deliver init (_run n)) = replicate Config.EMG_CHANNELS 0%Z.
Proof.
  intros Hn. rewrite deliver_emg_samples, run_closed, emg_samples_closed.
  assert (Hrun : forall m, m <= 500 ->
            well_formed (handle_all init (map emg_sample_at (seq 0 m))) /\
            _baseline_initialized (handle_all init (map emg_sample_at (seq 0 m))) = false /\
            _packet_count (handle_all init (map emg_sample_at (seq 0 m))) = Z.of_nat m /\
            _initialization_samples (handle_all init (map emg_sample_at (seq 0 m))) = 500%Z /\
            _channel_current_state (handle_all init (map emg_sample_at (seq 0 m)))
            = replicate Config.EMG_CHANNELS 0%Z).
  { intros m Hm.
    destruct (calibrating_run (map emg_sample_at (seq 0 m)) init init_well_formed eq_refl)
      as (Hw & Hi & Hc & HN & Hs & _).
    - rewrite length_map, length_seq. change (_packet_count init) with 0%Z.
      change (_initialization_samples init) with 500%Z. lia.
    - apply Forall_map. apply Forall_forall. intros k _. reflexivity.
    - rewrite length_map, length_seq in Hc.
      split; [exact Hw|]. split; [exact Hi|]. split; [exact Hc|].
      split; [exact HN|exact Hs]. }
  destruct (Nat.le_gt_cases n 500) as [Hcal|Hend].
  - destruct (Hrun n Hcal) as (_ & Hi & Hc & _ & Hs).
    split; [exact Hc|]. split; [|exact Hs].
    rewrite Hi. symmetry. apply Nat.ltb_ge. exact Hcal.
  - assert (n = 501) as -> by lia.
    destruct (Hrun 500 (le_n _)) as (Hw & Hi & Hc & HN & Hs).
    rewrite seq_S, map_app, handle_all_app.
    remember (handle_all init (map emg_sample_at (seq 0 500))) as w eqn:Hweq.
    change (handle_all w (map emg_sample_at [0 + 500]))
      with (_handle_emg_sample w (emg_sample_at 500)).
    destruct (finishing_step w (emg_sample_at 500) Hw Hi) as (Hi' & Hc' & Hs').
    + rewrite HN, Hc. lia.
    + rewrite Hc. discriminate.
    + reflexivity.
    + rewrite Hi', Hc', Hs', Hc, Hs. repeat split.
Qed.

End Generators.

Lemma simulated_calibration_length_witness :
  _packet_count
    (deliver init
       (_run (fl 3) (fun x => x) (fun n => float_of_int (Z.of_nat n))
          (fun i => fl 0.5) (fun k idx mu sigma => mu) (fun k idx a b => a) 40))
  = 40%Z /\
  _baseline_initialized
    (deliver init
       (_run (fl 3) (fun x => x) (fun n => float_of_int (Z.of_nat n))
          (fun i => fl 0.5) (fun k idx mu sigma => mu) (fun k idx a b => a) 40))
  = false /\
  _channel_current_state
    (deliver init
       (_run (fl 3) (fun x => x) (fun n => float_of_int (Z.of_nat n))
          (fun i => fl 0.5) (fun k idx mu sigma => mu) (fun k idx a b => a) 40))
  = replicate Config.EMG_CHANNELS 0%Z.
Proof.
  apply (simulated_calibration_length (fl 3) (fun x => x)
           (fun n => float_of_int (Z.of_nat n)) (fun i => fl 0.5)
           (fun k idx mu sigma => mu) (fun k idx a b => a) 40).
  lia.
Defined.

End SimulatorFacts.

(** ** motion_recorder.py *)

Module RecorderFacts.
Import MotionRecorder.

Section Recorder.

Context {Image Landmarks : Type}.
Variable float32 : float -> float.

Local Abbreviation add_emg_sample := (@add_emg_sample Image Landmarks float32).
Local Abbreviation add_all := (@add_all Image Landmarks float32).

(** One call while recording: a frame is added at the end with the sample's
    channels, the frames before it keep their data, and the frames stay
    [trimmed]. *)
Lemma add_emg_sample_recording (self : MotionRecorder Image Landmarks) sess now emg_channels :
  recording self = true -> session self = Some sess ->
  trimmed (frames sess) ->
  snd (add_emg_sample self now emg_channels) = true /\
  recording (fst (add_emg_sample self now emg_channels)) = true /\
  enable_camera (fst (add_emg_sample self now emg_channels)) = enable_camera self /\
  exists sess',
    session (fst (add_emg_sample self now emg_channels)) = Some sess' /\
    start_time sess' = start_time sess /\
    map emg_data (frames sess')
    = map emg_data (frames sess) ++ [map float32 emg_channels] /\
    map timestamp (frames sess')
    = map timestamp (frames sess) ++ [(now - start_time sess)%Qc] /\
    trimmed (frames sess').
Proof.
  intros Hrec Hsess Htrim. unfold MotionRecorder.add_emg_sample.
  rewrite Hrec, Hsess. cbv zeta. cbn [fst snd recording enable_camera session].
  split; [reflexivity|]. split; [reflexivity|]. split; [reflexivity|].
  eexists. split; [reflexivity|]. cbn [start_time frames].
  split; [reflexivity|].
  set (new := mkMotionFrame _ _ _ _).
  set (all := frames sess ++ [new]).
  assert (Hlen : length all = S (length (frames sess)))
    by (unfold all; rewrite length_app; simpl; lia).
  assert (Hdata : map emg_data all = map emg_data (frames sess) ++ [map float32 emg_channels])
    by (unfold all; rewrite map_app; reflexivity).
  assert (Htime : map timestamp all
                  = map timestamp (frames sess) ++ [(now - start_time sess)%Qc])
    by (unfold all; rewrite map_app; reflexivity).
  assert (Hold : forall i frame,
            all !! i = Some frame -> S (i + MAX_FULL_IMAGE_FRAMES) < length all ->
            frame_image frame = None).
  { intros i frame Hi Hlt. apply (Htrim i); [|lia].
    unfold all in Hi. rewrite lookup_app_l in Hi by lia. exact Hi. }
  unfold MAX_FULL_IMAGE_FRAMES in *.
  destruct (Nat.ltb_spec 100 (length all)) as [Hlong|Hshort].
  - destruct (all !! (length all - 100 - 1)) as [old|] eqn:Hk.
    + destruct (frame_image old) as [image|] eqn:Himg.
      * split; [|split].
        -- rewrite <- Hdata. apply list_eq. intros i.
           rewrite !list_lookup_fmap.
           destruct (Nat.eq_dec i (length all - 100 - 1)) as [->|Hne].
           ++ rewrite list_lookup_insert_eq by lia. rewrite Hk. reflexivity.
           ++ rewrite list_lookup_insert_ne by congruence. reflexivity.
        -- rewrite <- Htime. apply list_eq. intros i.
           rewrite !list_lookup_fmap.
           destruct (Nat.eq_dec i (length all - 100 - 1)) as [->|Hne].
           ++ rewrite list_lookup_insert_eq by lia. rewrite Hk. reflexivity.
           ++ rewrite list_lookup_insert_ne by congruence. reflexivity.
        -- intros i frame Hi Hlt. rewrite length_insert in Hlt.
           unfold MAX_FULL_IMAGE_FRAMES in Hlt.
           destruct (Nat.eq_dec i (length all - 100 - 1)) as [->|Hne].
           ++ rewrite list_lookup_insert_eq in Hi by lia. injection Hi as <-. reflexivity.
           ++ rewrite list_lookup_insert_ne in Hi by congruence.
              apply (Hold i frame Hi). lia.
      * split; [exact Hdata|]. split; [exact Htime|].
        intros i frame Hi Hlt. unfold MAX_FULL_IMAGE_FRAMES in Hlt.
        destruct (Nat.eq_dec i (length all - 100 - 1)) as [->|Hne].
        -- rewrite Hk in Hi. injection Hi as <-. exact Himg.
        -- apply (Hold i frame Hi). lia.
    + apply lookup_ge_None in Hk. lia.
  - split; [exact Hdata|]. split; [exact Htime|].
    intros i frame Hi Hlt. unfold MAX_FULL_IMAGE_FRAMES in Hlt. lia.
Qed.

Lemma add_all_recording arrivals : forall (self : MotionRecorder Image Landmarks) sess,
  recording self = true -> session self = Some sess ->
  trimmed (frames sess) ->
  recording (add_all self arrivals) = true /\
  exists sess',
    session (add_all self arrivals) = Some sess' /\
    map emg_data (frames sess')
    = map emg_data (frames sess) ++ map (fun a => map float32 (channels a)) arrivals /\
    map timestamp (frames sess')
    = map timestamp (frames sess)
      ++ map (fun a => (clock a - start_time sess)%Qc) arrivals /\
    trimmed (frames sess').
Proof.
  induction arrivals as [|a arrivals IH]; intros self sess Hrec Hsess Htrim.
  - simpl. split; [exact Hrec|]. exists sess. rewrite !app_nil_r. auto.
  - cbn [MotionRecorder.add_all fold_left].
    destruct (add_emg_sample_recording
                (with_cache self (cached_frame a) (cached_landmarks a))
                sess (clock a) (channels a) Hrec Hsess Htrim)
      as (_ & Hrec1 & _ & sess1 & Hsess1 & Hstart1 & Hdata1 & Htime1 & Htrim1).
    destruct (IH _ sess1 Hrec1 Hsess1 Htrim1)
      as (Hrec2 & sess2 & Hsess2 & Hdata2 & Htime2 & Htrim2).
    split; [exact Hrec2|]. exists sess2. split; [exact Hsess2|].
    rewrite Hdata2, Hdata1, Htime2, Htime1, Hstart1, <- !app_assoc.
    split; [reflexivity|]. split; [reflexivity|exact Htrim2].
Qed.

Lemma trimmed_images (all : list (MotionFrame Image Landmarks)) :
  trimmed all ->
  Forall (fun frame => frame_image frame = None)
    (take (length all - MAX_FULL_IMAGE_FRAMES) all).
Proof.
  intros Htrim. apply Forall_lookup. intros i frame Hi.
  apply lookup_take_Some in Hi as [Hi Hlt].
  apply (Htrim i frame Hi). lia.
Qed.

(** X25.  During a recording, whatever the camera thread leaves in the cache
    between the calls, [add_emg_sample] records one frame per call, in order,
    with the sample's channels as float32 values and the time since the start
    of the session, and only the latest 100 frames can hold an image: every
    earlier frame has had its image released. *)
Theorem recording_keeps_latest_images (enabled : bool) (started : float)
  (frame : option Image) (landmarks : option Landmarks)
  (arrivals : list (arrival Image Landmarks)) :
  recording
    (add_all (mkMotionRecorder enabled true (Some (mkRecordingSession [] started))
                frame landmarks) arrivals) = true /\
  map emg_data
    (recorded (add_all (mkMotionRecorder enabled true
                          (Some (mkRecordingSession [] started)) frame landmarks)
                 arrivals))
  = map (fun a => map float32 (channels a)) arrivals /\
  map timestamp
    (recorded (add_all (mkMotionRecorder enabled true
                          (Some (mkRecordingSession [] started)) frame landmarks)
                 arrivals))
  = map (fun a => (clock a - started)%Qc) arrivals /\
  Forall (fun frame => frame_image frame = None)
    (take (length arrivals - MAX_FULL_IMAGE_FRAMES)
       (recorded (add_all (mkMotionRecorder enabled true
                             (Some (mkRecordingSession [] started)) frame landmarks)
                    arrivals))).
Proof.
  destruct (add_all_recording arrivals
              (mkMotionRecorder enabled true (Some (mkRecordingSession [] started))
                 frame landmarks)
              (mkRecordingSession [] started) eq_refl eq_refl)
    as (Hrec & sess & Hsess & Hdata & Htime & Htrim).
  { intros i f Hi. cbn [frames] in Hi. rewrite lookup_nil in Hi. discriminate. }
  cbn [frames start_time map app] in Hdata, Htime.
  split; [exact Hrec|]. unfold recorded. rewrite Hsess.
  split; [exact Hdata|]. split; [exact Htime|].
  assert (Hlen : length (frames sess) = length arrivals).
  { apply (f_equal length) in Hdata. rewrite !length_map in Hdata. exact Hdata. }
  rewrite <- Hlen. apply trimmed_images. exact Htrim.
Qed.

End Recorder.

End RecorderFacts.
